(** * DynaPhoPy: the trajectory model and the spectral estimators

    A shallow embedding of [dynaphopy/classes/dynamics.py] (class [Dynamics])
    and of [dynaphopy/power_spectrum.py].

    Conventions of the embedding.
    - numpy's [float64] is idealised as the real numbers [R]; [complex128] is
      a pair of reals.  Every theorem that divides or takes a square root
      states the side condition (non-zero divisor, non-negative radicand)
      under which the real and the floating-point operation agree up to
      rounding.
    - numpy's [int64] is an integer that wraps around outside its range
      (see [wrap_int64]); Python's own integers have no range.
    - A method of [Dynamics] is a computation over the object's fields that
      may print, may leave through [exit()] and may raise a Python
      exception; see [M].
    - Code of the package that lives outside the two modules ([atoms.Structure],
      [relativize_trajectory], [mem], [correlation_par], [curve_fit],
      [lorentzian], [get_error_from_covariance]) and the transform of
      [pyfftw] are taken as parameters.  So is what [averaged_positions]
      (a random draw) and [get_correct_arangement] return to
      [check_trajectory_structure]. *)

From Stdlib Require Import String.
From Stdlib Require Import Reals Lra Lia ZArith List Bool Psatz Sorted.
Import ListNotations.
Local Open Scope R_scope.

(* ================================================================== *)
(** * Numbers and small arrays *)
(* ================================================================== *)

(** [complex128] *)
Record complex : Type := mkC { Re : R; Im : R }.

Definition C0 : complex := mkC 0 0.
Definition RtoC (x : R) : complex := mkC x 0.
Definition Cadd (a b : complex) : complex := mkC (Re a + Re b) (Im a + Im b).
Definition Cmul (a b : complex) : complex :=
  mkC (Re a * Re b - Im a * Im b) (Re a * Im b + Im a * Re b).
Definition Cconj (a : complex) : complex := mkC (Re a) (- Im a).
(** complex times a real scalar, complex divided by a real scalar *)
Definition Cscale (a : complex) (x : R) : complex := mkC (Re a * x) (Im a * x).
Definition Cdiv_real (a : complex) (x : R) : complex := mkC (Re a / x) (Im a / x).
(** squared modulus and [np.abs] *)
Definition Cnorm2 (a : complex) : R := Re a * Re a + Im a * Im a.
Definition Cabs (a : complex) : R := sqrt (Cnorm2 a).

Definition vec3 : Type := (R * R * R)%type.
Definition ivec3 : Type := (Z * Z * Z)%type.
(** a 3x3 cell matrix, given by its rows *)
Definition mat3 : Type := (vec3 * vec3 * vec3)%type.

(** [h[:,0]], [h[:,1]], [h[:,2]] *)
Definition col0 (h : mat3) : vec3 :=
  let '((a, _, _), (b, _, _), (c, _, _)) := h in (a, b, c).
Definition col1 (h : mat3) : vec3 :=
  let '((_, a, _), (_, b, _), (_, c, _)) := h in (a, b, c).
Definition col2 (h : mat3) : vec3 :=
  let '((_, _, a), (_, _, b), (_, _, c)) := h in (a, b, c).

(** [np.linalg.norm] of a 3-vector *)
Definition norm3 (v : vec3) : R :=
  let '(x, y, z) := v in sqrt (x * x + y * y + z * z).

(** [np.divide] of two 3-vectors *)
Definition np_divide3 (a b : vec3) : vec3 :=
  let '(a0, a1, a2) := a in
  let '(b0, b1, b2) := b in (a0 / b0, a1 / b1, a2 / b2).

(** [np.around]: to the nearest integer, a tie to the even neighbour *)
Definition np_around (x : R) : Z :=
  let f := Int_part x in
  let d := x - IZR f in
  if Rlt_dec d (1 / 2) then f
  else if Rlt_dec (1 / 2) d then (f + 1)%Z
  else if Z.even f then f else (f + 1)%Z.

Definition np_around3 (v : vec3) : ivec3 :=
  let '(x, y, z) := v in (np_around x, np_around y, np_around z).

(** the integer vector minus the real one, element by element *)
Definition sub_int_real (m : ivec3) (v : vec3) : vec3 :=
  let '(m0, m1, m2) := m in
  let '(x, y, z) := v in (IZR m0 - x, IZR m1 - y, IZR m2 - z).

(** Python's builtin [sum] over the three entries, from the start value 0 *)
Definition py_sum3 (v : vec3) : R :=
  let '(x, y, z) := v in 0 + x + y + z.

(** numpy's [int64]: a result outside the range wraps around *)
Definition wrap_int64 (z : Z) : Z :=
  ((z + 2 ^ 63) mod 2 ^ 64 - 2 ^ 63)%Z.

(** the product of two integers, one of them an [int64] of numpy *)
Definition int64_mul (a b : Z) : Z := wrap_int64 (a * b).

(** [np.product] of the vector that [astype("int")] made: the entries are
    multiplied one after the other as [int64] *)
Definition np_product3 (m : ivec3) : Z :=
  let '(a, b, c) := m in int64_mul (int64_mul a b) c.

(** 3x3 real matrices: zero, sum, division by a scalar *)
Definition vec3_add (a b : vec3) : vec3 :=
  let '(a0, a1, a2) := a in
  let '(b0, b1, b2) := b in (a0 + b0, a1 + b1, a2 + b2).
Definition vec3_div (a : vec3) (x : R) : vec3 :=
  let '(a0, a1, a2) := a in (a0 / x, a1 / x, a2 / x).
Definition mat3_zero : mat3 := ((0, 0, 0), (0, 0, 0), (0, 0, 0)).
Definition mat3_add (a b : mat3) : mat3 :=
  let '(a0, a1, a2) := a in
  let '(b0, b1, b2) := b in (vec3_add a0 b0, vec3_add a1 b1, vec3_add a2 b2).
Definition mat3_div (a : mat3) (x : R) : mat3 :=
  let '(a0, a1, a2) := a in (vec3_div a0 x, vec3_div a1 x, vec3_div a2 x).

(** [np.dot(d.T, d).real] for the rows [d] of three coordinates each *)
Definition dot_transposed_real (d : list (list complex)) : mat3 :=
  let e a b :=
    fold_right Rplus 0
      (map (fun r => Re (Cmul (nth a r C0) (nth b r C0))) d) in
  ((e 0%nat 0%nat, e 0%nat 1%nat, e 0%nat 2%nat),
   (e 1%nat 0%nat, e 1%nat 1%nat, e 1%nat 2%nat),
   (e 2%nat 0%nat, e 2%nat 1%nat, e 2%nat 2%nat)).

(** [np.unique(l, return_counts=True)[1]]: how often each value of [l]
    occurs, by ascending value *)
Definition np_unique_counts (l : list nat) : list nat :=
  map (count_occ Nat.eq_dec l)
      (filter (fun v => existsb (Nat.eqb v) l) (seq 0 (S (list_max l)))).

(** A three-dimensional array indexed [time, atom, axis]: the frames along
    the first axis and the lengths of the two other axes (kept apart so that
    an array with no frame still has a shape). *)
Record ndarray3 : Type := mkArr3 {
  frames : list (list (list complex));
  shape1 : nat;
  shape2 : nat
}.

Definition shape0 (a : ndarray3) : nat := length (frames a).

(** every frame has [shape1] atoms of [shape2] coordinates *)
Definition well_shaped (a : ndarray3) : Prop :=
  Forall (fun fr => length fr = shape1 a /\
                    Forall (fun at_ => length at_ = shape2 a) fr) (frames a).

(** Python's [l[start:]] *)
Definition slice_from {A : Type} (start : Z) (l : list A) : list A :=
  let len := Z.of_nat (length l) in
  let s := if (start <? 0)%Z then Z.max (start + len) 0 else Z.min start len in
  skipn (Z.to_nat s) l.

(** [a[start:, :, :]] *)
Definition slice3_from (start : Z) (a : ndarray3) : ndarray3 :=
  mkArr3 (slice_from start (frames a)) (shape1 a) (shape2 a).

(** Replace the entry at index [i]; the list is unchanged out of range
    (callers test the range first and raise [IndexError]). *)
Fixpoint list_set {A : Type} (i : nat) (x : A) (l : list A) : list A :=
  match l, i with
  | [], _ => []
  | _ :: l', O => x :: l'
  | y :: l', S i' => y :: list_set i' x l'
  end.

(* ================================================================== *)
(** * The reference structure (an [atoms.Structure], not part of the two
      modules): what the methods of [Dynamics] ask of it. *)
(* ================================================================== *)

Record Structure : Type := mkStructure {
  get_cell : mat3;
  structure_number_of_atoms : Z;            (* get_number_of_atoms() *)
  get_masses : ivec3 -> list R;             (* get_masses(super_cell=...) *)
  get_number_of_dimensions : Z;
  get_atom_type_index : option ivec3 -> list nat;
                                 (* get_atom_type_index([super_cell=...]) *)
  get_number_of_atom_types : nat
}.

(* ================================================================== *)
(** * The object state *)
(* ================================================================== *)

Record Dynamics : Type := mkDynamics {
  _time : option (list R);
  _trajectory : option ndarray3;
  _energy : option (list R);
  _velocity : option ndarray3;
  _super_cell : option mat3;
  _time_step_average : option R;
  _velocity_mass_average : option ndarray3;
  _relative_trajectory : option ndarray3;
  _super_cell_matrix : option ivec3;
  _number_of_atoms : option Z;
  _mean_displacement_matrix : option (list mat3);
  _structure : Structure
}.

Definition with_time v s :=
  mkDynamics v (_trajectory s) (_energy s) (_velocity s) (_super_cell s)
    (_time_step_average s) (_velocity_mass_average s) (_relative_trajectory s)
    (_super_cell_matrix s) (_number_of_atoms s) (_mean_displacement_matrix s)
    (_structure s).
Definition with_trajectory v s :=
  mkDynamics (_time s) v (_energy s) (_velocity s) (_super_cell s)
    (_time_step_average s) (_velocity_mass_average s) (_relative_trajectory s)
    (_super_cell_matrix s) (_number_of_atoms s) (_mean_displacement_matrix s)
    (_structure s).
Definition with_energy v s :=
  mkDynamics (_time s) (_trajectory s) v (_velocity s) (_super_cell s)
    (_time_step_average s) (_velocity_mass_average s) (_relative_trajectory s)
    (_super_cell_matrix s) (_number_of_atoms s) (_mean_displacement_matrix s)
    (_structure s).
Definition with_velocity v s :=
  mkDynamics (_time s) (_trajectory s) (_energy s) v (_super_cell s)
    (_time_step_average s) (_velocity_mass_average s) (_relative_trajectory s)
    (_super_cell_matrix s) (_number_of_atoms s) (_mean_displacement_matrix s)
    (_structure s).
Definition with_super_cell v s :=
  mkDynamics (_time s) (_trajectory s) (_energy s) (_velocity s) v
    (_time_step_average s) (_velocity_mass_average s) (_relative_trajectory s)
    (_super_cell_matrix s) (_number_of_atoms s) (_mean_displacement_matrix s)
    (_structure s).
Definition with_time_step_average v s :=
  mkDynamics (_time s) (_trajectory s) (_energy s) (_velocity s) (_super_cell s)
    v (_velocity_mass_average s) (_relative_trajectory s)
    (_super_cell_matrix s) (_number_of_atoms s) (_mean_displacement_matrix s)
    (_structure s).
Definition with_velocity_mass_average v s :=
  mkDynamics (_time s) (_trajectory s) (_energy s) (_velocity s) (_super_cell s)
    (_time_step_average s) v (_relative_trajectory s)
    (_super_cell_matrix s) (_number_of_atoms s) (_mean_displacement_matrix s)
    (_structure s).
Definition with_relative_trajectory v s :=
  mkDynamics (_time s) (_trajectory s) (_energy s) (_velocity s) (_super_cell s)
    (_time_step_average s) (_velocity_mass_average s) v
    (_super_cell_matrix s) (_number_of_atoms s) (_mean_displacement_matrix s)
    (_structure s).
Definition with_super_cell_matrix v s :=
  mkDynamics (_time s) (_trajectory s) (_energy s) (_velocity s) (_super_cell s)
    (_time_step_average s) (_velocity_mass_average s) (_relative_trajectory s)
    v (_number_of_atoms s) (_mean_displacement_matrix s)
    (_structure s).
Definition with_number_of_atoms v s :=
  mkDynamics (_time s) (_trajectory s) (_energy s) (_velocity s) (_super_cell s)
    (_time_step_average s) (_velocity_mass_average s) (_relative_trajectory s)
    (_super_cell_matrix s) v (_mean_displacement_matrix s)
    (_structure s).
Definition with_mean_displacement_matrix v s :=
  mkDynamics (_time s) (_trajectory s) (_energy s) (_velocity s) (_super_cell s)
    (_time_step_average s) (_velocity_mass_average s) (_relative_trajectory s)
    (_super_cell_matrix s) (_number_of_atoms s) v
    (_structure s).
Definition with_structure v s :=
  mkDynamics (_time s) (_trajectory s) (_energy s) (_velocity s) (_super_cell s)
    (_time_step_average s) (_velocity_mass_average s) (_relative_trajectory s)
    (_super_cell_matrix s) (_number_of_atoms s) (_mean_displacement_matrix s)
    v.

(* ================================================================== *)
(** * Effects: printing, [exit()] and exceptions *)
(* ================================================================== *)

Inductive pyexn : Type :=
| IndexError | TypeError | ValueError | ZeroDivisionError.

(** what a call leaves on standard output *)
Inductive message : Type :=
| Warning_larger_than_available
    (* "Warning: specified step number larger than available" *)
| Using_steps (n : nat)                  (* "Using {0} steps" *)
| Printed_real (x : R)                   (* print(abs(...)) *)
| Warning_cells_do_not_fit
    (* "Warning! Structure cell and MD cell do not fit!" *)
| Cell_size_relation_not_integer (v : vec3)
| MD_cell_size_relation (m : ivec3)
| No_velocity_provided
    (* "No velocity provided! calculating it from coordinates..." *)
| No_trajectory_loaded
| Coefficients_should_be_smaller
    (* "Number of coefficients should be smaller than the number of time steps" *)
| Fitting_error_skipping (n : Z)
| Progress (label : string) (progress : R) (status : string)
| Peak_report (peak : nat) (width position coefficients error : R)
| Padding_with_zeros (n : Z).            (* "Padding with {0} zeros" *)

Inductive outcome (A : Type) : Type :=
| Returns (a : A)
| SystemExit
| Raises (e : pyexn).
Arguments Returns {A} a.
Arguments SystemExit {A}.
Arguments Raises {A} e.

(** A method: from the object's state to an outcome, the state it leaves
    and the lines it printed, oldest first. *)
Definition M (A : Type) : Type :=
  Dynamics -> outcome A * Dynamics * list message.

Definition ret {A : Type} (a : A) : M A := fun s => (Returns a, s, []).

Definition bind {A B : Type} (m : M A) (k : A -> M B) : M B :=
  fun s =>
    match m s with
    | (Returns a, s1, o1) =>
        let '(r, s2, o2) := k a s1 in (r, s2, o1 ++ o2)
    | (SystemExit, s1, o1) => (SystemExit, s1, o1)
    | (Raises e, s1, o1) => (Raises e, s1, o1)
    end.

Declare Scope py_scope.
Delimit Scope py_scope with py.
Notation "x <- m ;; k" := (bind m (fun x => k))
  (at level 61, m at next level, right associativity) : py_scope.
Notation "m ;; k" := (bind m (fun _ => k))
  (at level 61, right associativity) : py_scope.
Local Open Scope py_scope.

Definition get_self : M Dynamics := fun s => (Returns s, s, []).
Definition modify (f : Dynamics -> Dynamics) : M unit :=
  fun s => (Returns tt, f s, []).
Definition print (m : message) : M unit := fun s => (Returns tt, s, [m]).
Definition exit {A : Type} : M A := fun s => (SystemExit, s, []).
Definition raise {A : Type} (e : pyexn) : M A := fun s => (Raises e, s, []).

(** [for x in l: body] *)
Fixpoint for_in {A : Type} (l : list A) (body : A -> M unit) : M unit :=
  match l with
  | [] => ret tt
  | x :: l' => body x ;; for_in l' body
  end.

(** [for x in l: acc = body(x, acc)] *)
Fixpoint for_acc {A B : Type} (l : list A) (acc : B) (body : A -> B -> M B)
  : M B :=
  match l with
  | [] => ret acc
  | x :: l' => acc' <- body x acc ;; for_acc l' acc' body
  end.

(** [range(n)] *)
Definition range (n : Z) : list nat := seq 0 (Z.to_nat n).

(** [l[i]] for a non-negative index *)
Definition getitem {A : Type} (l : list A) (i : nat) : M A :=
  match nth_error l i with
  | Some x => ret x
  | None => raise IndexError
  end.

(* ================================================================== *)
(** * numpy on three-dimensional arrays *)
(* ================================================================== *)

(** [a[:, i, :]] *)
Definition get_atom (a : ndarray3) (i : nat) : M (list (list complex)) :=
  if (i <? shape1 a)%nat
  then ret (map (fun fr => nth i fr []) (frames a))
  else raise IndexError.

(** [a[:, i, :] = rows] *)
Definition set_atom (a : ndarray3) (i : nat) (rows : list (list complex))
  : M ndarray3 :=
  if (i <? shape1 a)%nat
  then if (length rows =? shape0 a)%nat
       then ret (mkArr3 (map (fun p => list_set i (snd p) (fst p))
                             (combine (frames a) rows))
                        (shape1 a) (shape2 a))
       else raise ValueError
  else raise IndexError.

(** [a[:, i, j]] *)
Definition get_coord (a : ndarray3) (i j : nat) : M (list complex) :=
  if (i <? shape1 a)%nat && (j <? shape2 a)%nat
  then ret (map (fun fr => nth j (nth i fr []) C0) (frames a))
  else raise IndexError.

(** [a[:, i, j] = vals] *)
Definition set_coord (a : ndarray3) (i j : nat) (vals : list complex)
  : M ndarray3 :=
  if (i <? shape1 a)%nat && (j <? shape2 a)%nat
  then if (length vals =? shape0 a)%nat
       then ret (mkArr3
                   (map (fun p =>
                           list_set i (list_set j (snd p) (nth i (fst p) []))
                                    (fst p))
                        (combine (frames a) vals))
                   (shape1 a) (shape2 a))
       else raise ValueError
  else raise IndexError.

(** [np.zeros_like(a, dtype=complex)] *)
Definition np_zeros_like (a : ndarray3) : ndarray3 :=
  mkArr3 (map (map (map (fun _ => C0))) (frames a)) (shape1 a) (shape2 a).

(** [np.gradient(f, h)]: one-sided differences at the two ends, central
    differences inside; fewer than two samples are refused. *)
Definition np_gradient (f : list complex) (h : R) : M (list complex) :=
  let n := length f in
  let at_ k := nth k f C0 in
  let diff a b := Cadd a (Cscale b (-1)) in
  if (n <? 2)%nat then raise ValueError
  else ret (map (fun k =>
                   if (k =? 0)%nat then Cdiv_real (diff (at_ 1%nat) (at_ 0%nat)) h
                   else if (k =? n - 1)%nat
                        then Cdiv_real (diff (at_ (n - 1)%nat) (at_ (n - 2)%nat)) h
                        else Cdiv_real (diff (at_ (k + 1)%nat) (at_ (k - 1)%nat))
                                       (2 * h))
                (seq 0 n)).

(* ================================================================== *)
(** * The two index layouts of [dynamics.py] *)
(* ================================================================== *)

(** The module does not import [division] from [__future__]: it is read
    with the integer division of Python 2, for which it was written, so
    that [/] between integers rounds towards minus infinity. *)

(** [np.mod] on integers: the sign of the divisor, and 0 for a zero
    divisor *)
Definition np_mod (a b : Z) : Z :=
  if (b =? 0)%Z then 0%Z else (a mod b)%Z.

(** a numpy integer divided by an integer: 0 for a zero divisor *)
Definition np_int_divide (a b : Z) : Z :=
  if (b =? 0)%Z then 0%Z else (a / b)%Z.

(** a Python integer divided by a Python integer (the loop index by a
    product of the cell sizes and of the number of atoms of the cell) *)
Definition py_int_divide (a b : Z) : outcome Z :=
  if (b =? 0)%Z then Raises ZeroDivisionError else Returns (a / b)%Z.

Definition type_1 (i : Z) (size : ivec3) (natom : Z) : outcome (Z * Z * Z * Z) :=
  let '(size0, size1, size2) := size in
  let x := np_mod i size0 in
  let y := np_int_divide (np_mod i (size0 * size1)) size1 in
  let z := np_int_divide (np_mod i (size0 * size1 * size2)) (size1 * size0) in
  match py_int_divide i (size1 * size0 * size2) with
  | Returns k => Returns (x, y, z, k)
  | SystemExit => SystemExit
  | Raises e => Raises e
  end.

Definition type_2 (i : Z) (size : ivec3) (natom : Z) : outcome (Z * Z * Z * Z) :=
  let '(size0, size1, size2) := size in
  let x := np_int_divide (np_mod i (size0 * natom)) natom in
  let y := np_int_divide (np_mod i (size0 * natom * size1)) (size0 * natom) in
  match py_int_divide i (size1 * size0 * natom) with
  | Returns z =>
      let k := np_mod i natom in
      Returns (x, y, z, k)
  | SystemExit => SystemExit
  | Raises e => Raises e
  end.

(* ================================================================== *)
(** * class Dynamics *)
(* ================================================================== *)

Section DynamicsMethods.

(** [dynaphopy.analysis.coordinates.relativize_trajectory(self)]: the
    lattice-drift removal, which receives the object itself. *)
Variable relativize_trajectory : M ndarray3.

(** what [np.empty_like] leaves in the fresh buffer, by index *)
Variable uninitialized : nat -> nat -> nat -> complex.

Definition np_empty_like (a : ndarray3) : ndarray3 :=
  mkArr3 (map (fun t =>
                 map (fun i => map (fun j => uninitialized t i j)
                                   (seq 0 (shape2 a)))
                     (seq 0 (shape1 a)))
              (seq 0 (shape0 a)))
         (shape1 a) (shape2 a).

Definition set_time (time : option (list R)) : M unit :=
  modify (with_time time).

Definition get_time : M (option (list R)) :=
  s <- get_self ;; ret (_time s).

Definition set_super_cell (super_cell : option mat3) : M unit :=
  modify (with_super_cell super_cell).

Definition get_super_cell : M (option mat3) :=
  s <- get_self ;; ret (_super_cell s).

Definition get_energy : M (option (list R)) :=
  s <- get_self ;; ret (_energy s).

Definition set_structure (structure : Structure) : M unit :=
  modify (with_structure structure).

(** the property [structure] *)
Definition structure : M Structure :=
  s <- get_self ;; ret (_structure s).

(** [len(self.get_time())]: [len(None)] is a [TypeError] *)
Definition len_time : M Z :=
  t <- get_time ;;
  match t with
  | Some l => ret (Z.of_nat (length l))
  | None => raise TypeError
  end.

(** [self.get_time()[i]] *)
Definition time_item (i : nat) : M R :=
  t <- get_time ;;
  match t with
  | Some l => getitem l i
  | None => raise TypeError
  end.

(** [not self._time_step_average] *)
Definition falsy (x : option R) : bool :=
  match x with
  | None => true
  | Some r => if Req_dec_T r 0 then true else false
  end.

(** the loop body: [self._time_step_average += (t[i+1] - t[i])/(len(t) - 1)] *)
Definition add_time_step (i : nat) : M unit :=
  b <- time_item (i + 1) ;;
  a <- time_item i ;;
  n <- len_time ;;
  modify (fun s =>
            with_time_step_average
              (option_map (fun acc => acc + (b - a) / IZR (n - 1))
                          (_time_step_average s)) s).

Definition get_time_step_average : M R :=
  s <- get_self ;;
  (if falsy (_time_step_average s) then
     modify (with_time_step_average (Some 0)) ;;
     n <- len_time ;;
     for_in (range (n - 1)) add_time_step
   else ret tt) ;;
  s' <- get_self ;;
  match _time_step_average s' with
  | Some r => ret r
  | None => raise TypeError
  end.

(** the local function [parameters(h)] of [get_super_cell_matrix] *)
Definition parameters (h : mat3) : vec3 :=
  (norm3 (col0 h), norm3 (col1 h), norm3 (col2 h)).

(** the quantity that [get_super_cell_matrix] compares with [tolerance] *)
Definition cell_fit_deviation (m : ivec3) (real : vec3) : R :=
  Rabs (py_sum3 (sub_int_real m real) / norm3 real).

Definition get_super_cell_matrix (tolerance : R) : M ivec3 :=
  s <- get_self ;;
  match _super_cell_matrix s with
  | None =>
      sc <- get_super_cell ;;
      match sc with
      | None => raise TypeError
      | Some h =>
          st <- structure ;;
          let super_cell_matrix_real :=
            np_divide3 (parameters h) (parameters (get_cell st)) in
          let m := np_around3 super_cell_matrix_real in
          modify (with_super_cell_matrix (Some m)) ;;
          (if Rlt_dec tolerance (cell_fit_deviation m super_cell_matrix_real)
           then
             print (Printed_real (cell_fit_deviation m super_cell_matrix_real)) ;;
             print Warning_cells_do_not_fit ;;
             print (Cell_size_relation_not_integer super_cell_matrix_real) ;;
             exit
           else ret tt) ;;
          print (MD_cell_size_relation m) ;;
          ret m
      end
  | Some m => ret m
  end.

(** [Dynamics(structure, velocity=..., energy=..., time=..., super_cell=...)]:
    the constructor when no trajectory is passed (with a trajectory it first
    reorders the atoms, which is not part of this development) *)
Definition new_dynamics (structure : Structure) (velocity : option ndarray3)
    (energy time : option (list R)) (super_cell : option mat3) : Dynamics :=
  mkDynamics time None energy velocity super_cell
             None None None None None None structure.

(** the default of the keyword argument [tolerance] *)
Definition default_tolerance : R := 1 / 100.

Definition get_number_of_atoms : M Z :=
  s <- get_self ;;
  match _number_of_atoms s with
  | None =>
      st <- structure ;;
      m <- get_super_cell_matrix default_tolerance ;;
      let n := int64_mul (structure_number_of_atoms st) (np_product3 m) in
      modify (with_number_of_atoms (Some n)) ;;
      ret n
  | Some n => ret n
  end.

Definition get_relative_trajectory : M ndarray3 :=
  s <- get_self ;;
  match _relative_trajectory s with
  | None =>
      r <- relativize_trajectory ;;
      modify (with_relative_trajectory (Some r)) ;;
      ret r
  | Some r => ret r
  end.

(** the loop body of [get_mean_displacement_matrix]:
    [mean_displacement_matrix[atom_type_index[i], :, :] +=
       np.dot(displacements[:, i, :].T, displacements[:, i, :]).real
       / primtive_normalization] *)
Definition add_displacement (atom_primitive_equivalent atom_type_index : list nat)
    (displacements : ndarray3) (i : nat) (acc : list mat3) : M (list mat3) :=
  ty <- getitem atom_type_index i ;;
  primtive_normalization <- getitem atom_primitive_equivalent ty ;;
  d <- get_atom displacements i ;;
  old <- getitem acc ty ;;
  (if (shape2 displacements =? 3)%nat then ret tt else raise ValueError) ;;
  ret (list_set ty
         (mat3_add old (mat3_div (dot_transposed_real d)
                                 (INR primtive_normalization)))
         acc).

Definition get_mean_displacement_matrix : M (list mat3) :=
  st <- structure ;;
  let atom_type := get_atom_type_index st None in
  let atom_primitive_equivalent := np_unique_counts atom_type in
  s <- get_self ;;
  match _mean_displacement_matrix s with
  | None =>
      super_cell <- get_super_cell_matrix default_tolerance ;;
      st' <- structure ;;
      let atom_type_index := get_atom_type_index st' (Some super_cell) in
      let number_of_atom_types := get_number_of_atom_types st' in
      displacements <- get_relative_trajectory ;;
      let number_of_data := shape0 displacements in
      let number_of_equivalent_atoms := np_product3 super_cell in
      mean_displacement_matrix <-
        for_acc (seq 0 (shape1 displacements))
                (repeat mat3_zero number_of_atom_types)
                (add_displacement atom_primitive_equivalent atom_type_index
                                  displacements) ;;
      let result :=
        map (fun m => mat3_div m (IZR number_of_equivalent_atoms
                                  * INR number_of_data))
            mean_displacement_matrix in
      modify (with_mean_displacement_matrix (Some result)) ;;
      ret result
  | Some m => ret m
  end.

(** the property [trajectory] *)
Definition trajectory : M ndarray3 :=
  s <- get_self ;;
  match _trajectory s with
  | None => print No_trajectory_loaded ;; exit
  | Some tr => ret tr
  end.

(** the working buffer [self._velocity] while the property fills it *)
Definition velocity_buffer : M ndarray3 :=
  s <- get_self ;;
  match _velocity s with
  | Some v => ret v
  | None => raise TypeError
  end.

(** the inner loop body:
    [self._velocity[:,i,j] = np.gradient(self.get_relative_trajectory()[:,i,j],
                                         self.get_time_step_average())] *)
Definition differentiate (i j : nat) : M unit :=
  r <- get_relative_trajectory ;;
  f <- get_coord r i j ;;
  h <- get_time_step_average ;;
  g <- np_gradient f h ;;
  buf <- velocity_buffer ;;
  buf' <- set_coord buf i j g ;;
  modify (with_velocity (Some buf')).

(** the property [velocity] *)
Definition velocity : M ndarray3 :=
  s <- get_self ;;
  match _velocity s with
  | Some v => ret v
  | None =>
      print No_velocity_provided ;;
      r <- get_relative_trajectory ;;
      modify (with_velocity (Some (np_zeros_like r))) ;;
      n <- get_number_of_atoms ;;
      for_in (range n)
        (fun i =>
           st <- structure ;;
           for_in (range (get_number_of_dimensions st)) (differentiate i)) ;;
      velocity_buffer
  end.

(** the setter of the property [velocity] *)
Definition set_velocity (v : ndarray3) : M unit :=
  modify (with_velocity (Some v)).

(** the working buffer [self._velocity_mass_average] *)
Definition velocity_mass_average_buffer : M ndarray3 :=
  s <- get_self ;;
  match _velocity_mass_average s with
  | Some a => ret a
  | None => raise TypeError
  end.

(** the loop body:
    [self._velocity_mass_average[:, i, :] =
       self.velocity[:, i, :] * np.sqrt(masses[i])] *)
Definition weigh_atom (super_cell : ivec3) (i : nat) : M unit :=
  v <- velocity ;;
  rows <- get_atom v i ;;
  st <- structure ;;
  mass <- getitem (get_masses st super_cell) i ;;
  buf <- velocity_mass_average_buffer ;;
  buf' <- set_atom buf i (map (map (fun z => Cscale z (sqrt mass))) rows) ;;
  modify (with_velocity_mass_average (Some buf')).

Definition get_velocity_mass_average : M ndarray3 :=
  s <- get_self ;;
  match _velocity_mass_average s with
  | None =>
      v <- velocity ;;
      modify (with_velocity_mass_average (Some (np_empty_like v))) ;;
      super_cell <- get_super_cell_matrix default_tolerance ;;
      n <- get_number_of_atoms ;;
      for_in (range n) (weigh_atom super_cell)
  | Some _ => ret tt
  end ;;
  velocity_mass_average_buffer.

Definition crop_trajectory (last_steps : option Z) : M unit :=
  match last_steps with
  | None => ret tt
  | Some n =>
      if (n <? 0)%Z then ret tt
      else
        s <- get_self ;;
        match _trajectory s with
        | Some tr =>
            (if (Z.of_nat (shape0 tr) <? n)%Z
             then print Warning_larger_than_available else ret tt) ;;
            modify (with_trajectory (Some (slice3_from (- n) tr)))
        | None => ret tt
        end ;;
        s <- get_self ;;
        match _energy s with
        | Some e => modify (with_energy (Some (slice_from (- n) e)))
        | None => ret tt
        end ;;
        s <- get_self ;;
        match _time s with
        | Some t => modify (with_time (Some (slice_from (- n) t)))
        | None => ret tt
        end ;;
        v <- velocity ;;
        (if (Z.of_nat (shape0 v) <? n)%Z
         then print Warning_larger_than_available else ret tt) ;;
        v <- velocity ;;
        set_velocity (slice3_from (- n) v) ;;
        modify (with_velocity_mass_average None) ;;
        modify (with_relative_trajectory None) ;;
        v <- velocity ;;
        print (Using_steps (shape0 v))
  end.

End DynamicsMethods.

(* ================================================================== *)
(** * numpy on one- and two-dimensional arrays *)
(* ================================================================== *)

(** A two-dimensional array [time, mode]: its rows and the length of the
    second axis. *)
Record ndarray2 : Type := mkArr2 {
  rows : list (list complex);
  ncols : nat
}.

(** [vq[:, i]] *)
Definition column (vq : ndarray2) (i : nat) : list complex :=
  map (fun r => nth i r C0) (rows vq).

(** [np.array(list_of_rows).T] for rows of one length *)
Definition np_transpose (m : list (list R)) : list (list R) :=
  match m with
  | [] => []
  | r :: _ => map (fun k => map (fun row => nth k row 0) m) (seq 0 (length r))
  end.

Definition Rsum (l : list R) : R := fold_right Rplus 0 l.
Definition Csum (l : list complex) : complex := fold_right Cadd C0 l.

(** index of the first smallest entry, continuing a scan *)
Fixpoint argmin_from (best_i : nat) (best : R) (i : nat) (l : list R) : nat :=
  match l with
  | [] => best_i
  | x :: l' =>
      if Rlt_dec x best then argmin_from i x (S i) l'
      else argmin_from best_i best (S i) l'
  end.

(** index of the first largest entry, continuing a scan *)
Fixpoint argmax_from (best_i : nat) (best : R) (i : nat) (l : list R) : nat :=
  match l with
  | [] => best_i
  | x :: l' =>
      if Rlt_dec best x then argmax_from i x (S i) l'
      else argmax_from best_i best (S i) l'
  end.

(** [np.argmin], [np.argmax], [np.max], [np.min]: [None] stands for the
    [ValueError] numpy raises on an empty array. *)
Definition np_argmin (l : list R) : option nat :=
  match l with
  | [] => None
  | x :: l' => Some (argmin_from 0 x 1 l')
  end.

Definition np_argmax (l : list R) : option nat :=
  match l with
  | [] => None
  | x :: l' => Some (argmax_from 0 x 1 l')
  end.

Definition np_max (l : list R) : option R :=
  option_map (fun i => nth i l 0) (np_argmax l).

Definition np_min (l : list R) : option R :=
  option_map (fun i => nth i l 0) (np_argmin l).

(** [np.average(a, weights=w)]: a zero sum of weights is refused *)
Definition np_average (a w : list R) : outcome R :=
  let scl := Rsum w in
  if Req_dec_T scl 0 then Raises ZeroDivisionError
  else Returns (Rsum (map (fun p => fst p * snd p) (combine a w)) / scl).

(** [np.correlate(a, v, mode='same')] for two arrays of one length [n]:
    entry [j] is the sliding product at lag [j - n/2],
    sum over [m] of [a[m + lag] * conj(v[m])]. *)
Definition correlate_at (a v : list complex) (lag : Z) : complex :=
  Csum (map (fun m =>
               let k := (Z.of_nat m + lag)%Z in
               if ((0 <=? k) && (k <? Z.of_nat (length a)))%Z
               then Cmul (nth (Z.to_nat k) a C0) (Cconj (nth m v C0))
               else C0)
            (seq 0 (length v))).

Definition np_correlate_same (a v : list complex) : outcome (list complex) :=
  match a with
  | [] => Raises ValueError
  | _ =>
      let n := length a in
      Returns (map (fun j => correlate_at a v (Z.of_nat j - Z.of_nat (n / 2)))
                   (seq 0 n))
  end.

(** [np.lib.pad(data, (0, k), 'constant', constant_values=(0, 0))] *)
Definition np_pad_right (data : list complex) (k : Z) : outcome (list complex) :=
  if (k <? 0)%Z then Raises ValueError
  else Returns (data ++ repeat C0 (Z.to_nat k)).

(** [exp(-2 pi i k m / n)] *)
Definition twiddle (k m n : nat) : complex :=
  let theta := 2 * PI * INR k * INR m / INR n in
  mkC (cos theta) (- sin theta).

(** [np.fft.fft] *)
Definition np_fft (x : list complex) : list complex :=
  let n := length x in
  map (fun k =>
         Csum (map (fun m => Cmul (nth m x C0) (twiddle k m n)) (seq 0 n)))
      (seq 0 n).

(** [results * val] of [np.fft.fftfreq]:
    [0, 1, ..., (n-1)/2, -(n/2), ..., -1] times [val] *)
Definition fftfreq_values (n : nat) (val : R) : list R :=
  map (fun k =>
         if (k <=? (n - 1) / 2)%nat then INR k * val
         else (INR k - INR n) * val)
      (seq 0 n).

(** [np.fft.fftfreq(n, d)]; its [val = 1.0/(n*d)] is a division of Python
    numbers, which raises on a zero divisor *)
Definition np_fftfreq (n : nat) (d : R) : outcome (list R) :=
  if Req_dec_T (INR n * d) 0 then Raises ZeroDivisionError
  else Returns (fftfreq_values n (1 / (INR n * d))).

(** insertion into a list that is sorted by a real key, after the entries
    whose key is not larger *)
Fixpoint insert_by {A : Type} (key : A -> R) (x : A) (l : list A) : list A :=
  match l with
  | [] => [x]
  | y :: l' =>
      if Rlt_dec (key x) (key y) then x :: y :: l'
      else y :: insert_by key x l'
  end.

(** stable sort by a real key *)
Definition sort_by {A : Type} (key : A -> R) (l : list A) : list A :=
  fold_right (insert_by key) [] l.

(** [np.argsort]: the indices of the entries in ascending order of their
    value (equal values keep their order) *)
Definition np_argsort (l : list R) : list nat :=
  map snd (sort_by fst (combine l (seq 0 (length l)))).

(** [a[idx]] for an index array *)
Definition take_indices {A : Type} (d : A) (a : list A) (idx : list nat)
  : list A :=
  map (fun i => nth i a d) idx.

(** [np.interp] at one abscissa, walking the sample points left to right *)
Fixpoint interp_walk (x x0 y0 : R) (rest : list (R * R)) : R :=
  match rest with
  | [] => y0
  | (x1, y1) :: rest' =>
      if Rlt_dec x x1 then y0 + (y1 - y0) / (x1 - x0) * (x - x0)
      else interp_walk x x1 y1 rest'
  end.

Definition interp_points (x : R) (pts : list (R * R)) : R :=
  match pts with
  | [] => 0
  | (x0, y0) :: rest => if Rle_dec x x0 then y0 else interp_walk x x0 y0 rest
  end.

(** [np.interp(x, xp, fp)]: no sample point is a [ValueError] *)
Definition np_interp (x xp fp : list R) : outcome (list R) :=
  match xp with
  | [] => Raises ValueError
  | _ => Returns (map (fun xi => interp_points xi (combine xp fp)) x)
  end.

(** sequencing of library calls that may raise *)
Definition and_then {A B : Type} (r : outcome A) (k : A -> outcome B)
  : outcome B :=
  match r with
  | Returns a => k a
  | SystemExit => SystemExit
  | Raises e => Raises e
  end.

(** a library call inside a method *)
Definition lift {A : Type} (r : outcome A) : M A := fun s => (r, s, []).

(* ================================================================== *)
(** * check_trajectory_structure *)
(* ================================================================== *)

Section TrajectoryCheck.

(** [averaged_positions(trajectory)], the average of frames drawn at
    random, and [get_correct_arangement(reference, structure)], which
    compares the averaged positions with the two index layouts: what they
    return is taken as given. *)
Variable averaged_positions : ndarray3 -> outcome (list (list complex)).
Variable get_correct_arangement :
  list (list complex) -> Structure -> outcome (option (list nat)).

(** the loop body: [trajectory[:,i,:] = original_trajectory[:, position,:]] *)
Definition move_atom (original_trajectory : ndarray3) (ip : nat * nat)
    (trajectory : ndarray3) : M ndarray3 :=
  let '(i, position) := ip in
  rows <- get_atom original_trajectory position ;;
  set_atom trajectory i rows.

(** [enumerate(l)] *)
Definition enumerate {A : Type} (l : list A) : list (nat * A) :=
  combine (seq 0 (length l)) l.

Definition check_trajectory_structure (trajectory : ndarray3)
    (structure : Structure) : M ndarray3 :=
  reference <- lift (averaged_positions trajectory) ;;
  arangement <- lift (get_correct_arangement reference structure) ;;
  match arangement with
  | Some (position :: rest) =>
      (* a list that is not empty counts as true *)
      let original_trajectory := trajectory in
      for_acc (enumerate (position :: rest)) trajectory
              (move_atom original_trajectory)
  | _ => ret trajectory
  end.

End TrajectoryCheck.

(* ================================================================== *)
(** * power_spectrum.py *)
(* ================================================================== *)

(** [u * A^2 * THz -> eV*ps] *)
Definition unit_conversion : R := 6651206285 / 10 ^ 13.

(** the attributes of [parameters] that the module reads *)
Record Parameters : Type := mkParameters {
  frequency_range : list R;
  number_of_coefficients_mem : Z;
  mem_scan_range : list Z;
  zero_padding : Z
}.

(** [progress_bar]: the clamped progress and the status text it writes
    (the rendering of the bar itself is left out) *)
Definition progress_line (progress : R) (label : string) : message :=
  let p1 := if Rlt_dec progress 0 then (0, "Halt ..."%string)
            else (progress, ""%string) in
  let p2 := if Rle_dec 1 (fst p1) then (1, "Done..."%string) else p1 in
  Progress label (fst p2) (snd p2).

Definition progress_bar (progress : R) (label : string) : M unit :=
  print (progress_line progress label).

(** [np.array(psd_vector).T * unit_conversion] *)
Definition stack_and_scale (psd_vector : list (list R)) : list (list R) :=
  map (map (fun x => x * unit_conversion)) (np_transpose psd_vector).

(** ** FFT method *)

Definition autocorrelation (x : list complex) : outcome (list complex) :=
  and_then (np_correlate_same x x)
    (fun c => Returns (map (fun z => Cdiv_real z (INR (length x))) c)).

Definition fft_power (frequency_range : list R) (data : list complex)
    (time_step : R) (zero_padding : Z) : outcome (list R) :=
  and_then (autocorrelation data) (fun data1 =>
  and_then (np_pad_right data1 zero_padding) (fun data2 =>
  let ps := map (fun z => Cabs z * time_step / 2) (np_fft data2) in
  and_then (np_fftfreq (length data2) time_step) (fun freqs =>
  let idx := np_argsort freqs in
  np_interp frequency_range (take_indices 0 freqs idx)
            (take_indices 0 ps idx)))).

Section Estimators.

(** [dynaphopy.mem.mem(frequency_range, data, time_step, coefficients=...)] *)
Variable mem : list R -> list complex -> R -> Z -> list R.

(** the 4 parameters of the Lorentzian, as [curve_fit] returns them *)
Definition fit_parameters : Type := (R * R * R * R)%type.
Definition par0 (p : fit_parameters) : R := let '(a, _, _, _) := p in a.
Definition par1 (p : fit_parameters) : R := let '(_, b, _, _) := p in b.
Definition par2 (p : fit_parameters) : R := let '(_, _, c, _) := p in c.

(** the covariance matrix that [curve_fit] returns *)
Variable covariance : Type.

(** [curve_fit(lorentzian, xdata, ydata, p0=...)]; [None] when it raises *)
Variable curve_fit :
  list R -> list R -> fit_parameters -> option (fit_parameters * covariance).

(** [dynaphopy.analysis.fitting.get_error_from_covariance] *)
Variable get_error_from_covariance : covariance -> R.

(** ** Fourier transform method *)

(** [dynaphopy.correlation.correlation_par(frequency_range, data, time_step,
    step=..., integration_method=...)] *)
Variable correlation_par : list R -> list complex -> R -> Z -> Z -> list R.

(** the two attributes of [parameters] that only this method reads *)
Record CorrelationParameters : Type := mkCorrelationParameters {
  correlation_function_step : Z;
  integration_method : Z
}.

Definition get_fourier_spectra_par_openmp (vq : ndarray2)
    (parameters : Parameters) (correlation : CorrelationParameters)
  : M (list (list R)) :=
  let test_frequency_range := frequency_range parameters in
  progress_bar 0 "Fourier" ;;
  psd_vector <-
    for_acc (seq 0 (ncols vq)) []
      (fun i psd_vector =>
         dt <- get_time_step_average ;;
         let ps := correlation_par test_frequency_range (column vq i) dt
                     (correlation_function_step correlation)
                     (integration_method correlation) in
         progress_bar (INR (i + 1) / INR (ncols vq)) "Fourier" ;;
         ret (psd_vector ++ [ps])) ;;
  ret (stack_and_scale psd_vector).

(** ** FFT method, over the columns *)

Definition get_fft_spectra (vq : ndarray2) (parameters : Parameters)
  : M (list (list R)) :=
  let test_frequency_range := frequency_range parameters in
  (if (zero_padding parameters =? 0)%Z then ret tt
   else print (Padding_with_zeros (zero_padding parameters))) ;;
  progress_bar 0 "FFT" ;;
  psd_vector <-
    for_acc (seq 0 (ncols vq)) []
      (fun i psd_vector =>
         dt <- get_time_step_average ;;
         ps <- lift (fft_power test_frequency_range (column vq i) dt
                               (zero_padding parameters)) ;;
         progress_bar (INR (i + 1) / INR (ncols vq)) "FFT" ;;
         ret (psd_vector ++ [ps])) ;;
  ret (stack_and_scale psd_vector).

(** ** FFTW *)

(** [pyfftw.interfaces.numpy_fft.fft(data, threads=cpu_count())], with the
    package installed *)
Variable pyfftw_fft : list complex -> list complex.

Definition fftw_power (frequency_range : list R) (data : list complex)
    (time_step : R) (zero_padding : Z) : outcome (list R) :=
  and_then (autocorrelation data) (fun data1 =>
  and_then (np_pad_right data1 zero_padding) (fun data2 =>
  let ps := map (fun z => Cabs z * time_step / 2) (pyfftw_fft data2) in
  and_then (np_fftfreq (length data2) time_step) (fun freqs =>
  let idx := np_argsort freqs in
  np_interp frequency_range (take_indices 0 freqs idx)
            (take_indices 0 ps idx)))).

Definition get_fft_fftw_spectra (vq : ndarray2) (parameters : Parameters)
  : M (list (list R)) :=
  let test_frequency_range := frequency_range parameters in
  (if (zero_padding parameters =? 0)%Z then ret tt
   else print (Padding_with_zeros (zero_padding parameters))) ;;
  progress_bar 0 "FFTW" ;;
  psd_vector <-
    for_acc (seq 0 (ncols vq)) []
      (fun i psd_vector =>
         dt <- get_time_step_average ;;
         ps <- lift (fftw_power test_frequency_range (column vq i) dt
                                (zero_padding parameters)) ;;
         progress_bar (INR (i + 1) / INR (ncols vq)) "FFTW" ;;
         ret (psd_vector ++ [ps])) ;;
  ret (stack_and_scale psd_vector).

(** ** Maximum entropy method *)

Definition get_mem_spectra_par_openmp (vq : ndarray2) (parameters : Parameters)
  : M (list (list R)) :=
  let test_frequency_range := frequency_range parameters in
  (if (Z.of_nat (length (rows vq)) <=? number_of_coefficients_mem parameters + 1)%Z
   then print Coefficients_should_be_smaller ;; exit
   else ret tt) ;;
  progress_bar 0 "M. Entropy" ;;
  psd_vector <-
    for_acc (seq 0 (ncols vq)) []
      (fun i psd_vector =>
         dt <- get_time_step_average ;;
         let ps := mem test_frequency_range (column vq i) dt
                       (number_of_coefficients_mem parameters) in
         progress_bar (INR (i + 1) / INR (ncols vq)) "M. Entropy" ;;
         ret (psd_vector ++ [ps])) ;;
  ret (stack_and_scale psd_vector).

(** ** Coefficient analysis for MEM *)

(** what the scan has collected for one mode: the rows of [fit_data]
    (coefficient count, width, error over maximum), [scan_params] and
    [power_spectra] *)
Record scan_state : Type := mkScan {
  fit_data : list (Z * R * R);
  scan_params : list fit_parameters;
  power_spectra : list (list R)
}.

(** [np.array(fit_data).T]: the three rows, or an array with no row when
    nothing was collected *)
Definition fit_data_T (fd : list (Z * R * R)) : list (list R) :=
  match fd with
  | [] => []
  | _ => [ map (fun r => IZR (fst (fst r))) fd;
           map (fun r => snd (fst r)) fd;
           map (fun r => snd r) fd ]
  end.

(** the value stored in [mem_full_dict[i]] *)
Record mode_entry : Type := mkEntry {
  entry_power_spectrum : list R;
  entry_best_width : R;
  entry_best_index : nat;
  entry_fit_data : list (list R);
  entry_scan_params : list fit_parameters
}.

(** one pass of the inner loop, for one candidate coefficient count *)
Definition scan_candidate (vq : ndarray2) (parameters : Parameters) (i : nat)
    (number_of_coefficients : Z) (acc : scan_state) : M scan_state :=
  let test_frequency_range := frequency_range parameters in
  dt <- get_time_step_average ;;
  let power_spectrum :=
    mem test_frequency_range (column vq i) dt number_of_coefficients in
  height <- match np_max power_spectrum with
            | Some h => ret h | None => raise ValueError end ;;
  k <- match np_argmax power_spectrum with
       | Some k => ret k | None => raise ValueError end ;;
  position <- getitem test_frequency_range k ;;
  match curve_fit test_frequency_range power_spectrum
                  (position, 1 / 10, height, 0) with
  | None =>
      print (Fitting_error_skipping number_of_coefficients) ;;
      ret acc
  | Some (fit_params, fit_covariances) =>
      let maximum := par2 fit_params / (par1 fit_params * PI) in
      let error := get_error_from_covariance fit_covariances in
      let width := 2 * par1 fit_params in
      let acc' := mkScan
                    (fit_data acc ++ [(number_of_coefficients, width, error / maximum)])
                    (scan_params acc ++ [fit_params])
                    (power_spectra acc ++ [power_spectrum]) in
      progress_bar (IZR (number_of_coefficients + 1)
                    / IZR (last (mem_scan_range parameters) 0%Z))
                   "M.E. Method" ;;
      ret acc'
  end.

(** the body of the first loop, for mode [i] *)
Definition scan_mode (vq : ndarray2) (parameters : Parameters) (i : nat)
  : M mode_entry :=
  progress_bar 0 "M.E. Method" ;;
  acc <- for_acc (mem_scan_range parameters) (mkScan [] [] [])
           (scan_candidate vq parameters i) ;;
  let fd := fit_data_T (fit_data acc) in
  widths <- getitem fd 1 ;;
  errors <- getitem fd 2 ;;
  best_width <- lift (np_average widths (map (fun e => sqrt (1 / e)) errors)) ;;
  errors' <- getitem fd 2 ;;
  best_index <- match np_argmin errors' with
                | Some k => ret k | None => raise ValueError end ;;
  power_spectrum <- getitem (power_spectra acc) best_index ;;
  ret (mkEntry power_spectrum best_width best_index fd (scan_params acc)).

(** the body of the second loop: the printed summary of mode [i] *)
Definition report_mode (i : nat) (e : mode_entry) : M unit :=
  p <- getitem (entry_scan_params e) (entry_best_index e) ;;
  counts <- getitem (entry_fit_data e) 0 ;;
  n <- getitem counts (entry_best_index e) ;;
  errors <- getitem (entry_fit_data e) 2 ;;
  err <- match np_min errors with
         | Some x => ret x | None => raise ValueError end ;;
  print (Peak_report (i + 1) (entry_best_width e) (par0 p) n err).

(** The routine prints and plots and returns nothing; the embedding
    returns [mem_full_dict] (the entries by mode index), so that the
    statements below can speak of it.  The plot windows are left out. *)
Definition mem_coefficient_scan_analysis (vq : ndarray2)
    (parameters : Parameters) : M (list mode_entry) :=
  mem_full_dict <-
    for_acc (seq 0 (ncols vq)) []
      (fun i d => e <- scan_mode vq parameters i ;; ret (d ++ [e])) ;;
  for_in (seq 0 (ncols vq))
    (fun i =>
       e <- getitem mem_full_dict i ;;
       report_mode i e) ;;
  ret mem_full_dict.

End Estimators.

(* ================================================================== *)
(** * Vocabulary of the statements *)
(* ================================================================== *)

(** ** Calls *)

(** a call that never leaves through [exit()] *)
Definition never_exits {A : Type} (m : M A) : Prop :=
  forall s, fst (fst (m s)) <> SystemExit.

(** the stored series of [s'] are those of [s] *)
Definition same_samples (s s' : Dynamics) : Prop :=
  _time s' = _time s /\ _energy s' = _energy s /\ _trajectory s' = _trajectory s.

(** a call that leaves the stored time, energy and trajectory as they are *)
Definition keeps_samples {A : Type} (m : M A) : Prop :=
  forall s, same_samples s (snd (fst (m s))).

(** ** The average time step *)

(** one term of the running sum of [get_time_step_average] *)
Definition step_term (t : list R) (i : nat) : R :=
  (nth (i + 1) t 0 - nth i t 0) / IZR (Z.of_nat (length t) - 1).

(** the value the loop of [get_time_step_average] leaves in the cache *)
Definition step_sum (t : list R) : R :=
  fold_left (fun a i => a + step_term t i)
            (range (Z.of_nat (length t) - 1)) 0.

(** The value and the state a call of [get_time_step_average] leaves when
    a time series [t] is loaded. *)
Definition time_step_value (s : Dynamics) (t : list R) : R :=
  if falsy (_time_step_average s) then step_sum t
  else match _time_step_average s with Some r => r | None => 0 end.

Definition time_step_state (s : Dynamics) (t : list R) : Dynamics :=
  if falsy (_time_step_average s)
  then with_time_step_average (Some (step_sum t)) s
  else s.

(** ** The supercell matrix *)

Definition diagonal_cell (a b c : R) : mat3 :=
  ((a, 0, 0), (0, b, 0), (0, 0, c)).

(** a cell matrix is non-degenerate when its determinant is not zero *)
Definition det3 (h : mat3) : R :=
  let '((a, b, c), (d, e, f), (g, i, j)) := h in
  a * (e * j - f * i) - b * (d * j - f * g) + c * (d * i - e * g).

Definition non_degenerate (h : mat3) : Prop := det3 h <> 0.

Definition all_positive (m : ivec3) : Prop :=
  let '(a, b, c) := m in (0 < a /\ 0 < b /\ 0 < c)%Z.

(** the range of a signed 64-bit integer *)
Definition fits_int64 (z : Z) : Prop := (- 2 ^ 63 <= z < 2 ^ 63)%Z.

(** the number of reference cells in a supercell, as a whole number without
    a range *)
Definition number_of_cells (m : ivec3) : Z :=
  let '(a, b, c) := m in (a * b * c)%Z.

(** every ratio of lattice-vector norms is above one half *)
Definition above_half (v : vec3) : Prop :=
  let '(x, y, z) := v in 1 / 2 < x /\ 1 / 2 < y /\ 1 / 2 < z.

(** The rounded vector reproduces the real one within a relative tolerance:
    the vector of deviations is no longer than [tolerance] times the real
    vector. *)
Definition reproduces_within (tolerance : R) (m : ivec3) (real : vec3) : Prop :=
  norm3 (sub_int_real m real) <= tolerance * norm3 real.

(** what [get_super_cell_matrix()] returns on an object, if it returns *)
Definition super_cell_matrix_of (s : Dynamics) : option ivec3 :=
  match _super_cell_matrix s with
  | Some m => Some m
  | None =>
      match _super_cell s with
      | Some h =>
          let real :=
            np_divide3 (parameters h) (parameters (get_cell (_structure s))) in
          let m := np_around3 real in
          if Rlt_dec default_tolerance (cell_fit_deviation m real)
          then None else Some m
      | None => None
      end
  end.

(** what [get_number_of_atoms()] returns once the supercell matrix is [sc] *)
Definition number_of_atoms_of (s : Dynamics) (sc : ivec3) : Z :=
  match _number_of_atoms s with
  | Some n => n
  | None => int64_mul (structure_number_of_atoms (_structure s)) (np_product3 sc)
  end.

(** ** Cropping *)

(** the last [k] entries of a list, all of it when it has no more *)
Definition last_samples {A : Type} (k : nat) (l : list A) : list A :=
  skipn (length l - k) l.

(** [kept] is what a crop to the last [k] samples leaves of [l]: exactly its
    last [k] entries when it has more, and everything otherwise *)
Definition crops_to {A : Type} (k : nat) (l kept : list A) : Prop :=
  ((k < length l)%nat ->
   length kept = k /\ exists dropped, l = dropped ++ kept)
  /\ ((length l <= k)%nat -> kept = l).

(** the same for a field that may be absent *)
Definition field_crops_to {A : Type} (k : nat) (old new : option (list A))
  : Prop :=
  match old, new with
  | Some l, Some kept => crops_to k l kept
  | None, None => True
  | _, _ => False
  end.

(** ... and for an array, along its first axis *)
Definition array_crops_to (k : nat) (old new : option ndarray3) : Prop :=
  match old, new with
  | Some a, Some b =>
      crops_to k (frames a) (frames b)
      /\ shape1 b = shape1 a /\ shape2 b = shape2 a
  | None, None => True
  | _, _ => False
  end.

(** the state and the output of [crop_trajectory(n)], [n >= 0], on an
    object that holds a velocity [v] *)
Definition crop_state (n : Z) (s : Dynamics) : Dynamics :=
  mkDynamics (option_map (slice_from (- n)) (_time s))
             (option_map (slice3_from (- n)) (_trajectory s))
             (option_map (slice_from (- n)) (_energy s))
             (option_map (slice3_from (- n)) (_velocity s))
             (_super_cell s) (_time_step_average s) None None
             (_super_cell_matrix s) (_number_of_atoms s)
             (_mean_displacement_matrix s) (_structure s).

Definition crop_output (n : Z) (s : Dynamics) (v : ndarray3) : list message :=
  match _trajectory s with
  | Some tr => if (Z.of_nat (shape0 tr) <? n)%Z
               then [Warning_larger_than_available] else []
  | None => []
  end
  ++ (if (Z.of_nat (shape0 v) <? n)%Z
      then [Warning_larger_than_available] else [])
  ++ [Using_steps (shape0 (slice3_from (- n) v))].

(** the object after the first half of [crop_trajectory(n)], which crops
    the trajectory, the energy and the time, and the warning it may print *)
Definition crop_samples (n : Z) (s : Dynamics) : Dynamics :=
  with_time (option_map (slice_from (- n)) (_time s))
    (with_energy (option_map (slice_from (- n)) (_energy s))
       (with_trajectory (option_map (slice3_from (- n)) (_trajectory s)) s)).

Definition trajectory_warning (n : Z) (s : Dynamics) : list message :=
  match _trajectory s with
  | Some tr => if (Z.of_nat (shape0 tr) <? n)%Z
               then [Warning_larger_than_available] else []
  | None => []
  end.

(** the second half of [crop_trajectory(n)], from the first use of the
    property [velocity] on *)
Definition crop_velocity_part (relativize_trajectory : M ndarray3) (n : Z)
  : M unit :=
  (v <- velocity relativize_trajectory ;;
   (if (Z.of_nat (shape0 v) <? n)%Z
    then print Warning_larger_than_available else ret tt) ;;
   v <- velocity relativize_trajectory ;;
   set_velocity (slice3_from (- n) v) ;;
   modify (with_velocity_mass_average None) ;;
   modify (with_relative_trajectory None) ;;
   v <- velocity relativize_trajectory ;;
   print (Using_steps (shape0 v)))%py.

(** ** Mass weighting *)

(** [a[t, i, :]] *)
Definition entry (a : ndarray3) (t i : nat) : list complex :=
  nth i (nth t (frames a) []) [].

(** the squared magnitude of a vector of complex coordinates, and the sum
    of its plain squares (the two coincide on real coordinates) *)
Definition sum_of_squared_moduli (l : list complex) : R := Rsum (map Cnorm2 l).
Definition sum_of_squares (l : list complex) : complex :=
  Csum (map (fun z => Cmul z z) l).

(** the rows [a[:, i, :]], and the buffer after one pass of the loop of
    [get_velocity_mass_average] *)
Definition atom_rows (a : ndarray3) (i : nat) : list (list complex) :=
  map (fun fr => nth i fr []) (frames a).

Definition put_atom (buf : ndarray3) (i : nat) (rws : list (list complex))
  : ndarray3 :=
  mkArr3 (map (fun p => list_set i (snd p) (fst p)) (combine (frames buf) rws))
         (shape1 buf) (shape2 buf).

Definition weigh_rows (mass : R) (rws : list (list complex))
  : list (list complex) :=
  map (map (fun z => Cscale z (sqrt mass))) rws.

Definition weighed_step (v : ndarray3) (masses : list R)
    (buf : ndarray3) (i : nat) : ndarray3 :=
  put_atom buf i (weigh_rows (nth i masses 0) (atom_rows v i)).

(** the buffer has as many frames as [v], each of [shape1 v] atoms *)
Definition same_layout (v buf : ndarray3) : Prop :=
  length (frames buf) = length (frames v)
  /\ Forall (fun fr => length fr = shape1 v) (frames buf)
  /\ shape1 buf = shape1 v.

(** ** The coefficient scan *)

(** [np.argmax] and [np.argmin] as indices, for arrays known not to be
    empty *)
Definition argmax_index (l : list R) : nat :=
  match l with
  | [] => O
  | x :: l' => argmax_from 0 x 1 l'
  end.

Definition argmin_index (l : list R) : nat :=
  match l with
  | [] => O
  | x :: l' => argmin_from 0 x 1 l'
  end.

Section ScanVocabulary.

Variable mem : list R -> list complex -> R -> Z -> list R.
Variable covariance : Type.
Variable curve_fit :
  list R -> list R -> fit_parameters -> option (fit_parameters * covariance).
Variable get_error_from_covariance : covariance -> R.

Variable vq : ndarray2.
Variable parameters : Parameters.
(** the mode (column of [vq]) and the time step of the trajectory *)
Variable i : nat.
Variable dt : R.

(** the maximum-entropy spectrum of the mode for a coefficient count *)
Definition candidate_spectrum (c : Z) : list R :=
  mem (frequency_range parameters) (column vq i) dt c.

(** the start values [p0] of the fit: the frequency of the maximum, 0.1, the
    maximum, 0 *)
Definition initial_guess (ps : list R) : fit_parameters :=
  (nth (argmax_index ps) (frequency_range parameters) 0, 1 / 10,
   nth (argmax_index ps) ps 0, 0).

(** the Lorentzian fit of the spectrum of a coefficient count *)
Definition candidate_fit (c : Z) : option (fit_parameters * covariance) :=
  curve_fit (frequency_range parameters) (candidate_spectrum c)
            (initial_guess (candidate_spectrum c)).

(** a candidate whose fit succeeded *)
Record fit_record : Type := mkFit {
  fit_count : Z;
  fit_spectrum : list R;
  fit_params : fit_parameters;
  fit_cov : covariance
}.

(** the candidates of a range whose fit succeeds, in the order of the range *)
Definition fits_of (candidates : list Z) : list fit_record :=
  flat_map (fun c =>
              match candidate_fit c with
              | Some (p, cov) => [mkFit c (candidate_spectrum c) p cov]
              | None => []
              end)
           candidates.

Definition successful_fits : list fit_record :=
  fits_of (mem_scan_range parameters).

(** twice the fitted half-width *)
Definition full_width (r : fit_record) : R := 2 * par1 (fit_params r).

(** the error read off the covariance, over area-scale / (half-width * pi) *)
Definition normalized_error (r : fit_record) : R :=
  get_error_from_covariance (fit_cov r)
  / (par2 (fit_params r) / (par1 (fit_params r) * PI)).

(** the row of [fit_data] recorded for a successful candidate *)
Definition fit_row (r : fit_record) : Z * R * R :=
  (fit_count r, full_width r, normalized_error r).

(** the weight of a candidate in the width estimate *)
Definition fit_weight (r : fit_record) : R := sqrt (1 / normalized_error r).

(** what the scan prints for each candidate: the progress line after a
    successful fit, the warning after a failed one *)
Definition scan_lines (candidates : list Z) : list message :=
  map (fun c =>
         match candidate_fit c with
         | Some _ =>
             progress_line (IZR (c + 1)
                            / IZR (last (mem_scan_range parameters) 0%Z))
                           "M.E. Method"
         | None => Fitting_error_skipping c
         end)
      candidates.

(** the scan state after the successful candidates [rs] were added *)
Definition extend_scan (acc : scan_state) (rs : list fit_record) : scan_state :=
  mkScan (fit_data acc ++ map fit_row rs)
         (scan_params acc ++ map fit_params rs)
         (power_spectra acc ++ map fit_spectrum rs).

(** the spectra are aligned with a frequency grid that is not empty *)
Definition spectra_aligned : Prop :=
  frequency_range parameters <> []
  /\ forall c, length (candidate_spectrum c) = length (frequency_range parameters).

(** the state in which the scan of a mode leaves the trajectory object whose
    time series is [t] *)
Definition state_after_scan (s : Dynamics) (t : list R) : Dynamics :=
  match mem_scan_range parameters with
  | [] => s
  | _ => time_step_state s t
  end.

(** the average of the widths weighted by [sqrt(1/error)], as [np.average]
    computes it *)
Definition weighted_width_of (rs : list fit_record) : R :=
  Rsum (map (fun p => fst p * snd p)
            (combine (map full_width rs) (map fit_weight rs)))
  / Rsum (map fit_weight rs).

End ScanVocabulary.

(** ** The FFT estimator as the specification words it

    The stages below follow the sentence of the specification on the
    FFT-autocorrelation method, one definition per stage; [fft_power] (from
    the source) is compared with their composition. *)

(** the same-length, centered autocorrelation: entry [j] is the lag
    [j - n/2] *)
Definition centered_autocorrelation (x : list complex) : list complex :=
  map (fun j => correlate_at x x (Z.of_nat j - Z.of_nat (length x / 2)))
      (seq 0 (length x)).

(** ... normalized by the length of the series *)
Definition normalized_autocorrelation (x : list complex) : list complex :=
  map (fun z => Cdiv_real z (INR (length x))) (centered_autocorrelation x).

(** zero-padding on the right by [pad] samples *)
Definition zero_padded (pad : nat) (d : list complex) : list complex :=
  d ++ repeat C0 pad.

(** the magnitude of the discrete Fourier transform, scaled by
    [time_step / 2] *)
Definition scaled_dft_magnitude (time_step : R) (d : list complex) : list R :=
  map (fun z => Cabs z * time_step / 2) (np_fft d).

(** the frequency axis of a transform of [n] samples taken every
    [time_step] *)
Definition dft_frequency_axis (n : nat) (time_step : R) : list R :=
  fftfreq_values n (1 / (INR n * time_step)).

(** the points (frequency, magnitude), in ascending order of frequency *)
Definition sorted_spectrum (freqs mags : list R) : list (R * R) :=
  sort_by fst (combine freqs mags).

(** linear interpolation of the points onto a grid *)
Definition interpolated_onto (grid : list R) (points : list (R * R)) : list R :=
  map (fun x => interp_points x points) grid.

Definition fft_power_stages (grid : list R) (x : list complex)
    (time_step : R) (pad : nat) : list R :=
  let padded := zero_padded pad (normalized_autocorrelation x) in
  interpolated_onto grid
    (sorted_spectrum (dft_frequency_axis (length padded) time_step)
                     (scaled_dft_magnitude time_step padded)).

(* ================================================================== *)
(** * Example objects *)
(* ================================================================== *)

(** a cubic reference cell of edge 1 with one atom of mass 28 *)
Definition one_atom_cell : Structure :=
  mkStructure (diagonal_cell 1 1 1) 1
              (fun sc => repeat 28 (Z.to_nat (np_product3 sc))) 3
              (fun sc => match sc with
                         | Some m => repeat 0%nat (Z.to_nat (np_product3 m))
                         | None => [0%nat]
                         end)
              1.

(** a simulation cell of 2 x 2 x 2 reference cells *)
Definition doubled_dynamics : Dynamics :=
  new_dynamics one_atom_cell None None None (Some (diagonal_cell 2 2 2)).

(** a simulation cell whose edges are 5/4, 11/4 and 1 reference edges *)
Definition skewed_dynamics : Dynamics :=
  new_dynamics one_atom_cell None None None
               (Some (diagonal_cell (5 / 4) (11 / 4) 1)).

(** a simulation cell that is a thin slab: 1/50 of a reference edge along
    the first axis, two reference edges along the others *)
Definition slab_dynamics : Dynamics :=
  new_dynamics one_atom_cell None None None
               (Some (diagonal_cell (1 / 50) 2 2)).

(** four samples, half a time unit apart *)
Definition half_step_dynamics : Dynamics :=
  new_dynamics one_atom_cell None None (Some [0; 1 / 2; 1; 3 / 2]) None.

(** a lattice-drift removal that hands back the raw trajectory *)
Definition raw_trajectory : M ndarray3 := trajectory.

(** a fresh buffer that happens to hold zeros *)
Definition zero_filled (t i j : nat) : complex := C0.

(** four frames of one atom moving along the first axis *)
Definition four_frames : ndarray3 :=
  mkArr3 [ [[RtoC 1; C0; C0]]; [[RtoC 2; C0; C0]];
           [[RtoC 3; C0; C0]]; [[RtoC 4; C0; C0]] ] 1 3.

(** an object with four samples of everything and nothing cached *)
Definition four_step_dynamics : Dynamics :=
  mkDynamics (Some [0; 1 / 2; 1; 3 / 2]) (Some four_frames)
             (Some [10; 11; 12; 13]) (Some four_frames)
             (Some (diagonal_cell 1 1 1))
             None None None None None None one_atom_cell.

(** the same object with every cache filled; the cached mean displacement
    matrix is the one of the four frames, (1 + 4 + 9 + 16) / 4 along the
    first axis *)
Definition four_step_cached : Dynamics :=
  mkDynamics (Some [0; 1 / 2; 1; 3 / 2]) (Some four_frames)
             (Some [10; 11; 12; 13]) (Some four_frames)
             (Some (diagonal_cell 1 1 1))
             (Some (1 / 2)) (Some four_frames) (Some four_frames)
             (Some (1, 1, 1)%Z) (Some 1%Z)
             (Some [diagonal_cell (15 / 2) 0 0]) one_atom_cell.

(** five samples of two modes *)
Definition five_samples : ndarray2 :=
  mkArr2 (repeat [RtoC 1; RtoC 2] 5) 2.

(** a spectrum estimator that answers a flat spectrum of height
    [time_step * coefficients] *)
Definition flat_mem (f : list R) (_ : list complex) (dt : R) (n : Z) : list R :=
  map (fun _ => dt * IZR n) f.

(** a frequency grid of two points, 3 coefficients, a scan over 2 and 3
    coefficients, no padding *)
Definition three_coefficients : Parameters :=
  mkParameters [0; 1] 3%Z [2%Z; 3%Z] 0%Z.

(** a fitter that never converges; the covariance is [tt] *)
Definition never_converges (x y : list R) (p0 : fit_parameters)
  : option (fit_parameters * unit) := None.

Definition unit_error (c : unit) : R := 1.

(* ================================================================== *)
(** * Further vocabulary *)
(* ================================================================== *)

(** ** The average time step *)

(** the span of a time series over the number of its intervals *)
Definition span_over_intervals (t : list R) : R :=
  (last t 0 - hd 0 t) / INR (length t - 1).

(** ** The supercell matrix *)

(** the cell whose lattice vectors (the columns) are those of [h], the
    [k]-th one repeated [n_k] times *)
(** every entry is below a bound *)
Definition entries_below (bound : Z) (n : ivec3) : Prop :=
  let '(n0, n1, n2) := n in (n0 < bound /\ n1 < bound /\ n2 < bound)%Z.

Definition scale_columns (n : ivec3) (h : mat3) : mat3 :=
  let '(n0, n1, n2) := n in
  let '((a, b, c), (d, e, f), (g, i, j)) := h in
  ((IZR n0 * a, IZR n1 * b, IZR n2 * c),
   (IZR n0 * d, IZR n1 * e, IZR n2 * f),
   (IZR n0 * g, IZR n1 * i, IZR n2 * j)).

(** ** Invariants of calls *)

(** a call that keeps a property of the object, however it ends *)
Definition preserves {A : Type} (P : Dynamics -> Prop) (m : M A) : Prop :=
  forall s, P s -> P (snd (fst (m s))).

(** a call that leaves a cached supercell matrix where it is *)
Definition keeps_cached_cells {A : Type} (m : M A) : Prop :=
  forall sc, preserves (fun s => _super_cell_matrix s = Some sc) m.

(** the object holds a velocity and a relative trajectory *)
Definition holds_velocity (s : Dynamics) : Prop :=
  (exists r, _relative_trajectory s = Some r)
  /\ exists b, _velocity s = Some b.

(** the object holds a velocity and a buffer of mass-weighted velocities *)
Definition holds_mass_weighted_buffer (s : Dynamics) : Prop :=
  (exists v, _velocity s = Some v)
  /\ exists buf, _velocity_mass_average s = Some buf.

(** ** The derived velocity *)

(** [a[:, i, j]] and [a[t, i, j]] *)
Definition coord_series (a : ndarray3) (i j : nat) : list complex :=
  map (fun fr => nth j (nth i fr []) C0) (frames a).

Definition coord (a : ndarray3) (t i j : nat) : complex :=
  nth j (nth i (nth t (frames a) []) []) C0.

(** the values of [np.gradient(f, h)] for a series [f] of at least two
    samples: one-sided differences at the two ends, central differences
    inside *)
Definition gradient_values (f : list complex) (h : R) : list complex :=
  let n := length f in
  let at_ k := nth k f C0 in
  let diff a b := Cadd a (Cscale b (-1)) in
  map (fun k =>
         if (k =? 0)%nat then Cdiv_real (diff (at_ 1%nat) (at_ 0%nat)) h
         else if (k =? n - 1)%nat
              then Cdiv_real (diff (at_ (n - 1)%nat) (at_ (n - 2)%nat)) h
              else Cdiv_real (diff (at_ (k + 1)%nat) (at_ (k - 1)%nat))
                             (2 * h))
      (seq 0 n).

(** the buffer after [buf[:, i, j] = vals] *)
Definition put_coord (buf : ndarray3) (i j : nat) (vals : list complex)
  : ndarray3 :=
  mkArr3 (map (fun p => list_set i (list_set j (snd p) (nth i (fst p) []))
                                 (fst p))
              (combine (frames buf) vals))
         (shape1 buf) (shape2 buf).

(** a rectangular buffer of the shape of [r] *)
Definition shaped_like (r buf : ndarray3) : Prop :=
  shape1 buf = shape1 r /\ shape2 buf = shape2 r
  /\ length (frames buf) = length (frames r)
  /\ Forall (fun fr => length fr = shape1 r
                       /\ Forall (fun a => length a = shape2 r) fr)
            (frames buf).

(** the object while the property [velocity] fills its buffer [buf] from
    the relative trajectory [r], with the time series [t] of average step
    [dt] and the structure [st] *)
Definition deriving (r : ndarray3) (t : list R) (dt : R) (st : Structure)
    (buf : ndarray3) (s : Dynamics) : Prop :=
  _relative_trajectory s = Some r
  /\ _time s = Some t
  /\ time_step_value s t = dt
  /\ _structure s = st
  /\ _velocity s = Some buf.

(** one pass of the inner loop of the property [velocity], on the buffer *)
Definition gradient_step (r : ndarray3) (dt : R) (buf : ndarray3) (i j : nat)
  : ndarray3 :=
  put_coord buf i j (gradient_values (coord_series r i j) dt).

(** ** The mean displacement matrix *)

Definition symmetric (m : mat3) : Prop :=
  let '((_, b, c), (d, _, f), (g, h, _)) := m in b = d /\ c = g /\ f = h.

(** ** Further example objects *)

(** one sample of time, nothing else *)
Definition single_sample_dynamics : Dynamics :=
  new_dynamics one_atom_cell None None (Some [5]) None.

(** a simulation cell that is 13/10 of a reference edge long along the
    first axis *)
Definition stretched_dynamics : Dynamics :=
  new_dynamics one_atom_cell None None None
               (Some (diagonal_cell (13 / 10) 1 1)).

(** one frame of one atom, two samples of time, no velocity *)
Definition one_frame : ndarray3 := mkArr3 [ [[RtoC 1; C0; C0]] ] 1 3.

Definition one_frame_dynamics : Dynamics :=
  mkDynamics (Some [0; 1 / 2]) (Some one_frame) None None
             (Some (diagonal_cell 1 1 1))
             None None None None None None one_atom_cell.

(** four frames and four samples of time, no velocity *)
Definition four_step_without_velocity : Dynamics :=
  with_velocity None four_step_dynamics.

Definition three_real_samples : list complex := [RtoC 1; RtoC 2; RtoC 3].


(** one frame of two atoms, and an arrangement that swaps them *)
Definition two_atom_frame : ndarray3 :=
  mkArr3 [ [[RtoC 1; C0; C0]; [RtoC 2; C0; C0]] ] 2 3.

Definition swapped_arangement : list nat := [1%nat; 0%nat].

(** ** The coefficient scan, mode by mode *)

Section ScanSummary.

Variable mem : list R -> list complex -> R -> Z -> list R.
Variable covariance : Type.
Variable curve_fit :
  list R -> list R -> fit_parameters -> option (fit_parameters * covariance).
Variable get_error_from_covariance : covariance -> R.

Variable vq : ndarray2.
Variable parameters : Parameters.
(** the time step of the trajectory *)
Variable dt : R.

(** the index of the recorded candidate that [np.argmin] picks for mode [i] *)
Definition best_index_of (i : nat) : nat :=
  argmin_index
    (map (normalized_error covariance get_error_from_covariance)
         (successful_fits mem covariance curve_fit vq parameters i dt)).

(** the value that the first loop stores in [mem_full_dict[i]] *)
Definition mode_summary (i : nat) : mode_entry :=
  let rs := successful_fits mem covariance curve_fit vq parameters i dt in
  mkEntry (nth (best_index_of i) (map (@fit_spectrum _) rs) [])
          (weighted_width_of covariance get_error_from_covariance rs)
          (best_index_of i)
          [map (fun r => IZR (fit_count _ r)) rs;
           map (full_width covariance) rs;
           map (normalized_error covariance get_error_from_covariance) rs]
          (map (@fit_params _) rs).

(** what the first loop prints while it scans mode [i] *)
Definition mode_scan_lines (i : nat) : list message :=
  progress_line 0 "M.E. Method"
  :: scan_lines mem covariance curve_fit vq parameters i dt
       (mem_scan_range parameters).

(** the summary that the second loop prints for mode [i] *)
Definition mode_report (i : nat) : list message :=
  let rs := successful_fits mem covariance curve_fit vq parameters i dt in
  match nth_error rs (best_index_of i) with
  | Some best =>
      [Peak_report (i + 1)
         (weighted_width_of covariance get_error_from_covariance rs)
         (par0 (fit_params _ best)) (IZR (fit_count _ best))
         (normalized_error covariance get_error_from_covariance best)]
  | None => []
  end.

(** a mode whose scan can be summarised: its spectra are aligned with the
    frequency grid, at least one candidate was fitted, and the normalized
    errors recorded are positive (so that [sqrt(1/error)] is a number) *)
Definition mode_fitted (i : nat) : Prop :=
  spectra_aligned mem vq parameters i dt
  /\ successful_fits mem covariance curve_fit vq parameters i dt <> []
  /\ forall r,
       In r (successful_fits mem covariance curve_fit vq parameters i dt) ->
       0 < normalized_error covariance get_error_from_covariance r.

End ScanSummary.

(** five samples of two modes, the second without any signal *)
Definition silent_second_mode : ndarray2 :=
  mkArr2 (repeat [RtoC 1; C0] 5) 2.

(** a spectrum estimator that answers a flat spectrum at the level of the
    first sample times the coefficient count *)
Definition level_mem (f : list R) (data : list complex) (dt : R) (n : Z)
  : list R :=
  map (fun _ => Re (hd C0 data) * IZR n) f.

(** a fitter that finds a Lorentzian of the height it was started with,
    and does not converge on a spectrum without a peak *)
Definition peak_fit (x y : list R) (p0 : fit_parameters)
  : option (fit_parameters * unit) :=
  if Rlt_dec 0 (par2 p0) then Some ((1, 1 / 10, par2 p0, 0), tt) else None.

(* ================================================================== *)
(** * Running a method *)
(* ================================================================== *)

Lemma bind_returns {A B : Type} (m : M A) (k : A -> M B) s a s1 o1 :
  m s = (Returns a, s1, o1) ->
  bind m k s = (let '(r, s2, o2) := k a s1 in (r, s2, o1 ++ o2)).
Proof. intros H. unfold bind. rewrite H. reflexivity. Qed.

Lemma bind_exit {A B : Type} (m : M A) (k : A -> M B) s s1 o1 :
  m s = (SystemExit, s1, o1) -> bind m k s = (SystemExit, s1, o1).
Proof. intros H. unfold bind. rewrite H. reflexivity. Qed.

Lemma bind_raises {A B : Type} (m : M A) (k : A -> M B) s e s1 o1 :
  m s = (Raises e, s1, o1) -> bind m k s = (Raises e, s1, o1).
Proof. intros H. unfold bind. rewrite H. reflexivity. Qed.

(** a step that returns without printing *)
Lemma bind_quiet {A B : Type} (m : M A) (k : A -> M B) s a s1 :
  m s = (Returns a, s1, []) -> bind m k s = k a s1.
Proof.
  intros H. rewrite (bind_returns _ _ _ _ _ _ H).
  destruct (k a s1) as [[r s2] o2]. reflexivity.
Qed.

Lemma getitem_in_range {A : Type} (l : list A) (i : nat) (d : A) s :
  (i < length l)%nat -> getitem l i s = (Returns (nth i l d), s, []).
Proof.
  intros H. unfold getitem. rewrite (nth_error_nth' l d H). reflexivity.
Qed.

Lemma getitem_out_of_range {A : Type} (l : list A) (i : nat) s :
  (length l <= i)%nat -> getitem l i s = (Raises IndexError, s, []).
Proof.
  intros H. unfold getitem.
  rewrite (proj2 (nth_error_None l i) H). reflexivity.
Qed.

(** the setters only touch their own field *)
Lemma with_time_step_average_twice a b s :
  with_time_step_average a (with_time_step_average b s)
  = with_time_step_average a s.
Proof. reflexivity. Qed.

Lemma with_time_step_average_same s :
  with_time_step_average (_time_step_average s) s = s.
Proof. destruct s; reflexivity. Qed.

(* ================================================================== *)
(** * get_time_step_average *)
(* ================================================================== *)

Lemma time_item_run s t i :
  _time s = Some t -> (i < length t)%nat ->
  time_item i s = (Returns (nth i t 0), s, []).
Proof.
  intros Ht Hi. unfold time_item, get_time.
  unfold bind, get_self, ret. cbn. rewrite Ht.
  rewrite (getitem_in_range t i 0 s Hi). reflexivity.
Qed.

Lemma len_time_run s t :
  _time s = Some t -> len_time s = (Returns (Z.of_nat (length t)), s, []).
Proof.
  intros Ht. unfold len_time, get_time, bind, get_self, ret. cbn.
  rewrite Ht. reflexivity.
Qed.

Lemma len_time_none s :
  _time s = None -> len_time s = (Raises TypeError, s, []).
Proof.
  intros Ht. unfold len_time, get_time, bind, get_self, ret. cbn.
  rewrite Ht. reflexivity.
Qed.

Lemma add_time_step_run s t acc i :
  _time s = Some t ->
  _time_step_average s = Some acc ->
  (i + 1 < length t)%nat ->
  add_time_step i s
  = (Returns tt, with_time_step_average (Some (acc + step_term t i)) s, []).
Proof.
  intros Ht Hc Hi. unfold add_time_step.
  rewrite (bind_quiet _ _ _ _ _ (time_item_run s t (i + 1) Ht Hi)).
  rewrite (bind_quiet _ _ _ _ _ (time_item_run s t i Ht ltac:(lia))).
  rewrite (bind_quiet _ _ _ _ _ (len_time_run s t Ht)).
  unfold modify. rewrite Hc. reflexivity.
Qed.

Lemma time_step_loop (l : list nat) :
  forall (s : Dynamics) (t : list R) (acc : R),
    _time s = Some t ->
    _time_step_average s = Some acc ->
    (forall i, In i l -> (i + 1 < length t)%nat) ->
    for_in l add_time_step s
    = (Returns tt,
       with_time_step_average
         (Some (fold_left (fun a i => a + step_term t i) l acc)) s, []).
Proof.
  induction l as [|i l IH]; intros s t acc Ht Hc Hin.
  - cbn. rewrite <- Hc, with_time_step_average_same. reflexivity.
  - cbn [for_in fold_left].
    assert (Hi : (i + 1 < length t)%nat) by (apply Hin; left; reflexivity).
    rewrite (bind_quiet _ _ _ _ _ (add_time_step_run s t acc i Ht Hc Hi)).
    rewrite (IH _ t (acc + step_term t i)); try reflexivity.
    + exact Ht.
    + intros j Hj. apply Hin. right. exact Hj.
Qed.

(** Nothing usable is cached: the loop runs over the whole series. *)
Lemma get_time_step_average_fresh s t :
  _time s = Some t ->
  falsy (_time_step_average s) = true ->
  get_time_step_average s
  = (Returns (step_sum t), with_time_step_average (Some (step_sum t)) s, []).
Proof.
  intros Ht Hf. unfold get_time_step_average.
  unfold bind at 1. unfold get_self at 1. rewrite Hf.
  set (s0 := with_time_step_average (Some 0) s).
  assert (H0 : (modify (with_time_step_average (Some 0)) ;;
                n <- len_time ;; for_in (range (n - 1)) add_time_step) s
               = (Returns tt, with_time_step_average (Some (step_sum t)) s, [])).
  { unfold bind at 1. unfold modify at 1. fold s0.
    rewrite (bind_quiet _ _ _ _ _ (len_time_run s0 t Ht)).
    rewrite (time_step_loop _ s0 t 0 Ht eq_refl).
    - reflexivity.
    - intros i Hi. unfold range in Hi. apply in_seq in Hi. lia. }
  rewrite (bind_quiet _ _ _ _ _ H0).
  reflexivity.
Qed.

(** No time series: [len(None)] raises. *)
Lemma get_time_step_average_no_time s :
  _time s = None ->
  falsy (_time_step_average s) = true ->
  get_time_step_average s
  = (Raises TypeError, with_time_step_average (Some 0) s, []).
Proof.
  intros Ht Hf. unfold get_time_step_average.
  unfold bind at 1. unfold get_self at 1. rewrite Hf.
  assert (H0 : (modify (with_time_step_average (Some 0)) ;;
                n <- len_time ;; for_in (range (n - 1)) add_time_step) s
               = (Raises TypeError, with_time_step_average (Some 0) s, [])).
  { unfold bind at 1. unfold modify at 1.
    rewrite (bind_raises _ _ _ _ _ _
               (len_time_none (with_time_step_average (Some 0) s) Ht)).
    reflexivity. }
  rewrite (bind_raises _ _ _ _ _ _ H0). reflexivity.
Qed.

(** A non-zero cached value is returned as it is. *)
Lemma get_time_step_average_cached s r :
  _time_step_average s = Some r -> r <> 0 ->
  get_time_step_average s = (Returns r, s, []).
Proof.
  intros Hc Hr. unfold get_time_step_average.
  unfold bind, get_self, ret. cbn. rewrite Hc. cbn.
  destruct (Req_dec_T r 0) as [E|_]; [contradiction|]. cbn.
  rewrite Hc. reflexivity.
Qed.

(** The sum of [k] equal terms. *)
Lemma fold_left_constant_terms (f : nat -> R) (c : R) (l : list nat) :
  (forall i, In i l -> f i = c) ->
  forall acc, fold_left (fun a i => a + f i) l acc = acc + INR (length l) * c.
Proof.
  induction l as [|i l IH]; intros Hc acc.
  - cbn. lra.
  - cbn [fold_left length]. rewrite IH by (intros j Hj; apply Hc; right; exact Hj).
    rewrite (Hc i (or_introl eq_refl)). rewrite S_INR. lra.
Qed.

Lemma step_sum_uniform (t : list R) (delta : R) :
  (2 <= length t)%nat ->
  (forall i, (i + 1 < length t)%nat -> nth (i + 1) t 0 - nth i t 0 = delta) ->
  step_sum t = delta.
Proof.
  intros Hn Hu. unfold step_sum.
  rewrite (fold_left_constant_terms _ (delta / IZR (Z.of_nat (length t) - 1))).
  - unfold range. rewrite length_seq.
    replace (Z.to_nat (Z.of_nat (length t) - 1)) with (length t - 1)%nat by lia.
    rewrite minus_IZR, <- INR_IZR_INZ, minus_INR by lia.
    cbn [INR]. assert (2 <= INR (length t)) by (apply (le_INR 2); exact Hn).
    field. lra.
  - intros i Hi. unfold range in Hi. apply in_seq in Hi.
    unfold step_term. rewrite Hu by lia. reflexivity.
Qed.

Lemma get_time_step_average_run s t :
  _time s = Some t ->
  get_time_step_average s
  = (Returns (time_step_value s t), time_step_state s t, []).
Proof.
  intros Ht. unfold time_step_value, time_step_state.
  destruct (falsy (_time_step_average s)) eqn:Hf.
  - apply get_time_step_average_fresh; assumption.
  - unfold falsy in Hf. destruct (_time_step_average s) as [r|] eqn:Hc;
      [|discriminate].
    destruct (Req_dec_T r 0); [discriminate|].
    apply get_time_step_average_cached; assumption.
Qed.

Lemma time_step_state_time s t : _time (time_step_state s t) = _time s.
Proof. unfold time_step_state. destruct (falsy _); reflexivity. Qed.

(** A second call finds the same value and changes nothing more. *)
Lemma time_step_state_stable s t :
  time_step_state (time_step_state s t) t = time_step_state s t /\
  time_step_value (time_step_state s t) t = time_step_value s t.
Proof.
  unfold time_step_state, time_step_value.
  destruct (falsy (_time_step_average s)) eqn:Hf.
  - cbn. destruct (Req_dec_T (step_sum t) 0); split; reflexivity.
  - rewrite Hf. split; reflexivity.
Qed.

(* ================================================================== *)
(** * Calls that never leave through exit() *)
(* ================================================================== *)

Lemma never_exits_ret {A : Type} (a : A) : never_exits (ret a).
Proof. intros s. cbn. discriminate. Qed.

Lemma never_exits_get_self : never_exits get_self.
Proof. intros s. cbn. discriminate. Qed.

Lemma never_exits_modify f : never_exits (modify f).
Proof. intros s. cbn. discriminate. Qed.

Lemma never_exits_print m : never_exits (print m).
Proof. intros s. cbn. discriminate. Qed.

Lemma never_exits_raise {A : Type} e : never_exits (@raise A e).
Proof. intros s. cbn. discriminate. Qed.

Lemma never_exits_bind {A B : Type} (m : M A) (k : A -> M B) :
  never_exits m -> (forall a, never_exits (k a)) -> never_exits (bind m k).
Proof.
  intros Hm Hk s. unfold bind. specialize (Hm s).
  destruct (m s) as [[[a| |e] s1] o1]; cbn in *; try congruence.
  specialize (Hk a s1). destruct (k a s1) as [[r s2] o2]. exact Hk.
Qed.

Lemma never_exits_getitem {A : Type} (l : list A) i : never_exits (getitem l i).
Proof.
  unfold getitem. destruct (nth_error l i);
    [apply never_exits_ret|apply never_exits_raise].
Qed.

Lemma never_exits_for_in {A : Type} (l : list A) (body : A -> M unit) :
  (forall x, never_exits (body x)) -> never_exits (for_in l body).
Proof.
  intros Hb. induction l as [|x l IH]; cbn [for_in].
  - apply never_exits_ret.
  - apply never_exits_bind; [apply Hb|intros _; exact IH].
Qed.

Lemma never_exits_for_acc {A B : Type} (l : list A) (body : A -> B -> M B) :
  (forall x acc, never_exits (body x acc)) ->
  forall acc, never_exits (for_acc l acc body).
Proof.
  intros Hb. induction l as [|x l IH]; intros acc; cbn [for_acc].
  - apply never_exits_ret.
  - apply never_exits_bind; [apply Hb|intros acc'; apply IH].
Qed.

Ltac never_exits :=
  repeat match goal with
    | |- never_exits (ret _) => apply never_exits_ret
    | |- never_exits get_self => apply never_exits_get_self
    | |- never_exits (modify _) => apply never_exits_modify
    | |- never_exits (print _) => apply never_exits_print
    | |- never_exits (raise _) => apply never_exits_raise
    | |- never_exits (getitem _ _) => apply never_exits_getitem
    | |- never_exits (bind _ _) => apply never_exits_bind; [|intros ?]
    | |- never_exits (for_in _ _) => apply never_exits_for_in; intros ?
    | |- never_exits (match ?x with _ => _ end) => destruct x
    end.

Lemma never_exits_len_time : never_exits len_time.
Proof. unfold len_time, get_time. never_exits. Qed.

Lemma never_exits_time_item i : never_exits (time_item i).
Proof. unfold time_item, get_time. never_exits. Qed.

Lemma never_exits_get_time_step_average : never_exits get_time_step_average.
Proof.
  unfold get_time_step_average, add_time_step, len_time, time_item, get_time.
  never_exits.
Qed.

(* ================================================================== *)
(** * get_mem_spectra_par_openmp *)
(* ================================================================== *)

Section MaximumEntropy.

Variable mem : list R -> list complex -> R -> Z -> list R.

(** the loop body of [get_mem_spectra_par_openmp] *)
Let mem_body (vq : ndarray2) (parameters : Parameters) :=
  fun (i : nat) (psd_vector : list (list R)) =>
    dt <- get_time_step_average ;;
    let ps := mem (frequency_range parameters) (column vq i) dt
                  (number_of_coefficients_mem parameters) in
    progress_bar (INR (i + 1) / INR (ncols vq)) "M. Entropy" ;;
    ret (psd_vector ++ [ps]).

Lemma mem_loop vq parameters (t : list R) (l : list nat) :
  forall (s : Dynamics) (acc : list (list R)),
    _time s = Some t ->
    for_acc l acc (mem_body vq parameters) s
    = (Returns (acc ++ map (fun i => mem (frequency_range parameters)
                                         (column vq i) (time_step_value s t)
                                         (number_of_coefficients_mem parameters))
                           l),
       match l with [] => s | _ => time_step_state s t end,
       map (fun i => progress_line (INR (i + 1) / INR (ncols vq)) "M. Entropy")
           l).
Proof.
  induction l as [|i l IH]; intros s acc Ht.
  - cbn. rewrite app_nil_r. reflexivity.
  - cbn [for_acc map].
    assert (Hb : mem_body vq parameters i acc s
                 = (Returns (acc ++ [mem (frequency_range parameters)
                                         (column vq i) (time_step_value s t)
                                         (number_of_coefficients_mem parameters)]),
                    time_step_state s t,
                    [progress_line (INR (i + 1) / INR (ncols vq)) "M. Entropy"])).
    { unfold mem_body.
      rewrite (bind_quiet _ _ _ _ _ (get_time_step_average_run s t Ht)).
      reflexivity. }
    rewrite (bind_returns _ _ _ _ _ _ Hb).
    rewrite (IH (time_step_state s t)) by (rewrite time_step_state_time; exact Ht).
    destruct (time_step_state_stable s t) as [Hs Hv]. rewrite Hs, Hv.
    rewrite <- app_assoc. cbn [app].
    destruct l; reflexivity.
Qed.

(** past the test of the coefficient count nothing calls [exit()] *)
Lemma mem_spectra_loop_never_exits vq parameters :
  never_exits
    (progress_bar 0 "M. Entropy" ;;
     psd_vector <- for_acc (seq 0 (ncols vq)) [] (mem_body vq parameters) ;;
     ret (stack_and_scale psd_vector)).
Proof.
  apply never_exits_bind; [apply never_exits_print|intros _].
  apply never_exits_bind; [|intros ?; apply never_exits_ret].
  apply never_exits_for_acc. intros i acc. unfold mem_body.
  apply never_exits_bind; [apply never_exits_get_time_step_average|intros dt].
  apply never_exits_bind; [apply never_exits_print|intros _].
  apply never_exits_ret.
Qed.

(** C7. The maximum-entropy entry point leaves through [exit()] exactly
    when the configured number of coefficients is not strictly less than
    the number of time samples minus one, and then it has printed its
    diagnostic and nothing else (no spectrum was started); otherwise, a
    time series being loaded, it returns the spectra of all the columns of
    [vq], one per column, stacked, transposed and scaled. *)
Theorem mem_entry_point_coefficient_check
    (vq : ndarray2) (parameters : Parameters) (s : Dynamics) :
  let n := number_of_coefficients_mem parameters in
  let samples := Z.of_nat (length (rows vq)) in
  let run := get_mem_spectra_par_openmp mem vq parameters s in
  (fst (fst run) = SystemExit <-> ~ (n < samples - 1)%Z)
  /\ (~ (n < samples - 1)%Z ->
      run = (SystemExit, s, [Coefficients_should_be_smaller]))
  /\ ((n < samples - 1)%Z ->
      forall t, _time s = Some t ->
      run
      = (Returns
           (stack_and_scale
              (map (fun i => mem (frequency_range parameters) (column vq i)
                                 (time_step_value s t) n)
                   (seq 0 (ncols vq)))),
         match ncols vq with O => s | _ => time_step_state s t end,
         progress_line 0 "M. Entropy"
         :: map (fun i => progress_line (INR (i + 1) / INR (ncols vq))
                                        "M. Entropy")
                (seq 0 (ncols vq)))).
Proof.
  intros n samples run.
  assert (Habort : ~ (n < samples - 1)%Z ->
                   run = (SystemExit, s, [Coefficients_should_be_smaller])).
  { intros Hge. unfold run, get_mem_spectra_par_openmp.
    fold n. fold samples.
    destruct (samples <=? n + 1)%Z eqn:E; [|apply Z.leb_gt in E; lia].
    reflexivity. }
  assert (Hpast : (n < samples - 1)%Z ->
                  run = (progress_bar 0 "M. Entropy" ;;
                         psd_vector <- for_acc (seq 0 (ncols vq)) []
                                         (mem_body vq parameters) ;;
                         ret (stack_and_scale psd_vector)) s).
  { intros Hlt. unfold run, get_mem_spectra_par_openmp.
    fold n. fold samples.
    destruct (samples <=? n + 1)%Z eqn:E; [apply Z.leb_le in E; lia|].
    rewrite (bind_quiet _ _ s tt s eq_refl). reflexivity. }
  split; [split|split].
  - intros Hexit Hlt. rewrite (Hpast Hlt) in Hexit.
    exact (mem_spectra_loop_never_exits vq parameters s Hexit).
  - intros Hge. rewrite (Habort Hge). reflexivity.
  - exact Habort.
  - intros Hlt t Ht. rewrite (Hpast Hlt).
    unfold progress_bar at 1.
    rewrite (bind_returns _ _ s tt s [progress_line 0 "M. Entropy"] eq_refl).
    rewrite (bind_returns _ _ _ _ _ _ (mem_loop vq parameters t _ s [] Ht)).
    cbn [app ret]. rewrite app_nil_r.
    destruct (ncols vq); reflexivity.
Qed.

End MaximumEntropy.

(* ================================================================== *)
(** * get_super_cell_matrix and get_number_of_atoms *)
(* ================================================================== *)

Lemma np_around_near (x : R) (n : Z) :
  IZR n - 1 / 2 < x < IZR n + 1 / 2 -> np_around x = n.
Proof.
  intros [Hlo Hhi]. unfold np_around.
  destruct (Rle_dec (IZR n) x) as [Hge|Hlt].
  - assert (E : n = Int_part x).
    { apply Int_part_spec. lra. }
    rewrite <- E.
    destruct (Rlt_dec (x - IZR n) (1 / 2)) as [_|Hn]; [reflexivity|lra].
  - assert (E : (n - 1)%Z = Int_part x).
    { apply Int_part_spec. rewrite minus_IZR. lra. }
    rewrite <- E. rewrite minus_IZR.
    destruct (Rlt_dec (x - (IZR n - 1)) (1 / 2)) as [Hn|_]; [lra|].
    destruct (Rlt_dec (1 / 2) (x - (IZR n - 1))) as [_|Hn]; [lia|lra].
Qed.

(** an exact tie goes to the even neighbour *)
Lemma np_around_tie (n : Z) :
  np_around (IZR n + 1 / 2) = if Z.even n then n else (n + 1)%Z.
Proof.
  unfold np_around.
  assert (E : n = Int_part (IZR n + 1 / 2)).
  { apply Int_part_spec. lra. }
  rewrite <- E.
  destruct (Rlt_dec (IZR n + 1 / 2 - IZR n) (1 / 2)) as [H|_]; [lra|].
  destruct (Rlt_dec (1 / 2) (IZR n + 1 / 2 - IZR n)) as [H|_]; [lra|].
  reflexivity.
Qed.

(** the rounded value is never further than one half from the argument *)
Lemma np_around_error (x : R) : Rabs (IZR (np_around x) - x) <= 1 / 2.
Proof.
  unfold np_around.
  destruct (base_Int_part x) as [Hlo Hhi].
  destruct (Rlt_dec (x - IZR (Int_part x)) (1 / 2)) as [H1|H1].
  - apply Rabs_le. lra.
  - destruct (Rlt_dec (1 / 2) (x - IZR (Int_part x))) as [H2|H2].
    + rewrite plus_IZR. apply Rabs_le. lra.
    + destruct (Z.even (Int_part x)).
      * apply Rabs_le. lra.
      * rewrite plus_IZR. apply Rabs_le. lra.
Qed.

Lemma np_around_above_half (x : R) : 1 / 2 < x -> (1 <= np_around x)%Z.
Proof.
  intros Hx. unfold np_around.
  destruct (base_Int_part x) as [Hlo Hhi].
  assert (H0 : (0 <= Int_part x)%Z).
  { apply le_IZR. apply Rnot_lt_le. intros Hneg.
    assert (IZR (Int_part x) <= -1).
    { apply IZR_le. apply lt_IZR in Hneg. lia. }
    lra. }
  destruct (Z.eq_dec (Int_part x) 0) as [E|NE].
  - rewrite E. cbn [IZR].
    destruct (Rlt_dec (x - 0) (1 / 2)) as [H|_]; [lra|].
    destruct (Rlt_dec (1 / 2) (x - 0)) as [_|H]; [lia|lra].
  - destruct (Rlt_dec _ _); [lia|].
    destruct (Rlt_dec _ _); [lia|].
    destruct (Z.even _); lia.
Qed.

Lemma norm3_nonneg (v : vec3) : 0 <= norm3 v.
Proof. destruct v as [[x y] z]. apply sqrt_pos. Qed.

(** the norm of a vector along the first, second or third axis *)
Lemma norm3_axis0 (x : R) : 0 <= x -> norm3 (x, 0, 0) = x.
Proof.
  intros H. unfold norm3.
  replace (x * x + 0 * 0 + 0 * 0) with (x * x) by ring.
  apply sqrt_square. exact H.
Qed.

Lemma norm3_axis1 (x : R) : 0 <= x -> norm3 (0, x, 0) = x.
Proof.
  intros H. unfold norm3.
  replace (0 * 0 + x * x + 0 * 0) with (x * x) by ring.
  apply sqrt_square. exact H.
Qed.

Lemma norm3_axis2 (x : R) : 0 <= x -> norm3 (0, 0, x) = x.
Proof.
  intros H. unfold norm3.
  replace (0 * 0 + 0 * 0 + x * x) with (x * x) by ring.
  apply sqrt_square. exact H.
Qed.

(** a diagonal cell has its diagonal as lattice-vector norms *)
Lemma parameters_diagonal (a b c : R) :
  0 <= a -> 0 <= b -> 0 <= c ->
  parameters ((a, 0, 0), (0, b, 0), (0, 0, c)) = (a, b, c).
Proof.
  intros Ha Hb Hc. unfold parameters. cbn [col0 col1 col2].
  rewrite norm3_axis0, norm3_axis1, norm3_axis2 by assumption. reflexivity.
Qed.

(** The first call of [get_super_cell_matrix]: nothing cached, a simulation
    cell loaded. *)
Lemma get_super_cell_matrix_first_call (tolerance : R) (s : Dynamics) (h : mat3) :
  _super_cell_matrix s = None ->
  _super_cell s = Some h ->
  let real := np_divide3 (parameters h) (parameters (get_cell (_structure s))) in
  let m := np_around3 real in
  get_super_cell_matrix tolerance s
  = if Rlt_dec tolerance (cell_fit_deviation m real)
    then (SystemExit, with_super_cell_matrix (Some m) s,
          [Printed_real (cell_fit_deviation m real);
           Warning_cells_do_not_fit;
           Cell_size_relation_not_integer real])
    else (Returns m, with_super_cell_matrix (Some m) s,
          [MD_cell_size_relation m]).
Proof.
  intros Hc Hs real m. unfold get_super_cell_matrix.
  unfold bind at 1. unfold get_self at 1. rewrite Hc.
  rewrite (bind_quiet get_super_cell _ s (Some h) s)
    by (unfold get_super_cell, bind, get_self, ret; cbn; rewrite Hs; reflexivity).
  rewrite (bind_quiet structure _ s (_structure s) s) by reflexivity.
  fold real. fold m.
  unfold bind at 1. unfold modify at 1.
  destruct (Rlt_dec tolerance (cell_fit_deviation m real)); reflexivity.
Qed.

(** A cached matrix is returned without any test. *)
Lemma get_super_cell_matrix_cached (tolerance : R) (s : Dynamics) (m : ivec3) :
  _super_cell_matrix s = Some m ->
  get_super_cell_matrix tolerance s = (Returns m, s, []).
Proof.
  intros Hc. unfold get_super_cell_matrix.
  unfold bind, get_self, ret. cbn. rewrite Hc. reflexivity.
Qed.

(** The first call of [get_number_of_atoms] when the cell test passes. *)
Lemma get_number_of_atoms_first_call (s : Dynamics) (h : mat3) :
  _number_of_atoms s = None ->
  _super_cell_matrix s = None ->
  _super_cell s = Some h ->
  let real := np_divide3 (parameters h) (parameters (get_cell (_structure s))) in
  let m := np_around3 real in
  ~ default_tolerance < cell_fit_deviation m real ->
  get_number_of_atoms s
  = (Returns (int64_mul (structure_number_of_atoms (_structure s))
                        (np_product3 m)),
     with_number_of_atoms
       (Some (int64_mul (structure_number_of_atoms (_structure s))
                        (np_product3 m)))
       (with_super_cell_matrix (Some m) s),
     [MD_cell_size_relation m]).
Proof.
  intros Hn Hc Hs real m Hfit. unfold get_number_of_atoms.
  unfold bind at 1. unfold get_self at 1. rewrite Hn.
  unfold bind at 1. unfold structure, bind at 1, get_self at 1, ret at 1.
  assert (Hrun := get_super_cell_matrix_first_call default_tolerance s h Hc Hs).
  cbv zeta in Hrun. fold real in Hrun. fold m in Hrun.
  destruct (Rlt_dec default_tolerance (cell_fit_deviation m real)) as [H|_];
    [contradiction|].
  cbn [app].
  rewrite (bind_returns _ _ _ _ _ _ Hrun).
  reflexivity.
Qed.

Lemma halts_iff_signed_sum_exceeds (tolerance : R) (s : Dynamics) (h : mat3) :
  _super_cell_matrix s = None ->
  _super_cell s = Some h ->
  let real := np_divide3 (parameters h) (parameters (get_cell (_structure s))) in
  fst (fst (get_super_cell_matrix tolerance s)) = SystemExit
  <-> tolerance < cell_fit_deviation (np_around3 real) real.
Proof.
  intros Hc Hs real.
  rewrite (get_super_cell_matrix_first_call tolerance s h Hc Hs).
  fold real.
  destruct (Rlt_dec tolerance (cell_fit_deviation (np_around3 real) real));
    cbn; split; intros H; try assumption; try reflexivity;
    try discriminate; contradiction.
Qed.

Lemma ratio_to_unit_cell (a b c : R) :
  0 <= a -> 0 <= b -> 0 <= c ->
  np_divide3 (parameters (diagonal_cell a b c)) (parameters (diagonal_cell 1 1 1))
  = (a, b, c).
Proof.
  intros Ha Hb Hc. unfold diagonal_cell.
  rewrite !parameters_diagonal by lra.
  unfold np_divide3. f_equal; [f_equal|]; field.
Qed.

Lemma sqrt_at_least (x y : R) : 0 <= y -> y * y <= x -> y <= sqrt x.
Proof.
  intros Hy Hx. rewrite <- (sqrt_square y Hy).
  apply sqrt_le_1_alt. exact Hx.
Qed.

Lemma sqrt_at_most (x y : R) : 0 <= y -> x <= y * y -> sqrt x <= y.
Proof.
  intros Hy Hx. rewrite <- (sqrt_square y Hy).
  apply sqrt_le_1_alt. exact Hx.
Qed.

(** C1. A simulation cell of 5/4 x 11/4 x 1 reference cells: the ratio is
    rounded to (1, 3, 1), the deviations -1/4 and +1/4 cancel in the sum
    that is compared with the tolerance, and the call returns (and caches)
    the rounded vector although that vector does not reproduce the ratio
    within the relative tolerance 0.01. *)
Theorem super_cell_check_misses_cancelling_deviations :
  let real := (5 / 4, 11 / 4, 1) in
  np_divide3 (parameters (diagonal_cell (5 / 4) (11 / 4) 1))
             (parameters (get_cell (_structure skewed_dynamics))) = real
  /\ cell_fit_deviation (1, 3, 1)%Z real = 0
  /\ get_super_cell_matrix default_tolerance skewed_dynamics
     = (Returns (1, 3, 1)%Z,
        with_super_cell_matrix (Some (1, 3, 1)%Z) skewed_dynamics,
        [MD_cell_size_relation (1, 3, 1)%Z])
  /\ ~ reproduces_within default_tolerance (1, 3, 1)%Z real.
Proof.
  intros real.
  assert (Hreal : np_divide3 (parameters (diagonal_cell (5 / 4) (11 / 4) 1))
                    (parameters (get_cell (_structure skewed_dynamics))) = real).
  { apply ratio_to_unit_cell; lra. }
  assert (Hm : np_around3 real = (1, 3, 1)%Z).
  { unfold real, np_around3.
    rewrite (np_around_near (5 / 4) 1), (np_around_near (11 / 4) 3),
      (np_around_near 1 1) by lra.
    reflexivity. }
  assert (Hdev : cell_fit_deviation (1, 3, 1)%Z real = 0).
  { unfold cell_fit_deviation, real. cbn [sub_int_real py_sum3].
    replace (0 + (1 - 5 / 4) + (3 - 11 / 4) + (1 - 1)) with 0 by lra.
    unfold Rdiv. rewrite Rmult_0_l. apply Rabs_R0. }
  split; [exact Hreal|]. split; [exact Hdev|]. split.
  - rewrite (get_super_cell_matrix_first_call default_tolerance skewed_dynamics
               (diagonal_cell (5 / 4) (11 / 4) 1) eq_refl eq_refl).
    rewrite Hreal, Hm, Hdev.
    destruct (Rlt_dec default_tolerance 0) as [H|_];
      [unfold default_tolerance in H; lra|reflexivity].
  - unfold reproduces_within, default_tolerance, real.
    cbn [sub_int_real]. intros H.
    assert (H1 : 1 / 4 <= norm3 (1 - 5 / 4, 3 - 11 / 4, 1 - 1)).
    { unfold norm3. apply sqrt_at_least; lra. }
    assert (H2 : norm3 (5 / 4, 11 / 4, 1) <= 4).
    { unfold norm3. apply sqrt_at_most; lra. }
    lra.
Qed.


Lemma wrap_int64_fits (z : Z) : fits_int64 z -> wrap_int64 z = z.
Proof.
  unfold fits_int64, wrap_int64. intros Hz.
  rewrite Z.mod_small by lia. lia.
Qed.

(** the product of positive entries, when it fits 64 bits, is what
    [np.product] returns *)
Lemma np_product3_fits (m : ivec3) :
  all_positive m -> fits_int64 (number_of_cells m) ->
  np_product3 m = number_of_cells m.
Proof.
  destruct m as [[a b] c]. unfold all_positive, number_of_cells, np_product3,
    int64_mul, fits_int64.
  intros (Ha & Hb & Hc) Hfit.
  assert (Hab : (0 < a * b)%Z) by (apply Z.mul_pos_pos; assumption).
  assert (Hle : (a * b <= a * b * c)%Z) by nia.
  rewrite (wrap_int64_fits (a * b)) by (unfold fits_int64; lia).
  apply wrap_int64_fits. unfold fits_int64. lia.
Qed.

(** beyond 64 bits the product wraps around: 2^21 cells along each lattice
    vector *)
Lemma np_product3_wraps :
  np_product3 (2 ^ 21, 2 ^ 21, 2 ^ 21)%Z = (- 2 ^ 63)%Z.
Proof. reflexivity. Qed.


(** C10. On a uniformly spaced time series of at least two samples, with
    nothing cached yet, [get_time_step_average] returns the common step,
    whatever the length of the series, and caches it. *)
Theorem time_step_average_of_uniform_series
    (s : Dynamics) (t : list R) (delta : R) :
  _time s = Some t ->
  falsy (_time_step_average s) = true ->
  (2 <= length t)%nat ->
  (forall i, (i + 1 < length t)%nat -> nth (i + 1) t 0 - nth i t 0 = delta) ->
  get_time_step_average s
  = (Returns delta, with_time_step_average (Some delta) s, []).
Proof.
  intros Ht Hf Hn Hu.
  rewrite (get_time_step_average_fresh s t Ht Hf).
  rewrite (step_sum_uniform t delta Hn Hu). reflexivity.
Qed.

(** The series [t0, t0 + delta, ..., t0 + (n-1) delta] is uniformly spaced. *)
Lemma arithmetic_series_uniform (t0 delta : R) (n : nat) :
  let t := map (fun k => t0 + INR k * delta) (seq 0 n) in
  length t = n /\
  forall i, (i + 1 < length t)%nat -> nth (i + 1) t 0 - nth i t 0 = delta.
Proof.
  intros t. unfold t. rewrite length_map, length_seq. split; [reflexivity|].
  intros i Hi.
  rewrite !(nth_indep _ 0 (t0 + INR 0 * delta))
    by (rewrite length_map, length_seq; lia).
  rewrite !(map_nth (fun k => t0 + INR k * delta)).
  rewrite !seq_nth by lia. cbn [Nat.add].
  rewrite plus_INR. cbn [INR]. ring.
Qed.


(* ================================================================== *)
(** * What a call keeps *)
(* ================================================================== *)

Lemma preserves_ret {A : Type} P (a : A) : preserves P (ret a).
Proof. intros s H. exact H. Qed.

Lemma preserves_get_self P : preserves P get_self.
Proof. intros s H. exact H. Qed.

Lemma preserves_print P m : preserves P (print m).
Proof. intros s H. exact H. Qed.

Lemma preserves_raise {A : Type} P e : preserves P (@raise A e).
Proof. intros s H. exact H. Qed.

Lemma preserves_exit {A : Type} P : preserves P (@exit A).
Proof. intros s H. exact H. Qed.

Lemma preserves_lift {A : Type} P (r : outcome A) : preserves P (lift r).
Proof. intros s H. exact H. Qed.

Lemma preserves_modify P f :
  (forall s, P s -> P (f s)) -> preserves P (modify f).
Proof. intros H s. apply H. Qed.

Lemma preserves_bind {A B : Type} P (m : M A) (k : A -> M B) :
  preserves P m -> (forall a, preserves P (k a)) -> preserves P (bind m k).
Proof.
  intros Hm Hk s HP. unfold bind. specialize (Hm s HP).
  destruct (m s) as [[[a| |e] s1] o1]; cbn in *; try exact Hm.
  specialize (Hk a s1 Hm). destruct (k a s1) as [[r s2] o2]. exact Hk.
Qed.

Lemma preserves_getitem {A : Type} P (l : list A) i : preserves P (getitem l i).
Proof.
  unfold getitem. destruct (nth_error l i);
    [apply preserves_ret|apply preserves_raise].
Qed.

Lemma preserves_for_in {A : Type} P (l : list A) (body : A -> M unit) :
  (forall x, preserves P (body x)) -> preserves P (for_in l body).
Proof.
  intros Hb. induction l as [|x l IH]; cbn [for_in].
  - apply preserves_ret.
  - apply preserves_bind; [apply Hb|intros _; exact IH].
Qed.

Lemma preserves_for_acc {A B : Type} P (l : list A) (body : A -> B -> M B) :
  (forall x acc, preserves P (body x acc)) ->
  forall acc, preserves P (for_acc l acc body).
Proof.
  intros Hb. induction l as [|x l IH]; intros acc; cbn [for_acc].
  - apply preserves_ret.
  - apply preserves_bind; [apply Hb|intros acc'; apply IH].
Qed.

Ltac preserves :=
  repeat match goal with
    | |- preserves _ (ret _) => apply preserves_ret
    | |- preserves _ get_self => apply preserves_get_self
    | |- preserves _ (print _) => apply preserves_print
    | |- preserves _ (raise _) => apply preserves_raise
    | |- preserves _ exit => apply preserves_exit
    | |- preserves _ (lift _) => apply preserves_lift
    | |- preserves _ (getitem _ _) => apply preserves_getitem
    | |- preserves _ (modify _) => apply preserves_modify; intros ? ?
    | |- preserves _ (bind _ _) => apply preserves_bind; [|intros ?]
    | |- preserves _ (for_in _ _) => apply preserves_for_in; intros ?
    | |- preserves _ (match ?x with _ => _ end) => destruct x
    end.

(** the calls that touch neither the velocity, nor the relative
    trajectory, nor the buffer of mass-weighted velocities, nor the
    structure *)
Lemma preserves_get_time_step_average P :
  (forall x s, P s -> P (with_time_step_average x s)) ->
  preserves P get_time_step_average.
Proof.
  intros HP.
  unfold get_time_step_average, add_time_step, len_time, time_item, get_time.
  preserves; try (apply HP; assumption); assumption.
Qed.

Lemma preserves_get_super_cell_matrix P tolerance :
  (forall x s, P s -> P (with_super_cell_matrix x s)) ->
  preserves P (get_super_cell_matrix tolerance).
Proof.
  intros HP. unfold get_super_cell_matrix, get_super_cell, structure.
  preserves; try (apply HP; assumption); assumption.
Qed.

Lemma preserves_get_number_of_atoms P :
  (forall x s, P s -> P (with_super_cell_matrix x s)) ->
  (forall x s, P s -> P (with_number_of_atoms x s)) ->
  preserves P get_number_of_atoms.
Proof.
  intros HP1 HP2. unfold get_number_of_atoms, structure. preserves.
  - apply preserves_get_super_cell_matrix. exact HP1.
  - apply HP2. assumption.
Qed.


(* ================================================================== *)
(** * Calls that leave the stored series alone *)
(* ================================================================== *)

Lemma same_samples_refl s : same_samples s s.
Proof. repeat split. Qed.

Lemma same_samples_trans s1 s2 s3 :
  same_samples s1 s2 -> same_samples s2 s3 -> same_samples s1 s3.
Proof.
  intros (A1 & A2 & A3) (B1 & B2 & B3). repeat split; congruence.
Qed.

Lemma keeps_samples_ret {A : Type} (a : A) : keeps_samples (ret a).
Proof. intros s. apply same_samples_refl. Qed.

Lemma keeps_samples_get_self : keeps_samples get_self.
Proof. intros s. apply same_samples_refl. Qed.

Lemma keeps_samples_print m : keeps_samples (print m).
Proof. intros s. apply same_samples_refl. Qed.

Lemma keeps_samples_raise {A : Type} e : keeps_samples (@raise A e).
Proof. intros s. apply same_samples_refl. Qed.

Lemma keeps_samples_exit {A : Type} : keeps_samples (@exit A).
Proof. intros s. apply same_samples_refl. Qed.

Lemma keeps_samples_modify f :
  (forall s, same_samples s (f s)) -> keeps_samples (modify f).
Proof. intros H s. apply H. Qed.

Lemma keeps_samples_bind {A B : Type} (m : M A) (k : A -> M B) :
  keeps_samples m -> (forall a, keeps_samples (k a)) -> keeps_samples (bind m k).
Proof.
  intros Hm Hk s. unfold bind. specialize (Hm s).
  destruct (m s) as [[[a| |e] s1] o1]; cbn in *; try exact Hm.
  specialize (Hk a s1). destruct (k a s1) as [[r s2] o2]. cbn in *.
  eapply same_samples_trans; eassumption.
Qed.

Lemma keeps_samples_getitem {A : Type} (l : list A) i :
  keeps_samples (getitem l i).
Proof.
  unfold getitem. destruct (nth_error l i);
    [apply keeps_samples_ret|apply keeps_samples_raise].
Qed.

Lemma keeps_samples_for_in {A : Type} (l : list A) (body : A -> M unit) :
  (forall x, keeps_samples (body x)) -> keeps_samples (for_in l body).
Proof.
  intros Hb. induction l as [|x l IH]; cbn [for_in].
  - apply keeps_samples_ret.
  - apply keeps_samples_bind; [apply Hb|intros _; exact IH].
Qed.

Ltac keeps_samples :=
  repeat match goal with
    | |- keeps_samples (ret _) => apply keeps_samples_ret
    | |- keeps_samples get_self => apply keeps_samples_get_self
    | |- keeps_samples (print _) => apply keeps_samples_print
    | |- keeps_samples (raise _) => apply keeps_samples_raise
    | |- keeps_samples exit => apply keeps_samples_exit
    | |- keeps_samples (getitem _ _) => apply keeps_samples_getitem
    | |- keeps_samples (modify _) =>
        apply keeps_samples_modify; intros ?; repeat split
    | |- keeps_samples (bind _ _) => apply keeps_samples_bind; [|intros ?]
    | |- keeps_samples (for_in _ _) => apply keeps_samples_for_in; intros ?
    | |- keeps_samples (match ?x with _ => _ end) => destruct x
    end.

Lemma keeps_samples_get_time_step_average : keeps_samples get_time_step_average.
Proof.
  unfold get_time_step_average, add_time_step, len_time, time_item, get_time.
  keeps_samples.
Qed.

Lemma keeps_samples_get_super_cell_matrix tolerance :
  keeps_samples (get_super_cell_matrix tolerance).
Proof.
  unfold get_super_cell_matrix, get_super_cell, structure. keeps_samples.
Qed.

Lemma keeps_samples_get_number_of_atoms : keeps_samples get_number_of_atoms.
Proof.
  unfold get_number_of_atoms, structure. keeps_samples.
  apply keeps_samples_get_super_cell_matrix.
Qed.

(* ================================================================== *)
(** * crop_trajectory *)
(* ================================================================== *)

Lemma slice_from_last {A : Type} (n : Z) (l : list A) :
  (0 < n)%Z -> slice_from (- n) l = last_samples (Z.to_nat n) l.
Proof.
  intros Hn. unfold slice_from, last_samples.
  destruct (- n <? 0)%Z eqn:E; [|apply Z.ltb_ge in E; lia].
  f_equal. lia.
Qed.

(** [l[-0:]] is [l[0:]]: the whole list *)
Lemma slice_from_zero {A : Type} (l : list A) : slice_from (- 0) l = l.
Proof.
  unfold slice_from. cbn [Z.opp Z.ltb Z.compare].
  replace (Z.to_nat (Z.min 0 (Z.of_nat (length l)))) with 0%nat by lia.
  reflexivity.
Qed.

Lemma last_samples_crops {A : Type} (k : nat) (l : list A) :
  crops_to k l (last_samples k l).
Proof.
  unfold crops_to, last_samples. split.
  - intros Hk. split.
    + rewrite length_skipn. lia.
    + exists (firstn (length l - k) l). symmetry. apply firstn_skipn.
  - intros Hk. replace (length l - k)%nat with 0%nat by lia. reflexivity.
Qed.

Lemma bind_returns_inv {A B : Type} (m : M A) (k : A -> M B) s b s' o :
  bind m k s = (Returns b, s', o) ->
  exists a s1 o1 o2,
    m s = (Returns a, s1, o1) /\ k a s1 = (Returns b, s', o2) /\ o = o1 ++ o2.
Proof.
  unfold bind. destruct (m s) as [[[a| |e] s1] o1]; try discriminate.
  destruct (k a s1) as [[r s2] o2] eqn:E. intros H. inversion H; subst.
  exists a, s1, o1, o2. split; [reflexivity|]. split; [exact E|reflexivity].
Qed.

Section Crop.

Variable relativize_trajectory : M ndarray3.

Lemma velocity_present (s : Dynamics) (v : ndarray3) :
  _velocity s = Some v -> velocity relativize_trajectory s = (Returns v, s, []).
Proof.
  intros Hv. unfold velocity, bind, get_self. rewrite Hv. reflexivity.
Qed.

Lemma velocity_buffer_inv (s s1 : Dynamics) (v : ndarray3) o :
  velocity_buffer s = (Returns v, s1, o) -> s1 = s /\ _velocity s = Some v.
Proof.
  unfold velocity_buffer, bind, get_self. cbn.
  destruct (_velocity s) as [v0|]; cbn; intros H; inversion H; subst.
  split; reflexivity.
Qed.

(** what the property [velocity] returns is what the object then holds *)
Lemma velocity_returns_stored (s s1 : Dynamics) (v : ndarray3) o :
  velocity relativize_trajectory s = (Returns v, s1, o) ->
  _velocity s1 = Some v.
Proof.
  unfold velocity. intros H.
  apply bind_returns_inv in H. destruct H as (s0 & sa & ? & ? & Hg & H & _).
  inversion Hg; subst s0 sa.
  destruct (_velocity s) as [v0|] eqn:Hv.
  - inversion H; subst. exact Hv.
  - do 5 (apply bind_returns_inv in H;
          destruct H as (? & ? & ? & ? & _ & H & _)).
    apply velocity_buffer_inv in H. destruct H as [-> H]. exact H.
Qed.

Lemma crop_trajectory_split (n : Z) (s : Dynamics) :
  (0 <= n)%Z ->
  crop_trajectory relativize_trajectory (Some n) s
  = (let '(r, s2, o2) :=
       crop_velocity_part relativize_trajectory n (crop_samples n s) in
     (r, s2, trajectory_warning n s ++ o2)).
Proof.
  intros Hn. unfold crop_trajectory, crop_samples, trajectory_warning.
  destruct (n <? 0)%Z eqn:E; [apply Z.ltb_lt in E; lia|].
  fold (crop_velocity_part relativize_trajectory n).
  generalize (crop_velocity_part relativize_trajectory n). intros K.
  destruct s as [ti tr en ve sc tsa vma rel scm na mdm st].
  unfold bind, get_self, modify, print, ret. cbn.
  destruct tr as [tr|]; destruct en as [en|]; destruct ti as [ti|]; cbn;
    try destruct (Z.of_nat (shape0 tr) <? n)%Z;
    unfold with_time, with_energy, with_trajectory; cbn;
    match goal with |- context [K ?x] => destruct (K x) as [[[a| |e] s2] o2] end;
    cbn; rewrite ?app_nil_r; reflexivity.
Qed.

Lemma crop_trajectory_run (n : Z) (s : Dynamics) (v : ndarray3) :
  _velocity s = Some v -> (0 <= n)%Z ->
  crop_trajectory relativize_trajectory (Some n) s
  = (Returns tt, crop_state n s, crop_output n s v).
Proof.
  intros Hv Hn. unfold crop_trajectory, crop_state, crop_output.
  destruct (n <? 0)%Z eqn:E; [apply Z.ltb_lt in E; lia|].
  destruct s as [ti tr en ve sc tsa vma rel scm na mdm st].
  cbn in Hv. subst ve.
  unfold velocity, set_velocity, bind, get_self, modify, print, ret.
  cbn.
  destruct tr as [tr|]; destruct en as [en|]; destruct ti as [ti|]; cbn;
    repeat match goal with
           | |- context [(?a <? ?b)%Z] => destruct (a <? b)%Z eqn:?; cbn
           end;
    reflexivity.
Qed.

Lemma keeps_samples_get_relative_trajectory :
  keeps_samples relativize_trajectory ->
  keeps_samples (get_relative_trajectory relativize_trajectory).
Proof.
  intros Hrel. unfold get_relative_trajectory. keeps_samples. exact Hrel.
Qed.

Lemma keeps_samples_velocity :
  keeps_samples relativize_trajectory ->
  keeps_samples (velocity relativize_trajectory).
Proof.
  intros Hrel. unfold velocity, structure, differentiate, get_coord, set_coord,
    np_gradient, velocity_buffer.
  keeps_samples;
    first [ apply keeps_samples_get_relative_trajectory; exact Hrel
          | apply keeps_samples_get_number_of_atoms
          | apply keeps_samples_get_time_step_average ].
Qed.

Lemma keeps_samples_crop_velocity_part :
  keeps_samples relativize_trajectory ->
  forall n, keeps_samples (crop_velocity_part relativize_trajectory n).
Proof.
  intros Hrel n. unfold crop_velocity_part, set_velocity.
  keeps_samples; apply keeps_samples_velocity; exact Hrel.
Qed.

(** C2, amended.  A call with no step count or a negative one changes
    nothing and prints nothing.  A call with a positive step count [n]
    that returns has kept, of each of time, energy, trajectory and velocity
    that was present, exactly the last [n] samples when there were more
    than [n], and everything otherwise.  On an object that holds a velocity
    the call does return, and it prints the warning when [n] exceeds the
    number of velocity samples or of trajectory samples. *)
Theorem crop_keeps_last_steps (s : Dynamics) :
  keeps_samples relativize_trajectory ->
  crop_trajectory relativize_trajectory None s = (Returns tt, s, [])
  /\ (forall n, (n < 0)%Z ->
        crop_trajectory relativize_trajectory (Some n) s = (Returns tt, s, []))
  /\ (forall n s' out,
        (0 < n)%Z ->
        crop_trajectory relativize_trajectory (Some n) s = (Returns tt, s', out) ->
        field_crops_to (Z.to_nat n) (_time s) (_time s')
        /\ field_crops_to (Z.to_nat n) (_energy s) (_energy s')
        /\ array_crops_to (Z.to_nat n) (_trajectory s) (_trajectory s')
        /\ (forall v, _velocity s = Some v ->
                      array_crops_to (Z.to_nat n) (Some v) (_velocity s')))
  /\ (forall n v,
        (0 < n)%Z -> _velocity s = Some v ->
        exists s' out,
          crop_trajectory relativize_trajectory (Some n) s = (Returns tt, s', out)
          /\ ((shape0 v < Z.to_nat n)%nat ->
              In Warning_larger_than_available out)
          /\ (forall tr, _trajectory s = Some tr ->
                         (shape0 tr < Z.to_nat n)%nat ->
                         In Warning_larger_than_available out)).
Proof.
  intros Hrel. split; [reflexivity|]. split; [|split].
  - intros n Hn. unfold crop_trajectory.
    destruct (n <? 0)%Z eqn:E; [reflexivity|apply Z.ltb_ge in E; lia].
  - intros n s' out Hn Hrun.
    assert (Hsame : same_samples (crop_samples n s) s').
    { rewrite crop_trajectory_split in Hrun by lia.
      pose proof (keeps_samples_crop_velocity_part Hrel n (crop_samples n s))
        as Hk.
      destruct (crop_velocity_part relativize_trajectory n (crop_samples n s))
        as [[r s2] o2].
      inversion Hrun; subst. exact Hk. }
    destruct Hsame as (Ht & He & Htr).
    rewrite Ht, He, Htr. unfold crop_samples. cbn [_time _energy _trajectory].
    repeat split.
    + destruct (_time s) as [l|]; cbn; [|exact I].
      rewrite slice_from_last by exact Hn. apply last_samples_crops.
    + destruct (_energy s) as [l|]; cbn; [|exact I].
      rewrite slice_from_last by exact Hn. apply last_samples_crops.
    + destruct (_trajectory s) as [a|]; cbn; [|exact I].
      rewrite slice_from_last by exact Hn.
      split; [apply last_samples_crops|split; reflexivity].
    + intros v Hv.
      rewrite (crop_trajectory_run n s v Hv ltac:(lia)) in Hrun.
      inversion Hrun; subst s' out. cbn. rewrite Hv. cbn.
      rewrite slice_from_last by exact Hn.
      split; [apply last_samples_crops|split; reflexivity].
  - intros n v Hn Hv. exists (crop_state n s), (crop_output n s v).
    split; [apply crop_trajectory_run; [exact Hv|lia]|].
    unfold crop_output. split.
    + intros Hlt. apply in_or_app. right. apply in_or_app. left.
      destruct (Z.of_nat (shape0 v) <? n)%Z eqn:E;
        [left; reflexivity|apply Z.ltb_ge in E; lia].
    + intros tr Htr Hlt. apply in_or_app. left. rewrite Htr.
      destruct (Z.of_nat (shape0 tr) <? n)%Z eqn:E;
        [left; reflexivity|apply Z.ltb_ge in E; lia].
Qed.

(** ** What the crop leaves of a cached supercell matrix *)

Lemma keeps_cached_cells_get_super_cell_matrix (tolerance : R) :
  keeps_cached_cells (get_super_cell_matrix tolerance).
Proof.
  intros sc s Hsc.
  rewrite (get_super_cell_matrix_cached tolerance s sc Hsc). exact Hsc.
Qed.

Lemma keeps_cached_cells_get_number_of_atoms :
  keeps_cached_cells get_number_of_atoms.
Proof.
  intros sc. unfold get_number_of_atoms, structure. preserves.
  - apply keeps_cached_cells_get_super_cell_matrix.
  - assumption.
Qed.

Lemma keeps_cached_cells_get_relative_trajectory :
  keeps_cached_cells relativize_trajectory ->
  keeps_cached_cells (get_relative_trajectory relativize_trajectory).
Proof.
  intros Hrel sc. unfold get_relative_trajectory. preserves.
  - apply Hrel.
  - assumption.
Qed.

Lemma keeps_cached_cells_velocity :
  keeps_cached_cells relativize_trajectory ->
  keeps_cached_cells (velocity relativize_trajectory).
Proof.
  intros Hrel sc.
  unfold velocity, structure, differentiate, get_coord, set_coord,
    np_gradient, velocity_buffer.
  preserves;
    first [ apply keeps_cached_cells_get_relative_trajectory; exact Hrel
          | apply keeps_cached_cells_get_number_of_atoms
          | apply preserves_get_time_step_average; intros ? ? H0; exact H0
          | assumption ].
Qed.

Lemma keeps_cached_cells_crop_trajectory (last_steps : option Z) :
  keeps_cached_cells relativize_trajectory ->
  keeps_cached_cells (crop_trajectory relativize_trajectory last_steps).
Proof.
  intros Hrel sc. unfold crop_trajectory, set_velocity.
  preserves;
    first [ apply keeps_cached_cells_velocity; exact Hrel | assumption ].
Qed.

(** C3, amended.  A call of [crop_trajectory] that passes its guard and
    returns leaves the cached mass-weighted velocity and the cached
    relative trajectory empty, so that the next [get_relative_trajectory]
    runs the lattice-drift removal again on the cropped object.  A
    supercell matrix that was cached before the call is still cached, the
    same, after it, whether the velocity was loaded or had to be derived
    (the lattice-drift removal, which is not part of the module, is taken
    not to touch that cache).  When a velocity is loaded, the outcome of
    the call does not depend on what the two caches held before, and the
    cache of the supercell matrix, filled or empty, is left as it was. *)
Theorem crop_invalidates_velocity_derived_caches
    (n : Z) (s s' : Dynamics) (out : list message) :
  (0 <= n)%Z ->
  crop_trajectory relativize_trajectory (Some n) s = (Returns tt, s', out) ->
  _velocity_mass_average s' = None
  /\ _relative_trajectory s' = None
  /\ get_relative_trajectory relativize_trajectory s'
     = (r <- relativize_trajectory ;;
        modify (with_relative_trajectory (Some r)) ;; ret r) s'
  /\ (keeps_cached_cells relativize_trajectory ->
      forall sc, _super_cell_matrix s = Some sc ->
                 _super_cell_matrix s' = Some sc)
  /\ (forall v, _velocity s = Some v ->
        (forall c1 c2,
            crop_trajectory relativize_trajectory (Some n)
              (with_velocity_mass_average c1 (with_relative_trajectory c2 s))
            = (Returns tt, s', out))
        /\ _velocity s' = Some (slice3_from (- n) v)
        /\ _super_cell_matrix s' = _super_cell_matrix s).
Proof.
  intros Hn Hrun.
  assert (Hcaches : _velocity_mass_average s' = None
                    /\ _relative_trajectory s' = None).
  { unfold crop_trajectory in Hrun.
    destruct (n <? 0)%Z eqn:E; [apply Z.ltb_lt in E; lia|].
    do 9 (apply bind_returns_inv in Hrun;
          destruct Hrun as (? & ? & ? & ? & _ & Hrun & _)).
    apply bind_returns_inv in Hrun.
    destruct Hrun as (? & sa & ? & ? & Hset & Hrun & _).
    unfold set_velocity, modify in Hset. inversion Hset; subst sa.
    unfold bind, modify, velocity, get_self, print, ret in Hrun.
    cbn in Hrun. inversion Hrun; subst s'. split; reflexivity. }
  destruct Hcaches as [Hvma Hrel].
  split; [exact Hvma|]. split; [exact Hrel|]. split; [|split].
  - unfold get_relative_trajectory.
    rewrite (bind_quiet get_self _ s' s' s' eq_refl).
    rewrite Hrel. reflexivity.
  - intros Hext sc Hsc.
    pose proof (keeps_cached_cells_crop_trajectory (Some n) Hext sc s Hsc)
      as Hkept.
    rewrite Hrun in Hkept. exact Hkept.
  - intros v Hv.
    rewrite (crop_trajectory_run n s v Hv Hn) in Hrun.
    inversion Hrun; subst s' out. split; [|split].
    + intros c1 c2.
      rewrite (crop_trajectory_run n _ v) by (exact Hv || exact Hn).
      reflexivity.
    + cbn. rewrite Hv. reflexivity.
    + reflexivity.
Qed.

End Crop.

(** C2, the claim as stated fails for a step count of zero: Python reads
    [x[-0:]] as the whole of [x], so a crop to the last 0 steps of four
    keeps all four. *)
Lemma crop_to_zero_steps_keeps_everything :
  crop_trajectory raw_trajectory (Some 0%Z) four_step_dynamics
  = (Returns tt, four_step_dynamics, [Using_steps 4])
  /\ ~ field_crops_to 0 (Some [0; 1 / 2; 1; 3 / 2]) (_time four_step_dynamics).
Proof.
  split.
  - rewrite (crop_trajectory_run raw_trajectory 0 four_step_dynamics four_frames
               eq_refl ltac:(lia)).
    reflexivity.
  - cbn. unfold crops_to. cbn [length]. intros [H _].
    destruct (H ltac:(lia)) as [Hlen _]. discriminate.
Qed.

(** C3, the claim as stated fails: a crop that truncates four samples to
    two empties the caches of the mass-weighted velocity and of the
    relative trajectory, but the cached supercell matrix and the cached
    mean-displacement matrix are still there afterwards, and
    [get_super_cell_matrix] and [get_mean_displacement_matrix] answer from
    their caches (the latter with the matrix of the four samples). *)
Lemma crop_leaves_two_caches_filled :
  exists s' out,
    crop_trajectory raw_trajectory (Some 2%Z) four_step_cached
    = (Returns tt, s', out)
    /\ option_map shape0 (_trajectory s') = Some 2%nat
    /\ _velocity_mass_average s' = None
    /\ _relative_trajectory s' = None
    /\ _super_cell_matrix s' = Some (1, 1, 1)%Z
    /\ _mean_displacement_matrix s' = Some [diagonal_cell (15 / 2) 0 0]
    /\ get_super_cell_matrix default_tolerance s' = (Returns (1, 1, 1)%Z, s', [])
    /\ get_mean_displacement_matrix raw_trajectory s'
       = (Returns [diagonal_cell (15 / 2) 0 0], s', []).
Proof.
  exists (crop_state 2 four_step_cached),
         (crop_output 2 four_step_cached four_frames).
  split.
  - apply crop_trajectory_run; [reflexivity|lia].
  - repeat split.
Qed.

(** Recomputed from the two samples the crop has left, the mean
    displacement matrix would be another one. *)
Lemma mean_displacement_of_cropped_samples :
  exists m s'' out,
    get_mean_displacement_matrix raw_trajectory
      (with_mean_displacement_matrix None (crop_state 2 four_step_cached))
    = (Returns [m], s'', out)
    /\ m = diagonal_cell (25 / 2) 0 0.
Proof.
  eexists. eexists. eexists. split.
  - reflexivity.
  - unfold diagonal_cell, mat3_div, vec3_div, mat3_add, vec3_add, mat3_zero,
      dot_transposed_real.
    cbn. change (Pos.to_nat 2) with 2%nat. cbn. repeat f_equal; lra.
Qed.

(* ================================================================== *)
(** * get_velocity_mass_average *)
(* ================================================================== *)

Lemma length_list_set {A : Type} (i : nat) (x : A) (l : list A) :
  length (list_set i x l) = length l.
Proof.
  revert i. induction l as [|y l IH]; intros [|i]; cbn; try reflexivity.
  rewrite IH. reflexivity.
Qed.

Lemma nth_list_set_same {A : Type} (i : nat) (x d : A) (l : list A) :
  (i < length l)%nat -> nth i (list_set i x l) d = x.
Proof.
  revert i. induction l as [|y l IH]; intros [|i] H; cbn in *; try lia.
  - reflexivity.
  - apply IH. lia.
Qed.

Lemma nth_list_set_other {A : Type} (i j : nat) (x d : A) (l : list A) :
  i <> j -> nth i (list_set j x l) d = nth i l d.
Proof.
  revert i j. induction l as [|y l IH]; intros [|i] [|j] H; cbn;
    try reflexivity; try congruence.
  apply IH. congruence.
Qed.

Lemma nth_nil_default {A : Type} (i : nat) (d : A) : nth i [] d = d.
Proof. destruct i; reflexivity. Qed.

Lemma frame_of_put_atom (buf : ndarray3) (i t : nat) (rws : list (list complex)) :
  length rws = length (frames buf) ->
  (t < length (frames buf))%nat ->
  nth t (frames (put_atom buf i rws)) []
  = list_set i (nth t rws []) (nth t (frames buf) []).
Proof.
  intros Hlen Ht. unfold put_atom. cbn [frames].
  rewrite (nth_indep _ [] ((fun p => list_set i (snd p) (fst p)) ([], [])))
    by (rewrite length_map, length_combine; lia).
  rewrite (map_nth (fun p => list_set i (snd p) (fst p))).
  rewrite combine_nth by (symmetry; exact Hlen).
  reflexivity.
Qed.

Lemma length_atom_rows (v : ndarray3) (i : nat) :
  length (atom_rows v i) = length (frames v).
Proof. unfold atom_rows. apply length_map. Qed.

Lemma length_weigh_rows (m : R) (rws : list (list complex)) :
  length (weigh_rows m rws) = length rws.
Proof. unfold weigh_rows. apply length_map. Qed.

Lemma nth_weigh_rows (m : R) (rws : list (list complex)) (t : nat) :
  nth t (weigh_rows m rws) [] = map (fun z => Cscale z (sqrt m)) (nth t rws []).
Proof.
  unfold weigh_rows.
  change (@nil complex) with (map (fun z => Cscale z (sqrt m)) []) at 1.
  apply map_nth.
Qed.

Lemma nth_atom_rows (v : ndarray3) (i t : nat) :
  nth t (atom_rows v i) [] = entry v t i.
Proof.
  unfold atom_rows, entry.
  destruct (Nat.lt_ge_cases t (length (frames v))) as [Ht|Ht].
  - rewrite (nth_indep _ [] ((fun fr => nth i fr []) []))
      by (rewrite length_map; exact Ht).
    apply (map_nth (fun fr => nth i fr [])).
  - rewrite (nth_overflow (map _ _)) by (rewrite length_map; exact Ht).
    rewrite (nth_overflow (frames v)) by exact Ht.
    symmetry. apply nth_nil_default.
Qed.

Lemma weighed_step_layout (v : ndarray3) (masses : list R) (buf : ndarray3) (i : nat) :
  same_layout v buf -> same_layout v (weighed_step v masses buf i).
Proof.
  intros (Hlen & Hfr & Hs1). unfold weighed_step, same_layout, put_atom.
  cbn [frames shape1]. split; [|split].
  - rewrite length_map, length_combine, length_weigh_rows, length_atom_rows. lia.
  - apply Forall_forall. intros fr Hin. apply in_map_iff in Hin.
    destruct Hin as ([f r] & <- & Hin). cbn [fst snd].
    rewrite length_list_set. apply in_combine_l in Hin.
    rewrite Forall_forall in Hfr. apply Hfr. exact Hin.
  - exact Hs1.
Qed.

Lemma entry_weighed_step_other (v : ndarray3) (masses : list R) (buf : ndarray3)
    (i j t : nat) :
  same_layout v buf -> i <> j ->
  entry (weighed_step v masses buf j) t i = entry buf t i.
Proof.
  intros (Hlen & Hfr & Hs1) Hij. unfold entry, weighed_step.
  destruct (Nat.lt_ge_cases t (length (frames buf))) as [Ht|Ht].
  - rewrite frame_of_put_atom
      by (rewrite ?length_weigh_rows, ?length_atom_rows; lia).
    apply nth_list_set_other. exact Hij.
  - rewrite !(nth_overflow _ _ (n := t)); [reflexivity|exact Ht|].
    unfold put_atom. cbn [frames].
    rewrite length_map, length_combine, length_weigh_rows, length_atom_rows. lia.
Qed.

Lemma entry_weighed_step_same (v : ndarray3) (masses : list R) (buf : ndarray3)
    (i t : nat) :
  same_layout v buf -> (t < shape0 v)%nat -> (i < shape1 v)%nat ->
  entry (weighed_step v masses buf i) t i
  = map (fun z => Cscale z (sqrt (nth i masses 0))) (entry v t i).
Proof.
  intros (Hlen & Hfr & Hs1) Ht Hi. unfold entry at 1, weighed_step.
  unfold shape0 in Ht.
  rewrite frame_of_put_atom
    by (rewrite ?length_weigh_rows, ?length_atom_rows; lia).
  rewrite nth_list_set_same.
  - rewrite nth_weigh_rows, nth_atom_rows. reflexivity.
  - rewrite Forall_forall in Hfr. rewrite (Hfr (nth t (frames buf) [])).
    + exact Hi.
    + apply nth_In. lia.
Qed.

Lemma fold_weighed_layout (v : ndarray3) (masses : list R) (l : list nat) :
  forall buf, same_layout v buf ->
              same_layout v (fold_left (weighed_step v masses) l buf).
Proof.
  induction l as [|j l IH]; intros buf H; cbn; [exact H|].
  apply IH. apply weighed_step_layout. exact H.
Qed.

Lemma fold_weighed_untouched (v : ndarray3) (masses : list R) (l : list nat)
    (t i : nat) :
  ~ In i l ->
  forall buf, same_layout v buf ->
              entry (fold_left (weighed_step v masses) l buf) t i = entry buf t i.
Proof.
  induction l as [|j l IH]; intros Hin buf H; cbn; [reflexivity|].
  rewrite IH.
  - apply entry_weighed_step_other; [exact H|].
    intros E. apply Hin. left. symmetry. exact E.
  - intros Hl. apply Hin. right. exact Hl.
  - apply weighed_step_layout. exact H.
Qed.

(** every atom the loop has visited holds its weighted velocity *)
Lemma fold_weighed_entry (v : ndarray3) (masses : list R) (l : list nat)
    (t i : nat) :
  NoDup l -> In i l -> (t < shape0 v)%nat -> (i < shape1 v)%nat ->
  forall buf, same_layout v buf ->
    entry (fold_left (weighed_step v masses) l buf) t i
    = map (fun z => Cscale z (sqrt (nth i masses 0))) (entry v t i).
Proof.
  induction l as [|j l IH]; intros Hnd Hin Ht Hi buf H; [contradiction|].
  cbn [fold_left]. inversion Hnd as [|? ? Hj Hnd']; subst.
  destruct (in_dec Nat.eq_dec i l) as [Hil|Hil].
  - apply IH; try assumption. apply weighed_step_layout. exact H.
  - destruct Hin as [->|Hin]; [|contradiction].
    rewrite fold_weighed_untouched
      by (try exact Hil; apply weighed_step_layout; exact H).
    apply entry_weighed_step_same; assumption.
Qed.

Lemma with_super_cell_matrix_same s :
  with_super_cell_matrix (_super_cell_matrix s) s = s.
Proof. destruct s; reflexivity. Qed.

Lemma with_number_of_atoms_same s :
  with_number_of_atoms (_number_of_atoms s) s = s.
Proof. destruct s; reflexivity. Qed.

Lemma super_cell_matrix_of_run (s : Dynamics) (sc : ivec3) :
  super_cell_matrix_of s = Some sc ->
  exists out,
    get_super_cell_matrix default_tolerance s
    = (Returns sc, with_super_cell_matrix (Some sc) s, out).
Proof.
  unfold super_cell_matrix_of. intros H.
  destruct (_super_cell_matrix s) as [m|] eqn:Hc.
  - inversion H; subst m. exists [].
    rewrite (get_super_cell_matrix_cached _ s sc Hc).
    rewrite <- Hc, with_super_cell_matrix_same. reflexivity.
  - destruct (_super_cell s) as [h|] eqn:Hs; [|discriminate].
    rewrite (get_super_cell_matrix_first_call default_tolerance s h Hc Hs).
    destruct (Rlt_dec default_tolerance _); [discriminate|].
    inversion H; subst sc. eexists. reflexivity.
Qed.

Lemma number_of_atoms_of_run (s : Dynamics) (sc : ivec3) :
  _super_cell_matrix s = Some sc ->
  get_number_of_atoms s
  = (Returns (number_of_atoms_of s sc),
     with_number_of_atoms (Some (number_of_atoms_of s sc)) s, []).
Proof.
  intros Hc. unfold get_number_of_atoms, number_of_atoms_of.
  rewrite (bind_quiet get_self _ s s s eq_refl).
  destruct (_number_of_atoms s) as [n|] eqn:Hn.
  - rewrite <- Hn, with_number_of_atoms_same. reflexivity.
  - rewrite (bind_quiet structure _ s (_structure s) s eq_refl).
    rewrite (bind_quiet _ _ _ _ _ (get_super_cell_matrix_cached _ s sc Hc)).
    reflexivity.
Qed.

Lemma complex_eq (a b : complex) : Re a = Re b -> Im a = Im b -> a = b.
Proof. destruct a, b. cbn. intros -> ->. reflexivity. Qed.

Lemma Cnorm2_scale (z : complex) (m : R) :
  0 <= m -> Cnorm2 (Cscale z (sqrt m)) = m * Cnorm2 z.
Proof.
  intros Hm. unfold Cnorm2, Cscale. cbn [Re Im].
  pose proof (sqrt_sqrt m Hm) as Hs.
  replace (Re z * sqrt m * (Re z * sqrt m) + Im z * sqrt m * (Im z * sqrt m))
    with ((sqrt m * sqrt m) * (Re z * Re z + Im z * Im z)) by ring.
  rewrite Hs. reflexivity.
Qed.

Lemma Csquare_scale (z : complex) (m : R) :
  0 <= m ->
  Cmul (Cscale z (sqrt m)) (Cscale z (sqrt m)) = Cscale (Cmul z z) m.
Proof.
  intros Hm. pose proof (sqrt_sqrt m Hm) as Hs.
  apply complex_eq; unfold Cmul, Cscale; cbn [Re Im].
  - replace (Re z * sqrt m * (Re z * sqrt m) - Im z * sqrt m * (Im z * sqrt m))
      with ((Re z * Re z - Im z * Im z) * (sqrt m * sqrt m)) by ring.
    rewrite Hs. reflexivity.
  - replace (Re z * sqrt m * (Im z * sqrt m) + Im z * sqrt m * (Re z * sqrt m))
      with ((Re z * Im z + Im z * Re z) * (sqrt m * sqrt m)) by ring.
    rewrite Hs. reflexivity.
Qed.

Lemma sum_of_squared_moduli_scale (l : list complex) (m : R) :
  0 <= m ->
  sum_of_squared_moduli (map (fun z => Cscale z (sqrt m)) l)
  = m * sum_of_squared_moduli l.
Proof.
  intros Hm. unfold sum_of_squared_moduli, Rsum.
  induction l as [|z l IH]; cbn [map fold_right]; [ring|].
  rewrite IH, Cnorm2_scale by exact Hm. ring.
Qed.

Lemma sum_of_squares_scale (l : list complex) (m : R) :
  0 <= m ->
  sum_of_squares (map (fun z => Cscale z (sqrt m)) l)
  = Cscale (sum_of_squares l) m.
Proof.
  intros Hm. unfold sum_of_squares, Csum.
  induction l as [|z l IH]; cbn [map fold_right].
  - apply complex_eq; cbn; ring.
  - rewrite IH, Csquare_scale by exact Hm.
    apply complex_eq; cbn; ring.
Qed.

Lemma Cdiv_real_scale (z : complex) (m : R) :
  m <> 0 -> Cdiv_real (Cscale z m) m = z.
Proof.
  intros Hm. apply complex_eq; unfold Cdiv_real, Cscale; cbn [Re Im]; field;
    exact Hm.
Qed.

Section MassWeighting.

Variable relativize_trajectory : M ndarray3.
Variable uninitialized : nat -> nat -> nat -> complex.

Lemma empty_like_layout (v : ndarray3) :
  same_layout v (np_empty_like uninitialized v).
Proof.
  unfold same_layout, np_empty_like. cbn [frames shape1]. split; [|split].
  - rewrite length_map, length_seq. reflexivity.
  - apply Forall_forall. intros fr Hin. apply in_map_iff in Hin.
    destruct Hin as (t & <- & _). rewrite length_map, length_seq. reflexivity.
  - reflexivity.
Qed.

Lemma weigh_atom_run (s : Dynamics) (v buf : ndarray3) (sc : ivec3) (i : nat) :
  _velocity s = Some v ->
  _velocity_mass_average s = Some buf ->
  same_layout v buf ->
  (i < shape1 v)%nat ->
  (i < length (get_masses (_structure s) sc))%nat ->
  weigh_atom relativize_trajectory sc i s
  = (Returns tt,
     with_velocity_mass_average
       (Some (weighed_step v (get_masses (_structure s) sc) buf i)) s, []).
Proof.
  intros Hv Hb (Hlen & Hfr & Hs1) Hi Hm. unfold weigh_atom.
  rewrite (bind_quiet _ _ _ _ _ (velocity_present relativize_trajectory s v Hv)).
  assert (Hget : get_atom v i s = (Returns (atom_rows v i), s, [])).
  { unfold get_atom. destruct (Nat.ltb_spec i (shape1 v)); [reflexivity|lia]. }
  rewrite (bind_quiet _ _ _ _ _ Hget).
  rewrite (bind_quiet structure _ s (_structure s) s eq_refl).
  rewrite (bind_quiet _ _ _ _ _
             (getitem_in_range (get_masses (_structure s) sc) i 0 s Hm)).
  assert (Hbuf : velocity_mass_average_buffer s = (Returns buf, s, [])).
  { unfold velocity_mass_average_buffer.
    rewrite (bind_quiet get_self _ s s s eq_refl). rewrite Hb. reflexivity. }
  rewrite (bind_quiet _ _ _ _ _ Hbuf).
  assert (Hset : set_atom buf i
                   (map (map (fun z => Cscale z (sqrt (nth i (get_masses (_structure s) sc) 0))))
                        (atom_rows v i)) s
                 = (Returns (weighed_step v (get_masses (_structure s) sc) buf i),
                    s, [])).
  { unfold set_atom.
    destruct (Nat.ltb_spec i (shape1 buf)); [|lia].
    rewrite length_map, length_atom_rows. unfold shape0.
    rewrite Hlen, Nat.eqb_refl. reflexivity. }
  rewrite (bind_quiet _ _ _ _ _ Hset).
  reflexivity.
Qed.

Lemma weigh_loop (v : ndarray3) (sc : ivec3) (l : list nat) :
  forall (s : Dynamics) (buf : ndarray3),
    _velocity s = Some v ->
    _velocity_mass_average s = Some buf ->
    same_layout v buf ->
    (forall i, In i l ->
               (i < shape1 v)%nat /\
               (i < length (get_masses (_structure s) sc))%nat) ->
    for_in l (weigh_atom relativize_trajectory sc) s
    = (Returns tt,
       with_velocity_mass_average
         (Some (fold_left (weighed_step v (get_masses (_structure s) sc)) l buf))
         s, []).
Proof.
  induction l as [|i l IH]; intros s buf Hv Hb Hlay Hin.
  - cbn. rewrite <- Hb. destruct s; reflexivity.
  - cbn [for_in fold_left].
    destruct (Hin i (or_introl eq_refl)) as [Hi Hm].
    rewrite (bind_quiet _ _ _ _ _ (weigh_atom_run s v buf sc i Hv Hb Hlay Hi Hm)).
    rewrite (IH _ (weighed_step v (get_masses (_structure s) sc) buf i)).
    + reflexivity.
    + exact Hv.
    + reflexivity.
    + apply weighed_step_layout. exact Hlay.
    + intros j Hj. apply Hin. right. exact Hj.
Qed.

(** The first call of [get_velocity_mass_average]: the property [velocity]
    answers [v] (the velocity supplied, or the one it derives), leaving the
    object in the state [s1]. *)
Lemma get_velocity_mass_average_run
    (s s1 : Dynamics) (v : ndarray3) (o1 : list message) (sc : ivec3) :
  _velocity_mass_average s = None ->
  velocity relativize_trajectory s = (Returns v, s1, o1) ->
  super_cell_matrix_of s1 = Some sc ->
  let n := number_of_atoms_of s1 sc in
  let masses := get_masses (_structure s1) sc in
  (Z.to_nat n <= shape1 v)%nat ->
  (Z.to_nat n <= length masses)%nat ->
  exists s' out,
    get_velocity_mass_average relativize_trajectory uninitialized s
    = (Returns (fold_left (weighed_step v masses) (range n)
                          (np_empty_like uninitialized v)),
       s', out).
Proof.
  intros Hc Hvel Hsc n masses Hn1 Hn2.
  pose proof (velocity_returns_stored relativize_trajectory s s1 v o1 Hvel) as Hv.
  unfold get_velocity_mass_average.
  rewrite (bind_quiet get_self _ s s s eq_refl). rewrite Hc.
  set (s2 := with_velocity_mass_average (Some (np_empty_like uninitialized v)) s1).
  destruct (super_cell_matrix_of_run s2 sc Hsc) as [out1 Hrun1].
  set (s3 := with_super_cell_matrix (Some sc) s2) in Hrun1.
  pose proof (number_of_atoms_of_run s3 sc eq_refl) as Hrun2.
  change (number_of_atoms_of s3 sc) with n in Hrun2.
  set (s4 := with_number_of_atoms (Some n) s3) in Hrun2.
  pose proof (weigh_loop v sc (range n) s4 (np_empty_like uninitialized v)
                Hv eq_refl (empty_like_layout v)) as Hloop.
  change (get_masses (_structure s4) sc) with masses in Hloop.
  assert (Hin : forall i, In i (range n) ->
                          (i < shape1 v)%nat /\ (i < length masses)%nat).
  { intros i Hi. unfold range in Hi. apply in_seq in Hi. lia. }
  specialize (Hloop Hin).
  eexists. exists (o1 ++ out1).
  assert (Hcompute :
    (v0 <- velocity relativize_trajectory ;;
     modify (with_velocity_mass_average (Some (np_empty_like uninitialized v0))) ;;
     super_cell <- get_super_cell_matrix default_tolerance ;;
     n0 <- get_number_of_atoms ;;
     for_in (range n0) (weigh_atom relativize_trajectory super_cell)) s
    = (Returns tt,
       with_velocity_mass_average
         (Some (fold_left (weighed_step v masses) (range n)
                          (np_empty_like uninitialized v))) s4,
       o1 ++ out1)).
  { rewrite (bind_returns _ _ _ _ _ _ Hvel).
    rewrite (bind_quiet
               (modify (with_velocity_mass_average
                          (Some (np_empty_like uninitialized v))))
               _ s1 tt s2 eq_refl).
    rewrite (bind_returns _ _ _ _ _ _ Hrun1).
    rewrite (bind_quiet _ _ _ _ _ Hrun2).
    rewrite Hloop. rewrite app_nil_r. reflexivity. }
  rewrite (bind_returns _ _ _ _ _ _ Hcompute).
  unfold velocity_mass_average_buffer, bind, get_self, ret. cbn.
  rewrite app_nil_r. reflexivity.
Qed.

(** C8. On the first call (no mass-weighted velocity cached), with [v] the
    velocity the object holds or derives, [get_velocity_mass_average]
    returns an array in which, for every time sample and every atom below
    [get_number_of_atoms()] whose mass is positive, the coordinates are
    those of [v] times the square root of the atom's mass, so that their
    squares summed over the spatial axis and divided by the mass give back
    the squared magnitude of the unweighted velocity (both for squared
    moduli and for plain squares of complex coordinates). *)
Theorem mass_weighting_round_trip
    (s s1 : Dynamics) (v : ndarray3) (o1 : list message) (sc : ivec3) :
  _velocity_mass_average s = None ->
  velocity relativize_trajectory s = (Returns v, s1, o1) ->
  super_cell_matrix_of s1 = Some sc ->
  let n := number_of_atoms_of s1 sc in
  let masses := get_masses (_structure s1) sc in
  (Z.to_nat n <= shape1 v)%nat ->
  (Z.to_nat n <= length masses)%nat ->
  exists w s' out,
    get_velocity_mass_average relativize_trajectory uninitialized s
    = (Returns w, s', out)
    /\ shape0 w = shape0 v
    /\ forall t i,
         (t < shape0 v)%nat -> (i < Z.to_nat n)%nat -> 0 < nth i masses 0 ->
         entry w t i
         = map (fun z => Cscale z (sqrt (nth i masses 0))) (entry v t i)
         /\ sum_of_squared_moduli (entry w t i) / nth i masses 0
            = sum_of_squared_moduli (entry v t i)
         /\ Cdiv_real (sum_of_squares (entry w t i)) (nth i masses 0)
            = sum_of_squares (entry v t i).
Proof.
  intros Hc Hvel Hsc n masses Hn1 Hn2.
  destruct (get_velocity_mass_average_run s s1 v o1 sc Hc Hvel Hsc Hn1 Hn2)
    as (s' & out & Hrun).
  fold n in Hrun. fold masses in Hrun.
  eexists. exists s', out. split; [exact Hrun|]. split.
  - destruct (fold_weighed_layout v masses (range n) _ (empty_like_layout v))
      as (Hlen & _). exact Hlen.
  - intros t i Ht Hi Hm.
    assert (He : entry (fold_left (weighed_step v masses) (range n)
                                  (np_empty_like uninitialized v)) t i
                 = map (fun z => Cscale z (sqrt (nth i masses 0))) (entry v t i)).
    { apply fold_weighed_entry.
      - apply seq_NoDup.
      - unfold range. apply in_seq. lia.
      - exact Ht.
      - lia.
      - apply empty_like_layout. }
    rewrite He. split; [reflexivity|]. split.
    + rewrite sum_of_squared_moduli_scale by lra. field. lra.
    + rewrite sum_of_squares_scale by lra. apply Cdiv_real_scale. lra.
Qed.

End MassWeighting.

(* ================================================================== *)
(** * np.argmax, np.argmin *)
(* ================================================================== *)

Lemma argmax_from_bound (l : list R) :
  forall bi b i, (bi < i)%nat -> (argmax_from bi b i l < i + length l)%nat.
Proof.
  induction l as [|x l IH]; intros bi b i H; cbn [argmax_from length].
  - lia.
  - destruct (Rlt_dec b x).
    + specialize (IH i x (S i) ltac:(lia)). lia.
    + specialize (IH bi b (S i) ltac:(lia)). lia.
Qed.

Lemma argmax_index_bound (l : list R) :
  l <> [] -> (argmax_index l < length l)%nat.
Proof.
  destruct l as [|x l]; [congruence|]. intros _. cbn [argmax_index length].
  pose proof (argmax_from_bound l 0 x 1 ltac:(lia)). lia.
Qed.

Lemma np_argmax_index (l : list R) :
  l <> [] -> np_argmax l = Some (argmax_index l).
Proof. destruct l; [congruence|reflexivity]. Qed.

Lemma np_max_index (l : list R) :
  l <> [] -> np_max l = Some (nth (argmax_index l) l 0).
Proof.
  intros H. unfold np_max. rewrite (np_argmax_index l H). reflexivity.
Qed.

Lemma np_argmin_index (l : list R) :
  l <> [] -> np_argmin l = Some (argmin_index l).
Proof. destruct l; [congruence|reflexivity]. Qed.

Lemma np_min_index (l : list R) :
  l <> [] -> np_min l = Some (nth (argmin_index l) l 0).
Proof.
  intros H. unfold np_min. rewrite (np_argmin_index l H). reflexivity.
Qed.

(** The scan for the minimum, continued over [l] after the prefix [pre]
    whose first smallest entry is at [bi]. *)
Lemma argmin_from_spec (l : list R) :
  forall (pre : list R) (bi : nat),
    (bi < length pre)%nat ->
    (forall j, (j < length pre)%nat -> nth bi pre 0 <= nth j pre 0) ->
    (forall j, (j < bi)%nat -> nth bi pre 0 < nth j pre 0) ->
    let r := argmin_from bi (nth bi pre 0) (length pre) l in
    (r < length (pre ++ l))%nat
    /\ (forall j, (j < length (pre ++ l))%nat ->
                  nth r (pre ++ l) 0 <= nth j (pre ++ l) 0)
    /\ (forall j, (j < r)%nat -> nth r (pre ++ l) 0 < nth j (pre ++ l) 0).
Proof.
  induction l as [|x l IH]; intros pre bi Hbi Hmin Hfirst.
  - cbn [argmin_from]. rewrite app_nil_r. auto.
  - cbn [argmin_from].
    replace (pre ++ x :: l) with ((pre ++ [x]) ++ l)
      by (rewrite <- app_assoc; reflexivity).
    assert (Hlen : length (pre ++ [x]) = S (length pre))
      by (rewrite length_app; cbn; lia).
    assert (Hx : nth (length pre) (pre ++ [x]) 0 = x)
      by (rewrite app_nth2, Nat.sub_diag by lia; reflexivity).
    assert (Hold : forall j, (j < length pre)%nat ->
                             nth j (pre ++ [x]) 0 = nth j pre 0)
      by (intros j Hj; apply app_nth1; exact Hj).
    destruct (Rlt_dec x (nth bi pre 0)) as [Hlt|Hge].
    + assert (H' := IH (pre ++ [x]) (length pre)).
      cbv zeta in H'. rewrite Hx, Hlen in H'. apply H'.
      * lia.
      * intros j Hj.
        destruct (Nat.eq_dec j (length pre)) as [->|Hne].
        -- rewrite Hx. lra.
        -- rewrite Hold by lia. specialize (Hmin j ltac:(lia)). lra.
      * intros j Hj. rewrite Hold by lia.
        specialize (Hmin j ltac:(lia)). lra.
    + assert (H' := IH (pre ++ [x]) bi).
      cbv zeta in H'. rewrite (Hold bi Hbi), Hlen in H'. apply H'.
      * lia.
      * intros j Hj.
        destruct (Nat.eq_dec j (length pre)) as [->|Hne].
        -- rewrite Hx. lra.
        -- rewrite Hold by lia. apply Hmin. lia.
      * intros j Hj. rewrite Hold by lia. apply Hfirst. exact Hj.
Qed.

(** [np.argmin] finds the first smallest entry. *)
Lemma argmin_index_spec (l : list R) :
  l <> [] ->
  (argmin_index l < length l)%nat
  /\ (forall j, (j < length l)%nat -> nth (argmin_index l) l 0 <= nth j l 0)
  /\ (forall j, (j < argmin_index l)%nat -> nth (argmin_index l) l 0 < nth j l 0).
Proof.
  destruct l as [|x l]; [congruence|]. intros _.
  apply (argmin_from_spec l [x] 0).
  - cbn. lia.
  - intros j Hj. cbn in Hj. replace j with 0%nat by lia. cbn. lra.
  - intros j Hj. lia.
Qed.

(* ================================================================== *)
(** * mem_coefficient_scan_analysis *)
(* ================================================================== *)

Section Scan.

Variable mem : list R -> list complex -> R -> Z -> list R.
Variable covariance : Type.
Variable curve_fit :
  list R -> list R -> fit_parameters -> option (fit_parameters * covariance).
Variable get_error_from_covariance : covariance -> R.

Variable vq : ndarray2.
Variable parameters : Parameters.
Variable i : nat.

Local Abbreviation spectrum dt := (candidate_spectrum mem vq parameters i dt).
Local Abbreviation fit dt := (candidate_fit mem covariance curve_fit vq parameters i dt).
Local Abbreviation fits dt := (fits_of mem covariance curve_fit vq parameters i dt).
Local Abbreviation lines dt := (scan_lines mem covariance curve_fit vq parameters i dt).
Local Abbreviation extend := (extend_scan covariance get_error_from_covariance).
Local Abbreviation row := (fit_row covariance get_error_from_covariance).
Local Abbreviation nerror := (normalized_error covariance get_error_from_covariance).
Local Abbreviation weight := (fit_weight covariance get_error_from_covariance).
Local Abbreviation width := (full_width covariance).
Local Abbreviation aligned dt := (spectra_aligned mem vq parameters i dt).
Local Abbreviation after_scan := (state_after_scan parameters).
Local Abbreviation weighted_width :=
  (weighted_width_of covariance get_error_from_covariance).
Local Abbreviation candidate :=
  (scan_candidate mem covariance curve_fit get_error_from_covariance vq parameters i).

Lemma extend_scan_nil (acc : scan_state) : extend acc [] = acc.
Proof.
  destruct acc. unfold extend_scan. cbn. rewrite !app_nil_r. reflexivity.
Qed.

Lemma extend_scan_app (acc : scan_state) (a b : list (fit_record covariance)) :
  extend (extend acc a) b = extend acc (a ++ b).
Proof.
  unfold extend_scan. cbn. rewrite !map_app, !app_assoc. reflexivity.
Qed.

Lemma fits_of_cons (dt : R) (c : Z) (cs : list Z) :
  fits dt (c :: cs) = fits dt [c] ++ fits dt cs.
Proof.
  unfold fits_of. cbn [flat_map]. rewrite app_nil_r. reflexivity.
Qed.

Lemma scan_candidate_run (s : Dynamics) (t : list R) (c : Z) (acc : scan_state) :
  _time s = Some t ->
  aligned (time_step_value s t) ->
  candidate c acc s
  = (Returns (extend acc (fits (time_step_value s t) [c])),
     time_step_state s t,
     lines (time_step_value s t) [c]).
Proof.
  intros Ht [Hfreq Hlen]. unfold scan_candidate.
  rewrite (bind_quiet _ _ _ _ _ (get_time_step_average_run s t Ht)).
  set (dt := time_step_value s t) in *.
  set (s1 := time_step_state s t).
  fold (spectrum dt c).
  assert (Hne : spectrum dt c <> []).
  { intros E. apply Hfreq. apply length_zero_iff_nil.
    rewrite <- Hlen with (c := c), E. reflexivity. }
  rewrite (np_max_index _ Hne), (np_argmax_index _ Hne).
  rewrite (bind_quiet _ _ s1 _ s1 eq_refl).
  rewrite (bind_quiet _ _ s1 _ s1 eq_refl).
  assert (Hk : (argmax_index (spectrum dt c)
                < length (frequency_range parameters))%nat).
  { rewrite <- Hlen with (c := c). apply argmax_index_bound. exact Hne. }
  rewrite (bind_quiet _ _ _ _ _
             (getitem_in_range (frequency_range parameters) _ 0 s1 Hk)).
  unfold fits_of, scan_lines. cbn [flat_map map].
  unfold candidate_fit. fold (spectrum dt c). unfold initial_guess.
  destruct (curve_fit (frequency_range parameters) (spectrum dt c) _)
    as [[p cov]|].
  - cbn [app]. reflexivity.
  - cbn [app]. rewrite extend_scan_nil. reflexivity.
Qed.

Lemma scan_loop (t : list R) (cs : list Z) :
  forall (s : Dynamics) (acc : scan_state),
    _time s = Some t ->
    aligned (time_step_value s t) ->
    for_acc cs acc candidate s
    = (Returns (extend acc (fits (time_step_value s t) cs)),
       match cs with [] => s | _ => time_step_state s t end,
       lines (time_step_value s t) cs).
Proof.
  induction cs as [|c cs IH]; intros s acc Ht Hal.
  - cbn. rewrite extend_scan_nil. reflexivity.
  - cbn [for_acc].
    rewrite (bind_returns _ _ _ _ _ _ (scan_candidate_run s t c acc Ht Hal)).
    destruct (time_step_state_stable s t) as [Hs Hv].
    rewrite (IH (time_step_state s t))
      by (rewrite ?time_step_state_time, ?Hv; assumption).
    rewrite Hs, Hv, extend_scan_app, <- fits_of_cons.
    destruct cs; reflexivity.
Qed.

(** No candidate was fitted: [fit_data] has no row to index. *)
Lemma scan_mode_without_fit (s : Dynamics) (t : list R) :
  _time s = Some t ->
  aligned (time_step_value s t) ->
  fits (time_step_value s t) (mem_scan_range parameters) = [] ->
  scan_mode mem covariance curve_fit get_error_from_covariance vq parameters i s
  = (Raises IndexError, after_scan s t,
     progress_line 0 "M.E. Method"
     :: lines (time_step_value s t) (mem_scan_range parameters)).
Proof.
  intros Ht Hal Hnone. unfold scan_mode.
  unfold progress_bar at 1.
  rewrite (bind_returns _ _ s tt s [progress_line 0 "M.E. Method"] eq_refl).
  rewrite (bind_returns _ _ _ _ _ _
             (scan_loop t (mem_scan_range parameters) s (mkScan [] [] []) Ht Hal)).
  rewrite Hnone. cbn [extend_scan fit_data map app fit_data_T].
  rewrite (bind_raises _ _ _ _ _ _ (getitem_out_of_range [] 1 _ ltac:(cbn; lia))).
  rewrite app_nil_r. reflexivity.
Qed.

(** At least one candidate was fitted and the weights do not sum to zero. *)
Lemma scan_mode_with_fits (s : Dynamics) (t : list R) :
  _time s = Some t ->
  aligned (time_step_value s t) ->
  let rs := fits (time_step_value s t) (mem_scan_range parameters) in
  rs <> [] ->
  Rsum (map weight rs) <> 0 ->
  scan_mode mem covariance curve_fit get_error_from_covariance vq parameters i s
  = (Returns
       (mkEntry (nth (argmin_index (map nerror rs)) (map (@fit_spectrum _) rs) [])
                (weighted_width rs)
                (argmin_index (map nerror rs))
                [map (fun r => IZR (fit_count _ r)) rs;
                 map width rs; map nerror rs]
                (map (@fit_params _) rs)),
     after_scan s t,
     progress_line 0 "M.E. Method"
     :: lines (time_step_value s t) (mem_scan_range parameters)).
Proof.
  intros Ht Hal rs Hrs Hw. unfold scan_mode.
  unfold progress_bar at 1.
  rewrite (bind_returns _ _ s tt s [progress_line 0 "M.E. Method"] eq_refl).
  rewrite (bind_returns _ _ _ _ _ _
             (scan_loop t (mem_scan_range parameters) s (mkScan [] [] []) Ht Hal)).
  fold rs. fold (after_scan s t).
  cbn [extend_scan fit_data scan_params power_spectra app].
  assert (Hfd : fit_data_T (map row rs)
                = [map (fun r => IZR (fit_count _ r)) rs;
                   map width rs; map nerror rs]).
  { destruct rs as [|r rs']; [congruence|].
    unfold fit_data_T. cbn [map]. rewrite !map_map. reflexivity. }
  rewrite Hfd.
  set (fd := [map (fun r => IZR (fit_count _ r)) rs; map width rs; map nerror rs]).
  assert (H1 : (1 < length fd)%nat) by (cbn; lia).
  assert (H2 : (2 < length fd)%nat) by (cbn; lia).
  rewrite (bind_quiet _ _ _ _ _ (getitem_in_range fd 1 [] (after_scan s t) H1)).
  rewrite (bind_quiet _ _ _ _ _ (getitem_in_range fd 2 [] (after_scan s t) H2)).
  cbn [nth fd].
  assert (Havg : lift (np_average (map width rs)
                         (map (fun e => sqrt (1 / e)) (map nerror rs)))
                      (after_scan s t)
                 = (Returns (weighted_width rs), after_scan s t, [])).
  { unfold lift, np_average, weighted_width_of. rewrite map_map.
    change (map (fun x => sqrt (1 / nerror x)) rs) with (map weight rs).
    destruct (Req_dec_T (Rsum (map weight rs)) 0); [contradiction|reflexivity]. }
  rewrite (bind_quiet _ _ _ _ _ Havg).
  rewrite (bind_quiet _ _ _ _ _ (getitem_in_range fd 2 [] (after_scan s t) H2)).
  cbn [nth fd].
  assert (Hne : map nerror rs <> []).
  { destruct rs; [congruence|discriminate]. }
  rewrite (np_argmin_index _ Hne).
  rewrite (bind_quiet _ _ (after_scan s t) _ (after_scan s t) eq_refl).
  assert (Hb : (argmin_index (map nerror rs)
                < length (map (@fit_spectrum _) rs))%nat).
  { destruct (argmin_index_spec _ Hne) as [H _].
    rewrite length_map in *. exact H. }
  rewrite (bind_quiet _ _ _ _ _
             (getitem_in_range _ _ [] (after_scan s t) Hb)).
  unfold ret. rewrite app_nil_r. reflexivity.
Qed.


Lemma combine_of_maps {A B D : Type} (f : A -> B) (g : A -> D) (l : list A) :
  combine (map f l) (map g l) = map (fun x => (f x, g x)) l.
Proof. induction l as [|x l IH]; cbn; [|rewrite IH]; reflexivity. Qed.

Lemma Rsum_positive (l : list R) :
  l <> [] -> (forall x, In x l -> 0 < x) -> 0 < Rsum l.
Proof.
  unfold Rsum. induction l as [|x l IH]; intros Hne Hpos; [congruence|].
  cbn [fold_right]. pose proof (Hpos x (or_introl eq_refl)).
  destruct l as [|y l'].
  - cbn. lra.
  - assert (0 < fold_right Rplus 0 (y :: l')).
    { apply IH; [discriminate|]. intros z Hz. apply Hpos. right. exact Hz. }
    lra.
Qed.

Lemma weights_sum_positive (rs : list (fit_record covariance)) :
  rs <> [] -> (forall r, In r rs -> 0 < nerror r) ->
  0 < Rsum (map weight rs).
Proof.
  intros Hne Hpos. apply Rsum_positive.
  - destruct rs; [congruence|discriminate].
  - intros x Hx. apply in_map_iff in Hx. destruct Hx as (r & <- & Hr).
    unfold fit_weight. apply sqrt_lt_R0.
    apply Rdiv_lt_0_compat; [lra|]. apply Hpos. exact Hr.
Qed.

(** The summary of a mode that [scan_mode] has stored is printed without
    an error. *)
Lemma report_mode_run (s : Dynamics) (rs : list (fit_record covariance))
    (ps : list R) (w : R) (best : fit_record covariance) :
  let b := argmin_index (map nerror rs) in
  nth_error rs b = Some best ->
  report_mode i
    (mkEntry ps w b
             [map (fun r => IZR (fit_count _ r)) rs; map width rs; map nerror rs]
             (map (@fit_params _) rs)) s
  = (Returns tt, s,
     [Peak_report (i + 1) w (par0 (fit_params _ best))
                  (IZR (fit_count _ best)) (nerror best)]).
Proof.
  intros b Hb. unfold report_mode.
  cbn [entry_scan_params entry_best_index entry_fit_data entry_best_width].
  assert (Hlt : (b < length rs)%nat)
    by (apply nth_error_Some; rewrite Hb; discriminate).
  assert (Hnth : forall {X : Type} (f : fit_record covariance -> X) (d : X),
             nth b (map f rs) d = f best).
  { intros X f d. rewrite (nth_indep _ d (f best)) by (rewrite length_map; exact Hlt).
    rewrite map_nth. f_equal. apply nth_error_nth. exact Hb. }
  rewrite (bind_quiet _ _ _ _ _
             (getitem_in_range (map (@fit_params _) rs) b (0, 0, 0, 0) s
                ltac:(rewrite length_map; exact Hlt))).
  rewrite Hnth.
  set (fd := [map (fun r => IZR (fit_count _ r)) rs; map width rs; map nerror rs]).
  assert (H0 : (0 < length fd)%nat) by (cbn; lia).
  assert (H2 : (2 < length fd)%nat) by (cbn; lia).
  rewrite (bind_quiet _ _ _ _ _ (getitem_in_range fd 0 [] s H0)).
  cbn [nth fd].
  rewrite (bind_quiet _ _ _ _ _
             (getitem_in_range (map (fun r => IZR (fit_count _ r)) rs) b 0 s
                ltac:(rewrite length_map; exact Hlt))).
  rewrite Hnth.
  rewrite (bind_quiet _ _ _ _ _ (getitem_in_range fd 2 [] s H2)).
  cbn [nth fd].
  assert (Hne : map nerror rs <> []).
  { destruct rs; [destruct b; discriminate|discriminate]. }
  rewrite (np_min_index _ Hne). fold b. rewrite Hnth.
  rewrite (bind_quiet _ _ s _ s eq_refl).
  reflexivity.
Qed.

End Scan.

Section ScanRoutine.

Variable mem : list R -> list complex -> R -> Z -> list R.
Variable covariance : Type.
Variable curve_fit :
  list R -> list R -> fit_parameters -> option (fit_parameters * covariance).
Variable get_error_from_covariance : covariance -> R.

(** When no candidate of the first mode can be fitted, the routine ends in
    the [IndexError] of [fit_data[1]], after the warnings of the scan. *)
Lemma scan_analysis_raises_without_fit
    (vq : ndarray2) (parameters : Parameters) (s : Dynamics) (t : list R) :
  (1 <= ncols vq)%nat ->
  _time s = Some t ->
  spectra_aligned mem vq parameters 0 (time_step_value s t) ->
  successful_fits mem covariance curve_fit vq parameters 0 (time_step_value s t)
  = [] ->
  mem_coefficient_scan_analysis mem covariance curve_fit
    get_error_from_covariance vq parameters s
  = (Raises IndexError, state_after_scan parameters s t,
     progress_line 0 "M.E. Method"
     :: scan_lines mem covariance curve_fit vq parameters 0
          (time_step_value s t) (mem_scan_range parameters)).
Proof.
  intros Hn Ht Hal Hnone. unfold mem_coefficient_scan_analysis.
  destruct (ncols vq) as [|n]; [lia|]. cbn [seq for_acc].
  pose proof (scan_mode_without_fit mem covariance curve_fit
                get_error_from_covariance vq parameters 0 s t Ht Hal Hnone)
    as Hmode.
  match goal with
  | |- bind (bind (bind ?m ?k1) ?k2) ?k3 s = _ =>
      rewrite (bind_raises _ k3 _ _ _ _
                 (bind_raises _ k2 _ _ _ _ (bind_raises m k1 _ _ _ _ Hmode)))
  end.
  reflexivity.
Qed.

End ScanRoutine.

Lemma half_step_sum : step_sum [0; 1 / 2; 1; 3 / 2] = 1 / 2.
Proof.
  apply step_sum_uniform; [cbn; lia|].
  intros [|[|[|j]]] Hj; cbn in Hj |- *; try lia; lra.
Qed.

(** C4. With a Lorentzian fitter that fails for every candidate of the scan
    range, the scan of the first mode prints its two warnings and the
    routine then ends in an uncaught [IndexError]: no summary is produced. *)
Theorem scan_analysis_fails_when_every_fit_fails :
  (forall i dt c,
      candidate_fit flat_mem unit never_converges five_samples
                    three_coefficients i dt c = None)
  /\ mem_coefficient_scan_analysis flat_mem unit never_converges unit_error
       five_samples three_coefficients half_step_dynamics
     = (Raises IndexError,
        with_time_step_average (Some (1 / 2)) half_step_dynamics,
        [progress_line 0 "M.E. Method";
         Fitting_error_skipping 2; Fitting_error_skipping 3]).
Proof.
  split; [reflexivity|].
  rewrite (scan_analysis_raises_without_fit flat_mem unit never_converges
             unit_error five_samples three_coefficients half_step_dynamics
             [0; 1 / 2; 1; 3 / 2]).
  - unfold state_after_scan, time_step_state. cbn [mem_scan_range three_coefficients
      falsy _time_step_average half_step_dynamics new_dynamics].
    rewrite half_step_sum. reflexivity.
  - cbn. lia.
  - reflexivity.
  - split; [discriminate|]. intros c. reflexivity.
  - reflexivity.
Qed.

(* ================================================================== *)
(** * fft_power *)
(* ================================================================== *)

Lemma insert_by_In {A : Type} (key : A -> R) (x y : A) (l : list A) :
  In y (insert_by key x l) <-> y = x \/ In y l.
Proof.
  induction l as [|z l IH]; cbn.
  - intuition (auto; congruence).
  - destruct (Rlt_dec (key x) (key z)); cbn; rewrite ?IH; intuition congruence.
Qed.

Lemma sort_by_In {A : Type} (key : A -> R) (y : A) (l : list A) :
  In y (sort_by key l) <-> In y l.
Proof.
  unfold sort_by. induction l as [|x l IH]; cbn [fold_right]; [reflexivity|].
  rewrite insert_by_In, IH. cbn. intuition congruence.
Qed.

Lemma length_insert_by {A : Type} (key : A -> R) (x : A) (l : list A) :
  length (insert_by key x l) = S (length l).
Proof.
  induction l as [|z l IH]; cbn; [reflexivity|].
  destruct (Rlt_dec (key x) (key z)); cbn; [|rewrite IH]; reflexivity.
Qed.

Lemma length_sort_by {A : Type} (key : A -> R) (l : list A) :
  length (sort_by key l) = length l.
Proof.
  unfold sort_by. induction l as [|x l IH]; cbn [fold_right length];
    [reflexivity|].
  rewrite length_insert_by, IH. reflexivity.
Qed.

(** Sorting commutes with a map that keeps the keys. *)
Lemma insert_by_map {A B : Type} (key : A -> R) (key' : B -> R) (g : A -> B)
    (x : A) (l : list A) :
  (forall a, key' (g a) = key a) ->
  map g (insert_by key x l) = insert_by key' (g x) (map g l).
Proof.
  intros Hk. induction l as [|z l IH]; cbn; [reflexivity|].
  rewrite !Hk. destruct (Rlt_dec (key x) (key z)); cbn; [|rewrite IH];
    reflexivity.
Qed.

Lemma sort_by_map {A B : Type} (key : A -> R) (key' : B -> R) (g : A -> B)
    (l : list A) :
  (forall a, key' (g a) = key a) ->
  map g (sort_by key l) = sort_by key' (map g l).
Proof.
  intros Hk. unfold sort_by.
  induction l as [|x l IH]; cbn [fold_right map]; [reflexivity|].
  rewrite (insert_by_map key key' g) by exact Hk. rewrite IH. reflexivity.
Qed.

(** The output of the sort is in ascending order of the keys. *)
Lemma insert_by_sorted {A : Type} (key : A -> R) (x : A) (l : list A) :
  Sorted (fun a b => key a <= key b) l ->
  Sorted (fun a b => key a <= key b) (insert_by key x l).
Proof.
  induction l as [|z l IH]; intros Hs; cbn.
  - repeat constructor.
  - inversion Hs as [|? ? Hs' Hhd]; subst.
    destruct (Rlt_dec (key x) (key z)) as [Hlt|Hge].
    + constructor; [exact Hs|]. constructor. lra.
    + constructor; [apply IH; exact Hs'|].
      destruct l as [|w l']; cbn.
      * constructor. lra.
      * inversion Hhd; subst.
        destruct (Rlt_dec (key x) (key w)); constructor; lra.
Qed.

Lemma sort_by_sorted {A : Type} (key : A -> R) (l : list A) :
  Sorted (fun a b => key a <= key b) (sort_by key l).
Proof.
  unfold sort_by. induction l as [|x l IH]; cbn [fold_right].
  - constructor.
  - apply insert_by_sorted. exact IH.
Qed.

Lemma map_nth_seq {A : Type} (d : A) (l : list A) :
  map (fun k => nth k l d) (seq 0 (length l)) = l.
Proof.
  apply (nth_ext _ _ d d).
  - rewrite length_map, length_seq. reflexivity.
  - intros n Hn. rewrite length_map, length_seq in Hn.
    rewrite (nth_indep _ d ((fun k => nth k l d) 0%nat))
      by (rewrite length_map, length_seq; exact Hn).
    rewrite (map_nth (fun k => nth k l d)). rewrite seq_nth by exact Hn.
    reflexivity.
Qed.

Lemma combine_map_right {A B D : Type} (f : B -> D) (l : list A) (l' : list B) :
  combine l (map f l') = map (fun q => (fst q, f (snd q))) (combine l l').
Proof.
  revert l'. induction l as [|x l IH]; intros [|y l']; cbn; try reflexivity.
  rewrite IH. reflexivity.
Qed.

(** Reordering the two arrays by [np.argsort] of the first is sorting the
    pairs by their first component. *)
Lemma argsort_gathers_sorted_pairs (freqs ps : list R) :
  length ps = length freqs ->
  combine (take_indices 0 freqs (np_argsort freqs))
          (take_indices 0 ps (np_argsort freqs))
  = sort_by fst (combine freqs ps).
Proof.
  intros Hlen. unfold take_indices, np_argsort.
  rewrite combine_of_maps, map_map.
  set (L := combine freqs (seq 0 (length freqs))).
  assert (HL : forall q, In q L -> nth (snd q) freqs 0 = fst q).
  { intros [f k] Hq. unfold L in Hq. cbn [fst snd].
    apply (In_nth _ _ (0, 0%nat)) in Hq. destruct Hq as (j & Hj & Hq).
    rewrite length_combine, length_seq, Nat.min_id in Hj.
    rewrite combine_nth in Hq by (rewrite length_seq; reflexivity).
    rewrite seq_nth in Hq by exact Hj. inversion Hq; subst. reflexivity. }
  rewrite (map_ext_in _ (fun q => (fst q, nth (snd q) ps 0))).
  - rewrite (sort_by_map fst fst (fun q : R * nat => (fst q, nth (snd q) ps 0)))
      by reflexivity.
    f_equal. unfold L.
    rewrite <- (combine_map_right (fun k => nth k ps 0) freqs
                  (seq 0 (length freqs))).
    rewrite <- Hlen, map_nth_seq. reflexivity.
  - intros q Hq. apply sort_by_In in Hq. rewrite (HL q Hq). reflexivity.
Qed.

Lemma length_np_fft (x : list complex) : length (np_fft x) = length x.
Proof. unfold np_fft. rewrite length_map, length_seq. reflexivity. Qed.

Lemma length_np_fftfreq (n : nat) (val : R) :
  length (fftfreq_values n val) = n.
Proof. unfold fftfreq_values. rewrite length_map, length_seq. reflexivity. Qed.

(** a sampling interval that is not zero, for a transform of at least one
    sample, gives the frequency axis *)
Lemma np_fftfreq_run (n : nat) (d : R) :
  n <> 0%nat -> d <> 0 ->
  np_fftfreq n d = Returns (fftfreq_values n (1 / (INR n * d))).
Proof.
  intros Hn Hd. unfold np_fftfreq.
  destruct (Req_dec_T (INR n * d) 0) as [E|E]; [|reflexivity].
  apply Rmult_integral in E. destruct E as [E|E].
  - exfalso. apply Hn. apply INR_eq. exact E.
  - contradiction.
Qed.

(** a sampling interval of zero has no frequency axis *)
Lemma np_fftfreq_zero_step (n : nat) :
  np_fftfreq n 0 = Raises ZeroDivisionError.
Proof.
  unfold np_fftfreq.
  destruct (Req_dec_T (INR n * 0) 0) as [E|E]; [reflexivity|].
  exfalso. apply E. apply Rmult_0_r.
Qed.

Lemma length_zero_padded (pad : nat) (d : list complex) :
  length (zero_padded pad d) = (length d + pad)%nat.
Proof. unfold zero_padded. rewrite length_app, repeat_length. reflexivity. Qed.

Lemma length_normalized_autocorrelation (x : list complex) :
  length (normalized_autocorrelation x) = length x.
Proof.
  unfold normalized_autocorrelation, centered_autocorrelation.
  rewrite !length_map, length_seq. reflexivity.
Qed.

Lemma length_np_argsort (l : list R) : length (np_argsort l) = length l.
Proof.
  unfold np_argsort.
  rewrite length_map, length_sort_by, length_combine, length_seq.
  apply Nat.min_id.
Qed.

(** an empty series is refused by [np.correlate] *)
Lemma fft_power_of_empty_series (grid : list R) (time_step : R) (pad : Z) :
  fft_power grid [] time_step pad = Raises ValueError.
Proof. reflexivity. Qed.

(** C5. For a series that is not empty, a pad length that is not
    negative and a time step that is not zero, [fft_power] returns the
    composition of the stages: centered
    same-length autocorrelation over the length, zero-padding on the
    right, magnitude of the discrete Fourier transform times
    [time_step / 2], the points sorted by the frequency axis of the padded
    length, and their linear interpolation onto the grid; the sorted
    frequencies are in ascending order. *)
Theorem fft_power_is_the_staged_pipeline
    (grid : list R) (x : list complex) (time_step : R) (pad : Z) :
  x <> [] -> (0 <= pad)%Z -> time_step <> 0 ->
  fft_power grid x time_step pad
  = Returns (fft_power_stages grid x time_step (Z.to_nat pad))
  /\ Sorted Rle
       (map fst
            (sorted_spectrum
               (dft_frequency_axis
                  (length (zero_padded (Z.to_nat pad)
                                       (normalized_autocorrelation x)))
                  time_step)
               (scaled_dft_magnitude time_step
                  (zero_padded (Z.to_nat pad) (normalized_autocorrelation x))))).
Proof.
  intros Hx Hpad Hstep. split.
  - unfold fft_power, autocorrelation, np_correlate_same.
    destruct x as [|z x']; [congruence|].
    set (x := z :: x') in *.
    cbn [and_then]. unfold np_pad_right.
    destruct (pad <? 0)%Z eqn:E; [apply Z.ltb_lt in E; lia|].
    cbn [and_then].
    fold (centered_autocorrelation x). fold (normalized_autocorrelation x).
    fold (zero_padded (Z.to_nat pad) (normalized_autocorrelation x)).
    set (padded := zero_padded (Z.to_nat pad) (normalized_autocorrelation x)).
    fold (scaled_dft_magnitude time_step padded).
    rewrite (np_fftfreq_run (length padded) time_step)
      by (try exact Hstep; unfold padded;
          rewrite length_zero_padded, length_normalized_autocorrelation;
          unfold x; cbn [length]; lia).
    cbn [and_then].
    fold (dft_frequency_axis (length padded) time_step).
    set (freqs := dft_frequency_axis (length padded) time_step).
    set (ps := scaled_dft_magnitude time_step padded).
    assert (Hlen : length ps = length freqs).
    { unfold ps, freqs, scaled_dft_magnitude, dft_frequency_axis.
      rewrite length_map, length_np_fft, length_np_fftfreq. reflexivity. }
    assert (Hne : take_indices 0 freqs (np_argsort freqs) <> []).
    { intros Hnil. apply (f_equal (@length R)) in Hnil.
      unfold take_indices in Hnil.
      rewrite length_map, length_np_argsort in Hnil.
      unfold freqs, dft_frequency_axis in Hnil.
      rewrite length_np_fftfreq in Hnil. unfold padded, zero_padded in Hnil.
      rewrite length_app in Hnil. unfold normalized_autocorrelation,
        centered_autocorrelation in Hnil.
      rewrite !length_map, length_seq in Hnil. cbn in Hnil. lia. }
    unfold np_interp.
    destruct (take_indices 0 freqs (np_argsort freqs)) as [|f0 rest] eqn:Exp;
      [congruence|].
    rewrite <- Exp. rewrite (argsort_gathers_sorted_pairs freqs ps Hlen).
    reflexivity.
  - unfold sorted_spectrum.
    pose proof (sort_by_sorted (@fst R R)
                  (combine
                     (dft_frequency_axis
                        (length (zero_padded (Z.to_nat pad)
                                             (normalized_autocorrelation x)))
                        time_step)
                     (scaled_dft_magnitude time_step
                        (zero_padded (Z.to_nat pad)
                                     (normalized_autocorrelation x))))) as Hs.
    induction Hs as [|a l Hs IH Hhd]; cbn [map]; constructor.
    + exact IH.
    + destruct Hhd; cbn [map]; constructor. assumption.
Qed.

(* ================================================================== *)
(** * The statements at concrete objects *)
(* ================================================================== *)

Lemma cell_fit_deviation_of_integers (a b c : Z) :
  cell_fit_deviation (a, b, c) (IZR a, IZR b, IZR c) = 0.
Proof.
  unfold cell_fit_deviation. cbn [sub_int_real py_sum3].
  replace (0 + (IZR a - IZR a) + (IZR b - IZR b) + (IZR c - IZR c)) with 0
    by ring.
  unfold Rdiv. rewrite Rmult_0_l. apply Rabs_R0.
Qed.

Lemma np_around_integer (a : Z) : np_around (IZR a) = a.
Proof. apply np_around_near. lra. Qed.

(** a simulation cell of [a] x [b] x [c] unit cells *)
Lemma ratio_of_whole_cells (s : Dynamics) (a b c : Z) :
  (0 <= a)%Z -> (0 <= b)%Z -> (0 <= c)%Z ->
  get_cell (_structure s) = diagonal_cell 1 1 1 ->
  let real := np_divide3 (parameters (diagonal_cell (IZR a) (IZR b) (IZR c)))
                         (parameters (get_cell (_structure s))) in
  real = (IZR a, IZR b, IZR c)
  /\ np_around3 real = (a, b, c)
  /\ ~ default_tolerance < cell_fit_deviation (np_around3 real) real.
Proof.
  intros Ha Hb Hc Hcell real.
  assert (Hreal : real = (IZR a, IZR b, IZR c)).
  { unfold real. rewrite Hcell.
    apply ratio_to_unit_cell; apply IZR_le; assumption. }
  assert (Hm : np_around3 real = (a, b, c)).
  { rewrite Hreal. unfold np_around3. rewrite !np_around_integer. reflexivity. }
  split; [exact Hreal|]. split; [exact Hm|].
  rewrite Hm, Hreal, cell_fit_deviation_of_integers.
  unfold default_tolerance. lra.
Qed.

Lemma super_cell_matrix_of_whole_cells (s : Dynamics) (a b c : Z) :
  (0 <= a)%Z -> (0 <= b)%Z -> (0 <= c)%Z ->
  _super_cell_matrix s = None ->
  _super_cell s = Some (diagonal_cell (IZR a) (IZR b) (IZR c)) ->
  get_cell (_structure s) = diagonal_cell 1 1 1 ->
  super_cell_matrix_of s = Some (a, b, c).
Proof.
  intros Ha Hb Hc Hn Hs Hcell. unfold super_cell_matrix_of. rewrite Hn, Hs.
  destruct (ratio_of_whole_cells s a b c Ha Hb Hc Hcell) as (_ & Hm & Hfit).
  destruct (Rlt_dec _ _) as [H|_]; [contradiction|].
  rewrite Hm. reflexivity.
Qed.

Lemma raw_trajectory_keeps_samples : keeps_samples raw_trajectory.
Proof. unfold raw_trajectory, trajectory. keeps_samples. Qed.

(** C2 at an object with four samples, cropped to the last two. *)
Lemma crop_keeps_last_steps_witness :
  keeps_samples raw_trajectory
  /\ exists s' out,
       crop_trajectory raw_trajectory (Some 2%Z) four_step_dynamics
       = (Returns tt, s', out)
       /\ field_crops_to 2 (_time four_step_dynamics) (_time s')
       /\ array_crops_to 2 (_velocity four_step_dynamics) (_velocity s').
Proof.
  split; [exact raw_trajectory_keeps_samples|].
  destruct (crop_keeps_last_steps raw_trajectory four_step_dynamics
              raw_trajectory_keeps_samples) as (_ & _ & Hkept & Hruns).
  destruct (Hruns 2%Z four_frames ltac:(lia) eq_refl) as (s' & out & Hrun & _).
  exists s', out. split; [exact Hrun|].
  destruct (Hkept 2%Z s' out ltac:(lia) Hrun) as (Ht & _ & _ & Hv).
  split; [exact Ht|exact (Hv four_frames eq_refl)].
Defined.

Lemma raw_trajectory_keeps_cached_cells : keeps_cached_cells raw_trajectory.
Proof.
  intros sc. unfold raw_trajectory, trajectory. preserves; assumption.
Qed.

(** C3 at an object with filled caches, cropped to the last two samples. *)
Lemma crop_invalidates_velocity_derived_caches_witness :
  (0 <= 2)%Z
  /\ crop_trajectory raw_trajectory (Some 2%Z) four_step_cached
     = (Returns tt, crop_state 2 four_step_cached,
        crop_output 2 four_step_cached four_frames)
  /\ _velocity_mass_average (crop_state 2 four_step_cached) = None
  /\ _relative_trajectory (crop_state 2 four_step_cached) = None
  /\ _super_cell_matrix (crop_state 2 four_step_cached) = Some (1, 1, 1)%Z.
Proof.
  assert (Hrun : crop_trajectory raw_trajectory (Some 2%Z) four_step_cached
                 = (Returns tt, crop_state 2 four_step_cached,
                    crop_output 2 four_step_cached four_frames)).
  { apply crop_trajectory_run; [reflexivity|lia]. }
  split; [lia|]. split; [exact Hrun|].
  destruct (crop_invalidates_velocity_derived_caches raw_trajectory 2
              four_step_cached _ _ ltac:(lia) Hrun) as (H1 & H2 & _ & H3 & _).
  split; [exact H1|]. split; [exact H2|].
  exact (H3 raw_trajectory_keeps_cached_cells (1, 1, 1)%Z eq_refl).
Defined.

(** C5 on the series (1, 2) with no padding. *)
Lemma fft_power_is_the_staged_pipeline_witness :
  [RtoC 1; RtoC 2] <> [] /\ (0 <= 0)%Z /\ 1 <> 0
  /\ fft_power [0; 1 / 4] [RtoC 1; RtoC 2] 1 0
     = Returns (fft_power_stages [0; 1 / 4] [RtoC 1; RtoC 2] 1 0).
Proof.
  split; [discriminate|]. split; [lia|]. split; [exact R1_neq_R0|].
  exact (proj1 (fft_power_is_the_staged_pipeline [0; 1 / 4] [RtoC 1; RtoC 2] 1 0
                  ltac:(discriminate) ltac:(lia) R1_neq_R0)).
Defined.

(** C7 on five samples of two modes with three coefficients: the test
    passes and two spectra are returned. *)
Lemma mem_entry_point_coefficient_check_witness :
  (3 < Z.of_nat (length (rows five_samples)) - 1)%Z
  /\ _time half_step_dynamics = Some [0; 1 / 2; 1; 3 / 2]
  /\ fst (fst (get_mem_spectra_par_openmp flat_mem five_samples
                 three_coefficients half_step_dynamics))
     = Returns
         (stack_and_scale
            (map (fun i =>
                    flat_mem [0; 1] (column five_samples i)
                      (time_step_value half_step_dynamics [0; 1 / 2; 1; 3 / 2]) 3)
                 [0%nat; 1%nat])).
Proof.
  split; [reflexivity|]. split; [reflexivity|].
  pose proof (mem_entry_point_coefficient_check flat_mem five_samples
                three_coefficients half_step_dynamics) as H.
  cbv zeta in H. destruct H as (_ & _ & H).
  rewrite (H eq_refl [0; 1 / 2; 1; 3 / 2] eq_refl). reflexivity.
Defined.

(** C8 on one atom of mass 28 in a simulation cell of one unit cell. *)
Lemma mass_weighting_round_trip_witness :
  _velocity_mass_average four_step_dynamics = None
  /\ velocity raw_trajectory four_step_dynamics
     = (Returns four_frames, four_step_dynamics, [])
  /\ super_cell_matrix_of four_step_dynamics = Some (1, 1, 1)%Z
  /\ exists w s' out,
       get_velocity_mass_average raw_trajectory zero_filled four_step_dynamics
       = (Returns w, s', out)
       /\ sum_of_squared_moduli (entry w 1 0) / 28
          = sum_of_squared_moduli (entry four_frames 1 0).
Proof.
  assert (Hsc : super_cell_matrix_of four_step_dynamics = Some (1, 1, 1)%Z).
  { apply super_cell_matrix_of_whole_cells; try reflexivity; lia. }
  split; [reflexivity|]. split; [reflexivity|]. split; [exact Hsc|].
  pose proof (mass_weighting_round_trip raw_trajectory zero_filled
                four_step_dynamics four_step_dynamics four_frames []
                (1, 1, 1)%Z eq_refl eq_refl Hsc)
    as H.
  cbv zeta in H.
  destruct H as (w & s' & out & Hrun & _ & Hall);
    [exact (le_n 1)|exact (le_n 1)|].
  exists w, s', out. split; [exact Hrun|].
  destruct (Hall 1%nat 0%nat) as (_ & H & _);
    [cbn; lia|exact (le_n 1)|change (0 < 28); lra|].
  exact H.
Defined.


(** C10 on four samples half a time unit apart. *)
Lemma time_step_average_of_uniform_series_witness :
  _time half_step_dynamics = Some [0; 1 / 2; 1; 3 / 2]
  /\ falsy (_time_step_average half_step_dynamics) = true
  /\ get_time_step_average half_step_dynamics
     = (Returns (1 / 2),
        with_time_step_average (Some (1 / 2)) half_step_dynamics, []).
Proof.
  split; [reflexivity|]. split; [reflexivity|].
  apply (time_step_average_of_uniform_series half_step_dynamics
           [0; 1 / 2; 1; 3 / 2] (1 / 2) eq_refl eq_refl).
  - cbn. lia.
  - intros [|[|[|j]]] Hj; cbn in Hj |- *; try lia; lra.
Defined.

(* ================================================================== *)
(** * More on get_time_step_average *)
(* ================================================================== *)

Lemma fold_steps_telescope (t : list R) (k : nat) :
  forall acc,
    fold_left (fun a i => a + step_term t i) (seq 0 k) acc
    = acc + (nth k t 0 - nth 0 t 0) / IZR (Z.of_nat (length t) - 1).
Proof.
  induction k as [|k IH]; intros acc.
  - cbn. unfold Rdiv. ring.
  - rewrite seq_S, fold_left_app, IH. cbn [fold_left Nat.add].
    unfold step_term. replace (k + 1)%nat with (S k) by lia.
    unfold Rdiv. ring.
Qed.

Lemma step_sum_span (t : list R) :
  (2 <= length t)%nat -> step_sum t = span_over_intervals t.
Proof.
  intros Hlen. unfold step_sum, span_over_intervals, range.
  rewrite fold_steps_telescope.
  replace (Z.to_nat (Z.of_nat (length t) - 1)) with (length t - 1)%nat by lia.
  replace (IZR (Z.of_nat (length t) - 1)) with (INR (length t - 1)).
  2:{ rewrite INR_IZR_INZ. f_equal. lia. }
  assert (Hlast : nth (length t - 1) t 0 = last t 0).
  { clear Hlen. induction t as [|a t IH]; [reflexivity|].
    destruct t as [|b t]; [reflexivity|].
    cbn [length] in *. replace (S (S (length t)) - 1)%nat with (S (length t)) by lia.
    change (nth (S (length t)) (a :: b :: t) 0) with (nth (length t) (b :: t) 0).
    change (last (a :: b :: t) 0) with (last (b :: t) 0).
    rewrite <- IH. f_equal. lia. }
  assert (Hhd : nth 0 t 0 = hd 0 t) by (destruct t; reflexivity).
  rewrite Hlast, Hhd. lra.
Qed.

Lemma step_sum_short (t : list R) : (length t <= 1)%nat -> step_sum t = 0.
Proof.
  intros Hlen. unfold step_sum, range.
  replace (Z.to_nat (Z.of_nat (length t) - 1)) with 0%nat by lia.
  reflexivity.
Qed.

(** what a returning call has left in the cache *)
Lemma get_time_step_average_returns_cached (s s1 : Dynamics) (r : R) o :
  get_time_step_average s = (Returns r, s1, o) -> _time_step_average s1 = Some r.
Proof.
  unfold get_time_step_average. intros H.
  apply bind_returns_inv in H. destruct H as (? & ? & ? & ? & _ & H & _).
  apply bind_returns_inv in H. destruct H as (? & ? & ? & ? & _ & H & _).
  apply bind_returns_inv in H. destruct H as (sa & sb & ? & ? & Hself & H & _).
  unfold get_self in Hself. inversion Hself; subst.
  destruct (_time_step_average sb) as [r'|] eqn:E.
  - unfold ret in H. inversion H; subst. exact E.
  - discriminate.
Qed.

(** X1.  With at least two samples loaded and nothing cached, the average
    time step is the span of the series, last sample minus first, over
    the number of intervals, whether or not the samples are evenly
    spaced; the value is cached and nothing is printed. *)
Theorem time_step_average_is_span_over_intervals (s : Dynamics) (t : list R) :
  _time s = Some t ->
  (2 <= length t)%nat ->
  falsy (_time_step_average s) = true ->
  get_time_step_average s
  = (Returns ((last t 0 - hd 0 t) / INR (length t - 1)),
     with_time_step_average
       (Some ((last t 0 - hd 0 t) / INR (length t - 1))) s, []).
Proof.
  intros Ht Hlen Hf.
  rewrite (get_time_step_average_fresh s t Ht Hf).
  rewrite (step_sum_span t Hlen). reflexivity.
Qed.

(** X2.  With an empty or a one-sample time series the loop does not run:
    the call returns 0 without an error.  The 0 it caches counts as no
    cache, so that the average is computed afresh once a longer series is
    set. *)
Theorem time_step_average_of_short_series (s : Dynamics) (t : list R) :
  _time s = Some t ->
  (length t <= 1)%nat ->
  falsy (_time_step_average s) = true ->
  get_time_step_average s = (Returns 0, with_time_step_average (Some 0) s, [])
  /\ forall t',
       (2 <= length t')%nat ->
       (set_time (Some t') ;; get_time_step_average)
         (with_time_step_average (Some 0) s)
       = (Returns (span_over_intervals t'),
          with_time_step_average (Some (span_over_intervals t'))
            (with_time (Some t') s), []).
Proof.
  intros Ht Hlen Hf. split.
  - rewrite (get_time_step_average_fresh s t Ht Hf).
    rewrite (step_sum_short t Hlen). reflexivity.
  - intros t' Hlen'.
    rewrite (bind_quiet (set_time (Some t')) _ _ tt
               (with_time (Some t') (with_time_step_average (Some 0) s)) eq_refl).
    rewrite (get_time_step_average_fresh
               (with_time (Some t') (with_time_step_average (Some 0) s)) t'
               eq_refl).
    + rewrite (step_sum_span t' Hlen'). reflexivity.
    + cbn. destruct (Req_dec_T 0 0) as [_|H]; [reflexivity|contradiction H; reflexivity].
Qed.

(** X3.  [set_time] does not invalidate the cached average: once a call
    has returned a non-zero average, every later call returns that same
    value, also after the time series was replaced (or removed). *)
Theorem cached_time_step_outlives_set_time
    (s s1 : Dynamics) (r : R) (o : list message) (time' : option (list R)) :
  get_time_step_average s = (Returns r, s1, o) ->
  r <> 0 ->
  (set_time time' ;; get_time_step_average) s1
  = (Returns r, with_time time' s1, []).
Proof.
  intros Hrun Hr.
  apply get_time_step_average_returns_cached in Hrun.
  rewrite (bind_quiet (set_time time') _ s1 tt (with_time time' s1) eq_refl).
  apply get_time_step_average_cached; [exact Hrun|exact Hr].
Qed.

(** X4.  Without a time series the call raises [TypeError] (from
    [len(None)]) after it has set the cache to 0; it prints nothing, and a
    repeated call fails in the same way. *)
Theorem time_step_average_without_time (s : Dynamics) :
  _time s = None ->
  falsy (_time_step_average s) = true ->
  get_time_step_average s
  = (Raises TypeError, with_time_step_average (Some 0) s, [])
  /\ get_time_step_average (with_time_step_average (Some 0) s)
     = (Raises TypeError, with_time_step_average (Some 0) s, []).
Proof.
  intros Ht Hf. split.
  - apply get_time_step_average_no_time; assumption.
  - rewrite (get_time_step_average_no_time
               (with_time_step_average (Some 0) s) Ht).
    + reflexivity.
    + cbn. destruct (Req_dec_T 0 0) as [_|H]; [reflexivity|contradiction H; reflexivity].
Qed.

(* ================================================================== *)
(** * More on get_super_cell_matrix and get_number_of_atoms *)
(* ================================================================== *)

Lemma norm3_scale (k x y z : R) :
  0 <= k -> norm3 (k * x, k * y, k * z) = k * norm3 (x, y, z).
Proof.
  intros Hk. unfold norm3.
  replace (k * x * (k * x) + k * y * (k * y) + k * z * (k * z))
    with ((k * k) * (x * x + y * y + z * z)) by ring.
  rewrite sqrt_mult; [|nra|nra].
  rewrite sqrt_square by exact Hk. reflexivity.
Qed.

Lemma norm3_zero (x y z : R) : norm3 (x, y, z) = 0 -> x = 0 /\ y = 0 /\ z = 0.
Proof.
  unfold norm3. intros H. apply sqrt_eq_0 in H; [|nra].
  repeat split; nra.
Qed.

(** the lattice vectors of a non-degenerate cell are not zero *)
Lemma non_degenerate_columns (h : mat3) :
  non_degenerate h ->
  0 < norm3 (col0 h) /\ 0 < norm3 (col1 h) /\ 0 < norm3 (col2 h).
Proof.
  destruct h as [[[[a b] c] [[d e] f]] [[g i] j]].
  unfold non_degenerate, det3. cbn [col0 col1 col2]. intros Hdet.
  repeat split.
  - destruct (norm3_nonneg (a, d, g)) as [H|H]; [exact H|].
    symmetry in H. apply norm3_zero in H. destruct H as (-> & -> & ->).
    exfalso. apply Hdet. ring.
  - destruct (norm3_nonneg (b, e, i)) as [H|H]; [exact H|].
    symmetry in H. apply norm3_zero in H. destruct H as (-> & -> & ->).
    exfalso. apply Hdet. ring.
  - destruct (norm3_nonneg (c, f, j)) as [H|H]; [exact H|].
    symmetry in H. apply norm3_zero in H. destruct H as (-> & -> & ->).
    exfalso. apply Hdet. ring.
Qed.

Lemma get_super_cell_run (s : Dynamics) :
  get_super_cell s = (Returns (_super_cell s), s, []).
Proof. reflexivity. Qed.

Lemma structure_run (s : Dynamics) :
  structure s = (Returns (_structure s), s, []).
Proof. reflexivity. Qed.

Lemma ratio_of_repeated_cell (n0 n1 n2 : Z) (h : mat3) :
  non_degenerate h ->
  (0 <= n0)%Z -> (0 <= n1)%Z -> (0 <= n2)%Z ->
  np_divide3 (parameters (scale_columns (n0, n1, n2) h)) (parameters h)
  = (IZR n0, IZR n1, IZR n2).
Proof.
  intros Hdet H0 H1 H2.
  destruct (non_degenerate_columns h Hdet) as (Ha & Hb & Hc).
  destruct h as [[[[a b] c] [[d e] f]] [[g i] j]].
  unfold parameters, scale_columns in *. cbn [col0 col1 col2] in *.
  rewrite !norm3_scale by (apply IZR_le; assumption).
  unfold np_divide3. repeat f_equal; field; lra.
Qed.

(** what a returning call has left in the cache *)
Lemma get_super_cell_matrix_returns_cached
    (tolerance : R) (s s1 : Dynamics) (m : ivec3) o :
  get_super_cell_matrix tolerance s = (Returns m, s1, o) ->
  _super_cell_matrix s1 = Some m.
Proof.
  intros H.
  destruct (_super_cell_matrix s) as [m0|] eqn:Hc.
  - rewrite (get_super_cell_matrix_cached tolerance s m0 Hc) in H.
    inversion H; subst. exact Hc.
  - destruct (_super_cell s) as [h|] eqn:Hs.
    + pose proof (get_super_cell_matrix_first_call tolerance s h Hc Hs) as Hrun.
      cbv zeta in Hrun. rewrite Hrun in H.
      destruct (Rlt_dec _ _); [discriminate|].
      inversion H; subst. reflexivity.
    + unfold get_super_cell_matrix in H.
      rewrite (bind_quiet get_self _ s s s eq_refl) in H. rewrite Hc in H.
      rewrite (bind_quiet _ _ s _ s (get_super_cell_run s)) in H.
      rewrite Hs in H. discriminate.
Qed.

Lemma get_super_cell_matrix_no_cell (tolerance : R) (s : Dynamics) :
  _super_cell_matrix s = None -> _super_cell s = None ->
  get_super_cell_matrix tolerance s = (Raises TypeError, s, []).
Proof.
  intros Hc Hs. unfold get_super_cell_matrix.
  rewrite (bind_quiet get_self _ s s s eq_refl). rewrite Hc.
  rewrite (bind_quiet _ _ s _ s (get_super_cell_run s)).
  rewrite Hs. reflexivity.
Qed.

Lemma get_number_of_atoms_with_matrix (s : Dynamics) (m : ivec3) :
  _number_of_atoms s = None ->
  _super_cell_matrix s = Some m ->
  get_number_of_atoms s
  = (Returns (int64_mul (structure_number_of_atoms (_structure s))
                        (np_product3 m)),
     with_number_of_atoms
       (Some (int64_mul (structure_number_of_atoms (_structure s))
                        (np_product3 m))) s,
     []).
Proof.
  intros Hn Hm. unfold get_number_of_atoms.
  rewrite (bind_quiet get_self _ s s s eq_refl). rewrite Hn.
  rewrite (bind_quiet _ _ s _ s (structure_run s)).
  rewrite (bind_quiet _ _ s m s (get_super_cell_matrix_cached _ s m Hm)).
  reflexivity.
Qed.

(** X5.  When the simulation cell repeats a non-degenerate reference cell
    a whole number of times (below 2^31) along each lattice vector, the
    first call with the default tolerance or a larger one returns exactly
    these numbers, whatever the orientation of the cell; it caches them and
    prints the one line 'MD cell size relation'.  (With a tolerance near
    zero the outcome would hang on the rounding of the norms.) *)
Theorem super_cell_matrix_of_repeated_cell
    (tolerance : R) (s : Dynamics) (n : ivec3) :
  _super_cell_matrix s = None ->
  non_degenerate (get_cell (_structure s)) ->
  _super_cell s = Some (scale_columns n (get_cell (_structure s))) ->
  all_positive n ->
  entries_below (2 ^ 31) n ->
  default_tolerance <= tolerance ->
  get_super_cell_matrix tolerance s
  = (Returns n, with_super_cell_matrix (Some n) s, [MD_cell_size_relation n]).
Proof.
  intros Hc Hdet Hs Hpos _ Htol.
  destruct n as [[n0 n1] n2]. destruct Hpos as (H0 & H1 & H2).
  pose proof (get_super_cell_matrix_first_call tolerance s _ Hc Hs) as Hrun.
  cbv zeta in Hrun.
  rewrite (ratio_of_repeated_cell n0 n1 n2 _ Hdet) in Hrun by lia.
  unfold np_around3 in Hrun. rewrite !np_around_integer in Hrun.
  rewrite cell_fit_deviation_of_integers in Hrun.
  destruct (Rlt_dec tolerance 0) as [H|_];
    [unfold default_tolerance in Htol; lra|].
  exact Hrun.
Qed.

(** X6.  The rounded matrix is stored before it is checked.  A first call
    that halts has therefore cached the matrix it rejected: every later
    call, with any tolerance, returns that matrix without a check or a
    message, and [get_number_of_atoms] goes on to use it: it returns and
    caches the atom count of the structure times [np.product] of the
    rejected matrix, both products taken as 64-bit integers. *)
Theorem rejected_super_cell_matrix_stays_cached
    (tolerance : R) (s s1 : Dynamics) (out : list message) :
  _super_cell_matrix s = None ->
  _number_of_atoms s = None ->
  get_super_cell_matrix tolerance s = (SystemExit, s1, out) ->
  exists m,
    _super_cell_matrix s1 = Some m
    /\ (forall tolerance',
          get_super_cell_matrix tolerance' s1 = (Returns m, s1, []))
    /\ get_number_of_atoms s1
       = (Returns (int64_mul (structure_number_of_atoms (_structure s))
                             (np_product3 m)),
          with_number_of_atoms
            (Some (int64_mul (structure_number_of_atoms (_structure s))
                             (np_product3 m)))
            s1,
          []).
Proof.
  intros Hc Hn Hrun.
  destruct (_super_cell s) as [h|] eqn:Hs.
  - pose proof (get_super_cell_matrix_first_call tolerance s h Hc Hs) as Hfirst.
    cbv zeta in Hfirst. rewrite Hfirst in Hrun.
    destruct (Rlt_dec _ _); [|discriminate].
    inversion Hrun; subst s1 out.
    eexists. split; [reflexivity|]. split.
    + intros tolerance'. apply get_super_cell_matrix_cached. reflexivity.
    + apply (get_number_of_atoms_with_matrix
               (with_super_cell_matrix _ s)); [exact Hn|reflexivity].
  - rewrite (get_super_cell_matrix_no_cell tolerance s Hc Hs) in Hrun.
    discriminate.
Qed.

(** X7.  Once a call has returned, the matrix is served from the cache:
    neither [set_super_cell] nor [set_structure] invalidates it, and the
    tolerance of a later call is not looked at. *)
Theorem cached_super_cell_matrix_outlives_cells
    (tolerance tolerance' : R) (s s1 : Dynamics) (m : ivec3)
    (o : list message) (super_cell' : option mat3) (structure' : Structure) :
  get_super_cell_matrix tolerance s = (Returns m, s1, o) ->
  (set_super_cell super_cell' ;; set_structure structure' ;;
   get_super_cell_matrix tolerance') s1
  = (Returns m, with_structure structure' (with_super_cell super_cell' s1), []).
Proof.
  intros Hrun. apply get_super_cell_matrix_returns_cached in Hrun.
  rewrite (bind_quiet (set_super_cell super_cell') _ s1 tt
             (with_super_cell super_cell' s1) eq_refl).
  rewrite (bind_quiet (set_structure structure') _ _ tt
             (with_structure structure' (with_super_cell super_cell' s1))
             eq_refl).
  apply get_super_cell_matrix_cached. exact Hrun.
Qed.

(** X8.  Without a simulation cell neither the supercell matrix nor the
    number of atoms can be derived: both calls raise [TypeError] (the
    missing cell is indexed), print nothing and leave the object as it
    was, with nothing cached. *)
Theorem number_of_atoms_needs_super_cell (s : Dynamics) :
  _super_cell_matrix s = None ->
  _super_cell s = None ->
  _number_of_atoms s = None ->
  (forall tolerance,
      get_super_cell_matrix tolerance s = (Raises TypeError, s, []))
  /\ get_number_of_atoms s = (Raises TypeError, s, []).
Proof.
  intros Hc Hs Hn. split.
  - intros tolerance. apply get_super_cell_matrix_no_cell; assumption.
  - unfold get_number_of_atoms.
    rewrite (bind_quiet get_self _ s s s eq_refl). rewrite Hn.
    rewrite (bind_quiet _ _ s _ s (structure_run s)).
    rewrite (bind_raises _ _ s TypeError s []
               (get_super_cell_matrix_no_cell _ s Hc Hs)).
    reflexivity.
Qed.

(* ================================================================== *)
(** * More on get_relative_trajectory and crop_trajectory *)
(* ================================================================== *)

Lemma last_samples_twice {A : Type} (n m : nat) (l : list A) :
  last_samples m (last_samples n l) = last_samples (Nat.min n m) l.
Proof.
  unfold last_samples. rewrite skipn_skipn, length_skipn. f_equal. lia.
Qed.

Lemma slice_from_twice {A : Type} (n m : Z) (l : list A) :
  (0 < n)%Z -> (0 < m)%Z ->
  slice_from (- m) (slice_from (- n) l) = slice_from (- Z.min n m) l.
Proof.
  intros Hn Hm. rewrite !slice_from_last by lia.
  rewrite last_samples_twice. f_equal. lia.
Qed.

Lemma slice3_from_twice (n m : Z) (a : ndarray3) :
  (0 < n)%Z -> (0 < m)%Z ->
  slice3_from (- m) (slice3_from (- n) a) = slice3_from (- Z.min n m) a.
Proof.
  intros Hn Hm. unfold slice3_from. cbn [frames shape1 shape2].
  rewrite slice_from_twice by assumption. reflexivity.
Qed.

Lemma crop_state_twice (n m : Z) (s : Dynamics) :
  (0 < n)%Z -> (0 < m)%Z ->
  crop_state m (crop_state n s) = crop_state (Z.min n m) s.
Proof.
  intros Hn Hm. unfold crop_state.
  cbn [_time _trajectory _energy _velocity _super_cell _time_step_average
       _super_cell_matrix _number_of_atoms _mean_displacement_matrix _structure].
  f_equal.
  - destruct (_time s); cbn [option_map]; [|reflexivity].
    rewrite slice_from_twice by assumption. reflexivity.
  - destruct (_trajectory s); cbn [option_map]; [|reflexivity].
    rewrite slice3_from_twice by assumption. reflexivity.
  - destruct (_energy s); cbn [option_map]; [|reflexivity].
    rewrite slice_from_twice by assumption. reflexivity.
  - destruct (_velocity s); cbn [option_map]; [|reflexivity].
    rewrite slice3_from_twice by assumption. reflexivity.
Qed.

Lemma length_slice_from_last {A : Type} (n : Z) (l : list A) :
  (0 < n)%Z -> length (slice_from (- n) l) = Nat.min (Z.to_nat n) (length l).
Proof.
  intros Hn. rewrite slice_from_last by exact Hn.
  unfold last_samples. rewrite length_skipn. lia.
Qed.

Section MoreOnCropping.

Variable relativize_trajectory : M ndarray3.

(** X9.  The lattice-drift removal is run at most once: a call of
    [get_relative_trajectory] that returns has cached its result, and every
    further call returns the same array without running the removal again,
    without printing and without touching the object.  On an object with an
    empty cache the first call is one run of the removal followed by the
    store. *)
Theorem relative_trajectory_is_computed_once
    (s s1 : Dynamics) (r : ndarray3) (o : list message) :
  get_relative_trajectory relativize_trajectory s = (Returns r, s1, o) ->
  get_relative_trajectory relativize_trajectory s1 = (Returns r, s1, [])
  /\ (_relative_trajectory s = None ->
      exists s0,
        relativize_trajectory s = (Returns r, s0, o)
        /\ s1 = with_relative_trajectory (Some r) s0).
Proof.
  unfold get_relative_trajectory at 1. intros H.
  rewrite (bind_quiet get_self _ s s s eq_refl) in H.
  destruct (_relative_trajectory s) as [r0|] eqn:Hc.
  - unfold ret in H. inversion H; subst. split; [|discriminate].
    unfold get_relative_trajectory.
    rewrite (bind_quiet get_self _ s1 s1 s1 eq_refl). rewrite Hc. reflexivity.
  - apply bind_returns_inv in H.
    destruct H as (r' & s0 & o1 & o2 & Hrel & H & Ho).
    unfold bind, modify, ret in H. cbn in H. inversion H; subst.
    split.
    + unfold get_relative_trajectory.
      rewrite (bind_quiet get_self _ _ _ _ eq_refl). reflexivity.
    + intros _. exists s0. rewrite app_nil_r. split; [exact Hrel|reflexivity].
Qed.

(** X10.  Cropping composes: on an object that holds a velocity, a crop to
    the last [n] steps followed by a crop to the last [m] steps leaves the
    object exactly as one crop to the smaller of the two does (in
    particular, repeating a crop changes nothing further). *)
Theorem cropping_twice_is_cropping_to_the_shorter
    (s : Dynamics) (v : ndarray3) (n m : Z) :
  _velocity s = Some v ->
  (0 < n)%Z -> (0 < m)%Z ->
  exists s' o1 o2,
    (crop_trajectory relativize_trajectory (Some n) ;;
     crop_trajectory relativize_trajectory (Some m)) s
    = (Returns tt, s', o1)
    /\ crop_trajectory relativize_trajectory (Some (Z.min n m)) s
       = (Returns tt, s', o2).
Proof.
  intros Hv Hn Hm.
  exists (crop_state (Z.min n m) s).
  eexists. eexists. split.
  - rewrite (bind_returns _ _ s tt _ _
               (crop_trajectory_run relativize_trajectory n s v Hv ltac:(lia))).
    rewrite (crop_trajectory_run relativize_trajectory m (crop_state n s)
               (slice3_from (- n) v)).
    + rewrite crop_state_twice by assumption. reflexivity.
    + cbn. rewrite Hv. reflexivity.
    + lia.
  - apply (crop_trajectory_run relativize_trajectory _ s v Hv). lia.
Qed.

(** X11.  Cropping keeps the series aligned: when the velocity and every
    other series that is present have one common length, then after a crop
    to the last [n > 0] steps they again have one common length, the
    smaller of [n] and the old length, and this is the number the closing
    line 'Using k steps' reports. *)
Theorem crop_keeps_series_aligned
    (s : Dynamics) (v : ndarray3) (n : Z) (len : nat) :
  _velocity s = Some v ->
  (0 < n)%Z ->
  shape0 v = len ->
  (forall t, _time s = Some t -> length t = len) ->
  (forall e, _energy s = Some e -> length e = len) ->
  (forall tr, _trajectory s = Some tr -> shape0 tr = len) ->
  exists s' out,
    crop_trajectory relativize_trajectory (Some n) s = (Returns tt, s', out)
    /\ (exists v', _velocity s' = Some v'
                   /\ shape0 v' = Nat.min (Z.to_nat n) len)
    /\ (forall t', _time s' = Some t' ->
                   length t' = Nat.min (Z.to_nat n) len)
    /\ (forall e', _energy s' = Some e' ->
                   length e' = Nat.min (Z.to_nat n) len)
    /\ (forall tr', _trajectory s' = Some tr' ->
                    shape0 tr' = Nat.min (Z.to_nat n) len)
    /\ last out Warning_larger_than_available
       = Using_steps (Nat.min (Z.to_nat n) len).
Proof.
  intros Hv Hn Hlen Ht He Htr. subst len.
  exists (crop_state n s), (crop_output n s v).
  split; [apply crop_trajectory_run; [exact Hv|lia]|].
  unfold crop_state.
  cbn [_time _trajectory _energy _velocity].
  split; [|split; [|split; [|split]]].
  - rewrite Hv. cbn [option_map]. eexists. split; [reflexivity|].
    unfold shape0, slice3_from. cbn [frames].
    rewrite length_slice_from_last by exact Hn. reflexivity.
  - intros t' H. destruct (_time s) as [t|]; [|discriminate].
    cbn [option_map] in H. inversion H; subst.
    rewrite length_slice_from_last by exact Hn. rewrite (Ht t eq_refl).
    reflexivity.
  - intros e' H. destruct (_energy s) as [e|]; [|discriminate].
    cbn [option_map] in H. inversion H; subst.
    rewrite length_slice_from_last by exact Hn. rewrite (He e eq_refl).
    reflexivity.
  - intros tr' H. destruct (_trajectory s) as [tr|]; [|discriminate].
    cbn [option_map] in H. inversion H; subst.
    change (shape0 (slice3_from (- n) tr))
      with (length (slice_from (- n) (frames tr))).
    rewrite length_slice_from_last by exact Hn.
    rewrite <- (Htr tr eq_refl). reflexivity.
  - unfold crop_output. rewrite !app_assoc. rewrite last_last.
    unfold shape0, slice3_from. cbn [frames].
    rewrite length_slice_from_last by exact Hn. reflexivity.
Qed.

End MoreOnCropping.

(* ================================================================== *)
(** * More on autocorrelation *)
(* ================================================================== *)

Lemma Cadd_C0_r (z : complex) : Cadd z C0 = z.
Proof. apply complex_eq; cbn; ring. Qed.

Lemma Cadd_C0_l (z : complex) : Cadd C0 z = z.
Proof. apply complex_eq; cbn; ring. Qed.

Lemma Cadd_assoc (a b c : complex) : Cadd a (Cadd b c) = Cadd (Cadd a b) c.
Proof. apply complex_eq; cbn; ring. Qed.

Lemma Csum_app (l1 l2 : list complex) :
  Csum (l1 ++ l2) = Cadd (Csum l1) (Csum l2).
Proof.
  induction l1 as [|z l1 IH]; cbn [app Csum fold_right].
  - fold (Csum l2). rewrite Cadd_C0_l. reflexivity.
  - fold (Csum (l1 ++ l2)). fold (Csum l1). fold (Csum l2).
    rewrite IH. apply Cadd_assoc.
Qed.

Lemma Csum_zeros {A : Type} (f : A -> complex) (l : list A) :
  (forall a, In a l -> f a = C0) -> Csum (map f l) = C0.
Proof.
  induction l as [|a l IH]; intros H; [reflexivity|].
  cbn [map Csum fold_right]. fold (Csum (map f l)).
  rewrite (H a (or_introl eq_refl)), IH, Cadd_C0_l; [reflexivity|].
  intros b Hb. apply H. right. exact Hb.
Qed.

Lemma Csum_conj (l : list complex) : Cconj (Csum l) = Csum (map Cconj l).
Proof.
  induction l as [|z l IH]; [apply complex_eq; cbn; ring|].
  cbn [map Csum fold_right]. fold (Csum l). fold (Csum (map Cconj l)).
  rewrite <- IH. apply complex_eq; cbn; ring.
Qed.

Lemma map_of_nth_seq {A B : Type} (h : A -> B) (d : A) (x : list A) :
  map (fun m => h (nth m x d)) (seq 0 (length x)) = map h x.
Proof.
  rewrite <- (map_map (fun m => nth m x d) h), map_nth_seq. reflexivity.
Qed.

Lemma Csum_squared_moduli (x : list complex) :
  Csum (map (fun z => Cmul z (Cconj z)) x) = RtoC (sum_of_squared_moduli x).
Proof.
  unfold sum_of_squared_moduli.
  induction x as [|z x IH]; [reflexivity|].
  cbn [map Csum Rsum fold_right].
  fold (Csum (map (fun z => Cmul z (Cconj z)) x)). fold (Rsum (map Cnorm2 x)).
  rewrite IH. apply complex_eq; unfold Cnorm2; cbn; ring.
Qed.

(** the product at lag 0 *)
Lemma correlate_at_zero (x : list complex) :
  correlate_at x x 0 = RtoC (sum_of_squared_moduli x).
Proof.
  unfold correlate_at. rewrite <- Csum_squared_moduli.
  rewrite <- (map_of_nth_seq (fun z => Cmul z (Cconj z)) C0 x). f_equal.
  apply map_ext_in. intros m Hm. apply in_seq in Hm.
  cbv zeta. rewrite Z.add_0_r, Nat2Z.id.
  destruct (0 <=? Z.of_nat m)%Z eqn:E1; [|apply Z.leb_gt in E1; lia].
  destruct (Z.of_nat m <? Z.of_nat (length x))%Z eqn:E2;
    [|apply Z.ltb_ge in E2; lia].
  reflexivity.
Qed.

Lemma autocorrelation_run (x : list complex) :
  x <> [] ->
  autocorrelation x
  = Returns (map (fun j => Cdiv_real
                             (correlate_at x x
                                (Z.of_nat j - Z.of_nat (length x / 2)))
                             (INR (length x)))
                 (seq 0 (length x))).
Proof.
  intros Hx. unfold autocorrelation, np_correlate_same.
  destruct x as [|a x]; [contradiction Hx; reflexivity|].
  cbn [and_then]. rewrite map_map. reflexivity.
Qed.

Lemma half_below (n : nat) : (0 < n)%nat -> (n / 2 < n)%nat.
Proof. intros H. apply Nat.div_lt; lia. Qed.

(** X12.  The autocorrelation keeps the length of the series, and its
    centre entry, index [n/2], is the product at lag 0: the mean of the
    squared moduli of the samples, a real number that is not negative. *)
Theorem autocorrelation_centre_is_mean_square (x : list complex) :
  x <> [] ->
  exists c,
    autocorrelation x = Returns c
    /\ length c = length x
    /\ nth (length x / 2) c C0
       = RtoC (sum_of_squared_moduli x / INR (length x))
    /\ 0 <= sum_of_squared_moduli x / INR (length x).
Proof.
  intros Hx. eexists. split; [apply autocorrelation_run; exact Hx|].
  assert (Hlen : (0 < length x)%nat).
  { destruct x; [contradiction Hx; reflexivity|cbn; lia]. }
  split; [rewrite length_map, length_seq; reflexivity|]. split.
  - set (f := fun j : nat => _).
    rewrite (nth_indep _ C0 (f 0%nat))
      by (rewrite length_map, length_seq; apply half_below; exact Hlen).
    rewrite map_nth, seq_nth by (apply half_below; exact Hlen).
    unfold f. cbn [Nat.add]. rewrite Z.sub_diag, correlate_at_zero.
    apply complex_eq; cbn; unfold Rdiv; ring.
  - apply Rmult_le_pos.
    + unfold sum_of_squared_moduli. clear.
      induction x as [|z x IH]; cbn; [lra|].
      unfold Cnorm2 at 1. fold (Rsum (map Cnorm2 x)). nra.
    + left. apply Rinv_0_lt_compat. apply lt_0_INR. exact Hlen.
Qed.

Lemma Cconj_mul_conj (a b : complex) :
  Cconj (Cmul a (Cconj b)) = Cmul b (Cconj a).
Proof. apply complex_eq; cbn; ring. Qed.

(** the sliding product at a lag [k >= 0], over the overlap only *)
Lemma correlate_at_forward (x : list complex) (k : nat) :
  correlate_at x x (Z.of_nat k)
  = Csum (map (fun j => Cmul (nth (j + k) x C0) (Cconj (nth j x C0)))
              (seq 0 (length x - k))).
Proof.
  unfold correlate_at.
  replace (seq 0 (length x))
    with (seq 0 (length x - k) ++ seq (length x - k) (length x - (length x - k)))
    by (rewrite <- seq_app; f_equal; lia).
  rewrite map_app, Csum_app.
  rewrite (Csum_zeros _ (seq (length x - k) _)).
  - rewrite Cadd_C0_r. f_equal. apply map_ext_in. intros m Hm.
    apply in_seq in Hm. cbv zeta.
    destruct (0 <=? Z.of_nat m + Z.of_nat k)%Z eqn:E1;
      [|apply Z.leb_gt in E1; lia].
    destruct (Z.of_nat m + Z.of_nat k <? Z.of_nat (length x))%Z eqn:E2;
      [|apply Z.ltb_ge in E2; lia].
    cbn [andb]. rewrite <- Nat2Z.inj_add, Nat2Z.id. reflexivity.
  - intros m Hm. apply in_seq in Hm. cbv zeta.
    destruct (Z.of_nat m + Z.of_nat k <? Z.of_nat (length x))%Z eqn:E2;
      [apply Z.ltb_lt in E2; lia|].
    rewrite andb_false_r. reflexivity.
Qed.

Lemma seq_from (k n : nat) : seq k n = map (fun j => (k + j)%nat) (seq 0 n).
Proof.
  induction k as [|k IH].
  - rewrite map_id. reflexivity.
  - rewrite <- seq_shift, IH, map_map. reflexivity.
Qed.

(** ... and at the lag [- k] *)
Lemma correlate_at_backward (x : list complex) (k : nat) :
  correlate_at x x (- Z.of_nat k)
  = Csum (map (fun j => Cmul (nth j x C0) (Cconj (nth (j + k) x C0)))
              (seq 0 (length x - k))).
Proof.
  unfold correlate_at.
  replace (seq 0 (length x))
    with (seq 0 (Nat.min k (length x))
          ++ seq (Nat.min k (length x)) (length x - k))
    by (rewrite <- seq_app; f_equal; lia).
  rewrite map_app, Csum_app.
  rewrite (Csum_zeros _ (seq 0 _)).
  - rewrite Cadd_C0_l.
    destruct (Nat.le_gt_cases (length x) k) as [Hk|Hk].
    + replace (length x - k)%nat with 0%nat by lia. reflexivity.
    + replace (Nat.min k (length x)) with k by lia.
      rewrite (seq_from k), map_map. f_equal. apply map_ext_in.
      intros j Hj. apply in_seq in Hj. cbv zeta.
      replace (Z.of_nat (k + j) + - Z.of_nat k)%Z with (Z.of_nat j) by lia.
      destruct (0 <=? Z.of_nat j)%Z eqn:E1; [|apply Z.leb_gt in E1; lia].
      destruct (Z.of_nat j <? Z.of_nat (length x))%Z eqn:E2;
        [|apply Z.ltb_ge in E2; lia].
      cbn [andb]. rewrite Nat2Z.id.
      replace (k + j)%nat with (j + k)%nat by lia. reflexivity.
  - intros m Hm. apply in_seq in Hm. cbv zeta.
    destruct (0 <=? Z.of_nat m + - Z.of_nat k)%Z eqn:E1;
      [apply Z.leb_le in E1; lia|].
    reflexivity.
Qed.

Lemma correlate_at_hermitian (x : list complex) (k : nat) :
  correlate_at x x (Z.of_nat k) = Cconj (correlate_at x x (- Z.of_nat k)).
Proof.
  rewrite correlate_at_forward, correlate_at_backward, Csum_conj, map_map.
  f_equal. apply map_ext. intros j. rewrite Cconj_mul_conj. reflexivity.
Qed.

Lemma Cconj_div_real (z : complex) (r : R) :
  Cconj (Cdiv_real z r) = Cdiv_real (Cconj z) r.
Proof. apply complex_eq; cbn; unfold Rdiv; ring. Qed.

Lemma Cconj_involutive (z : complex) : Cconj (Cconj z) = z.
Proof. apply complex_eq; cbn; ring. Qed.

(** the entries of the autocorrelation *)
Lemma autocorrelation_entry (x c : list complex) (j : nat) :
  autocorrelation x = Returns c ->
  (j < length x)%nat ->
  nth j c C0
  = Cdiv_real (correlate_at x x (Z.of_nat j - Z.of_nat (length x / 2)))
              (INR (length x)).
Proof.
  intros Hrun Hj.
  assert (Hx : x <> []) by (intros ->; cbn in Hj; lia).
  rewrite (autocorrelation_run x Hx) in Hrun. injection Hrun as <-.
  set (f := fun j : nat => _).
  rewrite (nth_indep _ C0 (f 0%nat))
    by (rewrite length_map, length_seq; exact Hj).
  rewrite map_nth, seq_nth by exact Hj. reflexivity.
Qed.

(** X13.  The autocorrelation is Hermitian about its centre: the entry [k]
    places after index [n/2] is the complex conjugate of the entry [k]
    places before it. *)
Theorem autocorrelation_is_hermitian (x c : list complex) (k : nat) :
  autocorrelation x = Returns c ->
  (k <= length x / 2)%nat ->
  (length x / 2 + k < length x)%nat ->
  nth (length x / 2 + k) c C0 = Cconj (nth (length x / 2 - k) c C0).
Proof.
  intros Hrun Hk Hn.
  rewrite !(autocorrelation_entry x c _ Hrun) by lia.
  replace (Z.of_nat (length x / 2 + k) - Z.of_nat (length x / 2))%Z
    with (Z.of_nat k) by lia.
  replace (Z.of_nat (length x / 2 - k) - Z.of_nat (length x / 2))%Z
    with (- Z.of_nat k)%Z by lia.
  rewrite Cconj_div_real, correlate_at_hermitian. reflexivity.
Qed.

Lemma Csum_real {A : Type} (f : A -> complex) (l : list A) :
  (forall a, Im (f a) = 0) -> Im (Csum (map f l)) = 0.
Proof.
  intros H. induction l as [|a l IH]; [reflexivity|].
  cbn [map Csum fold_right]. fold (Csum (map f l)).
  cbn [Cadd Im]. rewrite H, IH. ring.
Qed.

Lemma nth_real (x : list complex) (k : nat) :
  Forall (fun z => Im z = 0) x -> Im (nth k x C0) = 0.
Proof.
  intros H. destruct (Nat.lt_ge_cases k (length x)) as [Hk|Hk].
  - rewrite Forall_forall in H. apply H. apply nth_In. exact Hk.
  - rewrite nth_overflow by exact Hk. reflexivity.
Qed.

Lemma correlate_at_real (x : list complex) (lag : Z) :
  Forall (fun z => Im z = 0) x -> Im (correlate_at x x lag) = 0.
Proof.
  intros H. unfold correlate_at. apply Csum_real. intros m. cbv zeta.
  destruct ((0 <=? Z.of_nat m + lag) && (Z.of_nat m + lag <? Z.of_nat (length x)))%Z;
    [|reflexivity].
  cbn [Cmul Cconj Re Im]. rewrite !(nth_real x _ H). ring.
Qed.

(** X14.  The autocorrelation of a real series is real, and even about
    its centre: the entries [k] places after and before index [n/2] are
    equal. *)
Theorem autocorrelation_of_a_real_series (x c : list complex) :
  Forall (fun z => Im z = 0) x ->
  autocorrelation x = Returns c ->
  Forall (fun z => Im z = 0) c
  /\ forall k,
       (k <= length x / 2)%nat ->
       (length x / 2 + k < length x)%nat ->
       nth (length x / 2 + k) c C0 = nth (length x / 2 - k) c C0.
Proof.
  intros Hreal Hrun.
  assert (Hc : Forall (fun z => Im z = 0) c).
  { assert (Hx : x <> []).
    { intros ->. unfold autocorrelation in Hrun. cbn in Hrun. discriminate. }
    rewrite (autocorrelation_run x Hx) in Hrun. injection Hrun as <-.
    apply Forall_forall. intros z Hz. apply in_map_iff in Hz.
    destruct Hz as (j & <- & _). cbn [Cdiv_real Im].
    rewrite (correlate_at_real x _ Hreal). unfold Rdiv. ring. }
  split; [exact Hc|].
  intros k Hk Hn.
  rewrite !(autocorrelation_entry x c _ Hrun) by lia.
  replace (Z.of_nat (length x / 2 + k) - Z.of_nat (length x / 2))%Z
    with (Z.of_nat k) by lia.
  replace (Z.of_nat (length x / 2 - k) - Z.of_nat (length x / 2))%Z
    with (- Z.of_nat k)%Z by lia.
  rewrite correlate_at_hermitian.
  apply complex_eq; cbn [Cdiv_real Cconj Re Im]; [reflexivity|].
  rewrite (correlate_at_real x _ Hreal). unfold Rdiv. ring.
Qed.

(* ================================================================== *)
(** * More on fft_power *)
(* ================================================================== *)

(** the result of [fft_power] on a series that is not empty, with a pad
    length that is not negative and a time step that is not zero *)
Lemma fft_power_run (grid : list R) (x : list complex) (time_step : R) (pad : Z) :
  x <> [] -> (0 <= pad)%Z -> time_step <> 0 ->
  fft_power grid x time_step pad
  = Returns (fft_power_stages grid x time_step (Z.to_nat pad)).
Proof.
  intros Hx Hpad Hstep. unfold fft_power. rewrite (autocorrelation_run x Hx).
  cbn [and_then]. unfold np_pad_right.
  destruct (pad <? 0)%Z eqn:E; [apply Z.ltb_lt in E; lia|].
  cbn [and_then]. unfold fft_power_stages, interpolated_onto, sorted_spectrum,
    dft_frequency_axis, scaled_dft_magnitude, zero_padded,
    normalized_autocorrelation, centered_autocorrelation.
  rewrite map_map.
  set (padded := _ ++ repeat C0 (Z.to_nat pad)).
  assert (Hpadded : length padded <> 0%nat).
  { unfold padded. rewrite length_app, length_map, length_seq.
    destruct x; [contradiction Hx; reflexivity|cbn; lia]. }
  rewrite (np_fftfreq_run (length padded) time_step Hpadded Hstep).
  cbn [and_then].
  set (freqs := fftfreq_values (length padded) (1 / (INR (length padded) * time_step))).
  set (ps := map _ (np_fft padded)).
  assert (Hlen : length ps = length freqs).
  { unfold ps, freqs.
    rewrite length_map, length_np_fft, length_np_fftfreq. reflexivity. }
  assert (Hpos : (0 < length freqs)%nat).
  { unfold freqs. rewrite length_np_fftfreq. lia. }
  unfold np_interp.
  destruct (take_indices 0 freqs (np_argsort freqs)) as [|f0 rest] eqn:Exp.
  - apply (f_equal (@length R)) in Exp. unfold take_indices in Exp.
    rewrite length_map, length_np_argsort in Exp. cbn in Exp. lia.
  - rewrite <- Exp, (argsort_gathers_sorted_pairs freqs ps Hlen). reflexivity.
Qed.

Lemma fft_power_negative_padding
    (grid : list R) (x : list complex) (time_step : R) (pad : Z) :
  x <> [] -> (pad < 0)%Z -> fft_power grid x time_step pad = Raises ValueError.
Proof.
  intros Hx Hpad. unfold fft_power. rewrite (autocorrelation_run x Hx).
  cbn [and_then]. unfold np_pad_right.
  destruct (pad <? 0)%Z eqn:E; [reflexivity|apply Z.ltb_ge in E; lia].
Qed.

(** a time step of zero (the average of a series of one sample) leaves no
    frequency axis to build *)
Lemma fft_power_zero_time_step
    (grid : list R) (x : list complex) (pad : Z) :
  x <> [] -> (0 <= pad)%Z ->
  fft_power grid x 0 pad = Raises ZeroDivisionError.
Proof.
  intros Hx Hpad. unfold fft_power. rewrite (autocorrelation_run x Hx).
  cbn [and_then]. unfold np_pad_right.
  destruct (pad <? 0)%Z eqn:E; [apply Z.ltb_lt in E; lia|].
  cbn [and_then]. rewrite np_fftfreq_zero_step. reflexivity.
Qed.

(** a returning call was given a series and a pad length it accepts *)
Lemma fft_power_returns_inv
    (grid : list R) (x : list complex) (time_step : R) (pad : Z) (ps : list R) :
  fft_power grid x time_step pad = Returns ps -> x <> [] /\ (0 <= pad)%Z.
Proof.
  intros H. split.
  - intros ->. rewrite fft_power_of_empty_series in H. discriminate.
  - destruct (Z.lt_ge_cases pad 0) as [Hlt|Hge]; [|exact Hge].
    rewrite fft_power_negative_padding in H; [discriminate| |exact Hlt].
    intros ->. rewrite fft_power_of_empty_series in H. discriminate.
Qed.

(** X15.  [fft_power] refuses an empty series and a negative pad length
    with [ValueError]; for every other input with a non-zero time step it
    returns one value per point of the frequency grid (none for an empty
    grid). *)
Theorem fft_power_domain_and_length
    (grid : list R) (x : list complex) (time_step : R) (pad : Z) :
  (x = [] -> fft_power grid x time_step pad = Raises ValueError)
  /\ (x <> [] -> (pad < 0)%Z ->
      fft_power grid x time_step pad = Raises ValueError)
  /\ (x <> [] -> (0 <= pad)%Z -> time_step <> 0 ->
      exists ps,
        fft_power grid x time_step pad = Returns ps
        /\ length ps = length grid).
Proof.
  split; [|split].
  - intros ->. apply fft_power_of_empty_series.
  - apply fft_power_negative_padding.
  - intros Hx Hpad Hstep. eexists. split; [apply fft_power_run; assumption|].
    unfold fft_power_stages, interpolated_onto. apply length_map.
Qed.

Lemma interp_walk_nonneg (x : R) (rest : list (R * R)) :
  forall x0 y0,
    x0 <= x -> 0 <= y0 ->
    Forall (fun q => 0 <= snd q) rest ->
    0 <= interp_walk x x0 y0 rest.
Proof.
  induction rest as [|[x1 y1] rest IH]; intros x0 y0 Hx Hy Hall;
    cbn [interp_walk]; [exact Hy|].
  inversion Hall as [|q l Hq Hrest]; subst. cbn [snd] in Hq.
  destruct (Rlt_dec x x1) as [Hlt|Hge].
  - assert (Hd : 0 < x1 - x0) by lra.
    set (w := (x - x0) / (x1 - x0)).
    assert (Hw0 : 0 <= w).
    { unfold w. apply Rmult_le_pos; [lra|].
      left. apply Rinv_0_lt_compat. exact Hd. }
    assert (Hw1 : w <= 1).
    { unfold w. apply (Rmult_le_reg_r (x1 - x0)); [exact Hd|].
      unfold Rdiv. rewrite Rmult_assoc, Rinv_l by lra. lra. }
    replace (y0 + (y1 - y0) / (x1 - x0) * (x - x0))
      with ((1 - w) * y0 + w * y1) by (unfold w; field; lra).
    nra.
  - apply IH; [lra|exact Hq|exact Hrest].
Qed.

Lemma interp_points_nonneg (x : R) (pts : list (R * R)) :
  Forall (fun q => 0 <= snd q) pts -> 0 <= interp_points x pts.
Proof.
  intros Hall. destruct pts as [|[x0 y0] rest]; cbn [interp_points]; [lra|].
  inversion Hall as [|q l Hq Hrest]; subst. cbn [snd] in Hq.
  destruct (Rle_dec x x0) as [Hle|Hgt]; [exact Hq|].
  apply interp_walk_nonneg; [lra|exact Hq|exact Hrest].
Qed.

Lemma Cabs_nonneg (z : complex) : 0 <= Cabs z.
Proof. unfold Cabs. apply sqrt_pos. Qed.

(** X16.  With a positive time step no value that [fft_power] returns is
    negative: the interpolated power lies between magnitudes of the
    transform, which are not negative. *)
Theorem fft_power_is_not_negative
    (grid : list R) (x : list complex) (time_step : R) (pad : Z) (ps : list R) :
  0 < time_step ->
  fft_power grid x time_step pad = Returns ps ->
  Forall (fun p => 0 <= p) ps.
Proof.
  intros Hdt Hrun.
  destruct (fft_power_returns_inv _ _ _ _ _ Hrun) as [Hx Hpad].
  rewrite (fft_power_run grid x time_step pad Hx Hpad
             (Rgt_not_eq _ _ Hdt)) in Hrun.
  injection Hrun as <-.
  unfold fft_power_stages, interpolated_onto.
  apply Forall_forall. intros p Hp. apply in_map_iff in Hp.
  destruct Hp as (xi & <- & _).
  apply interp_points_nonneg. apply Forall_forall. intros q Hq.
  unfold sorted_spectrum in Hq. apply sort_by_In in Hq.
  destruct q as [f m]. apply in_combine_r in Hq. cbn [snd].
  unfold scaled_dft_magnitude in Hq. apply in_map_iff in Hq.
  destruct Hq as (z & <- & _).
  pose proof (Cabs_nonneg z). unfold Rdiv. 
  apply Rmult_le_pos; [apply Rmult_le_pos; lra|lra].
Qed.

Lemma Cscale_C0 (a : R) : Cscale C0 a = C0.
Proof. apply complex_eq; cbn; ring. Qed.

Lemma nth_map_scale (a : R) (k : nat) (x : list complex) :
  nth k (map (fun z => Cscale z a) x) C0 = Cscale (nth k x C0) a.
Proof.
  transitivity (nth k (map (fun z => Cscale z a) x) (Cscale C0 a)).
  - f_equal. symmetry. apply Cscale_C0.
  - apply (map_nth (fun z => Cscale z a)).
Qed.

Lemma Csum_scale {A : Type} (g : A -> complex) (c : R) (l : list A) :
  Csum (map (fun m => Cscale (g m) c) l) = Cscale (Csum (map g l)) c.
Proof.
  induction l as [|m l IH]; [symmetry; apply Cscale_C0|].
  cbn [map Csum fold_right].
  fold (Csum (map (fun m => Cscale (g m) c) l)). fold (Csum (map g l)).
  rewrite IH. apply complex_eq; cbn; ring.
Qed.

Lemma correlate_at_scale (a : R) (x : list complex) (lag : Z) :
  correlate_at (map (fun z => Cscale z a) x) (map (fun z => Cscale z a) x) lag
  = Cscale (correlate_at x x lag) (a * a).
Proof.
  unfold correlate_at. rewrite length_map, <- Csum_scale. f_equal.
  apply map_ext. intros m. cbv zeta.
  destruct ((0 <=? Z.of_nat m + lag) && (Z.of_nat m + lag <? Z.of_nat (length x)))%Z.
  - rewrite !nth_map_scale. apply complex_eq; cbn; ring.
  - symmetry. apply Cscale_C0.
Qed.

Lemma normalized_autocorrelation_scale (a : R) (x : list complex) :
  normalized_autocorrelation (map (fun z => Cscale z a) x)
  = map (fun z => Cscale z (a * a)) (normalized_autocorrelation x).
Proof.
  unfold normalized_autocorrelation, centered_autocorrelation.
  rewrite length_map, !map_map. apply map_ext. intros j.
  rewrite correlate_at_scale. apply complex_eq; cbn; unfold Rdiv; ring.
Qed.

Lemma zero_padded_scale (c : R) (pad : nat) (d : list complex) :
  zero_padded pad (map (fun z => Cscale z c) d)
  = map (fun z => Cscale z c) (zero_padded pad d).
Proof.
  unfold zero_padded. rewrite map_app. f_equal.
  induction pad as [|pad IH]; [reflexivity|].
  cbn [repeat map]. rewrite Cscale_C0, <- IH. reflexivity.
Qed.

Lemma np_fft_scale (c : R) (d : list complex) :
  np_fft (map (fun z => Cscale z c) d) = map (fun z => Cscale z c) (np_fft d).
Proof.
  unfold np_fft. rewrite length_map, map_map. apply map_ext. intros k.
  rewrite <- Csum_scale. f_equal. apply map_ext. intros m.
  rewrite nth_map_scale. apply complex_eq; cbn; ring.
Qed.

Lemma Cabs_scale (z : complex) (c : R) :
  0 <= c -> Cabs (Cscale z c) = c * Cabs z.
Proof.
  intros Hc. unfold Cabs, Cnorm2, Cscale. cbn [Re Im].
  replace (Re z * c * (Re z * c) + Im z * c * (Im z * c))
    with ((c * c) * (Re z * Re z + Im z * Im z)) by ring.
  rewrite sqrt_mult; [|nra|nra].
  rewrite sqrt_square by exact Hc. reflexivity.
Qed.

Lemma scaled_dft_magnitude_scale (c time_step : R) (d : list complex) :
  0 <= c ->
  scaled_dft_magnitude time_step (map (fun z => Cscale z c) d)
  = map (fun p => c * p) (scaled_dft_magnitude time_step d).
Proof.
  intros Hc. unfold scaled_dft_magnitude.
  rewrite np_fft_scale, !map_map. apply map_ext. intros z.
  rewrite (Cabs_scale z c Hc). unfold Rdiv. ring.
Qed.

Lemma sorted_spectrum_scale (c : R) (freqs mags : list R) :
  sorted_spectrum freqs (map (fun p => c * p) mags)
  = map (fun q => (fst q, c * snd q)) (sorted_spectrum freqs mags).
Proof.
  unfold sorted_spectrum. rewrite combine_map_right.
  symmetry.
  apply (sort_by_map fst fst (fun q : R * R => (fst q, c * snd q))).
  reflexivity.
Qed.

Lemma interp_walk_scale (c x : R) (rest : list (R * R)) :
  forall x0 y0,
    interp_walk x x0 (c * y0) (map (fun q => (fst q, c * snd q)) rest)
    = c * interp_walk x x0 y0 rest.
Proof.
  induction rest as [|[x1 y1] rest IH]; intros x0 y0;
    cbn [interp_walk map fst snd]; [reflexivity|].
  destruct (Rlt_dec x x1); [unfold Rdiv; ring|apply IH].
Qed.

Lemma interp_points_scale (c x : R) (pts : list (R * R)) :
  interp_points x (map (fun q => (fst q, c * snd q)) pts)
  = c * interp_points x pts.
Proof.
  destruct pts as [|[x0 y0] rest]; cbn [interp_points map fst snd]; [ring|].
  destruct (Rle_dec x x0); [reflexivity|apply interp_walk_scale].
Qed.

Lemma fft_power_stages_scale
    (grid : list R) (x : list complex) (time_step a : R) (pad : nat) :
  fft_power_stages grid (map (fun z => Cscale z a) x) time_step pad
  = map (fun p => a * a * p) (fft_power_stages grid x time_step pad).
Proof.
  unfold fft_power_stages. cbv zeta.
  rewrite normalized_autocorrelation_scale, zero_padded_scale.
  rewrite length_map.
  rewrite scaled_dft_magnitude_scale by nra.
  rewrite sorted_spectrum_scale.
  unfold interpolated_onto. rewrite map_map. apply map_ext. intros xi.
  apply interp_points_scale.
Qed.

(** X17.  The spectrum is quadratic in the amplitude: multiplying every
    sample of the series by a real factor [a] multiplies every value that
    [fft_power] returns by [a * a] (an all-zero series has an all-zero
    spectrum). *)
Theorem fft_power_scales_with_squared_amplitude
    (grid : list R) (x : list complex) (time_step : R) (pad : Z)
    (a : R) (ps : list R) :
  time_step <> 0 ->
  fft_power grid x time_step pad = Returns ps ->
  fft_power grid (map (fun z => Cscale z a) x) time_step pad
  = Returns (map (fun p => a * a * p) ps).
Proof.
  intros Hstep Hrun.
  destruct (fft_power_returns_inv _ _ _ _ _ Hrun) as [Hx Hpad].
  rewrite (fft_power_run grid x time_step pad Hx Hpad Hstep) in Hrun.
  injection Hrun as <-.
  rewrite fft_power_run.
  - rewrite fft_power_stages_scale. reflexivity.
  - intros H. apply Hx. destruct x; [reflexivity|discriminate].
  - exact Hpad.
  - exact Hstep.
Qed.

(* ================================================================== *)
(** * get_fourier_spectra_par_openmp and get_fft_spectra *)
(* ================================================================== *)

Section FourierMethod.

Variable correlation_par : list R -> list complex -> R -> Z -> Z -> list R.
Variable vq : ndarray2.
Variable parameters : Parameters.
Variable correlation : CorrelationParameters.

(** the loop body of [get_fourier_spectra_par_openmp] *)
Let fourier_body :=
  fun (i : nat) (psd_vector : list (list R)) =>
    dt <- get_time_step_average ;;
    let ps := correlation_par (frequency_range parameters) (column vq i) dt
                (correlation_function_step correlation)
                (integration_method correlation) in
    progress_bar (INR (i + 1) / INR (ncols vq)) "Fourier" ;;
    ret (psd_vector ++ [ps]).

Lemma fourier_loop (t : list R) (l : list nat) :
  forall (s : Dynamics) (acc : list (list R)),
    _time s = Some t ->
    for_acc l acc fourier_body s
    = (Returns (acc ++ map (fun i => correlation_par (frequency_range parameters)
                                       (column vq i) (time_step_value s t)
                                       (correlation_function_step correlation)
                                       (integration_method correlation))
                           l),
       match l with [] => s | _ => time_step_state s t end,
       map (fun i => progress_line (INR (i + 1) / INR (ncols vq)) "Fourier") l).
Proof.
  induction l as [|i l IH]; intros s acc Ht.
  - cbn. rewrite app_nil_r. reflexivity.
  - cbn [for_acc map].
    assert (Hb : fourier_body i acc s
                 = (Returns (acc ++ [correlation_par (frequency_range parameters)
                                       (column vq i) (time_step_value s t)
                                       (correlation_function_step correlation)
                                       (integration_method correlation)]),
                    time_step_state s t,
                    [progress_line (INR (i + 1) / INR (ncols vq)) "Fourier"])).
    { unfold fourier_body.
      rewrite (bind_quiet _ _ _ _ _ (get_time_step_average_run s t Ht)).
      reflexivity. }
    rewrite (bind_returns _ _ _ _ _ _ Hb).
    rewrite (IH (time_step_state s t)) by (rewrite time_step_state_time; exact Ht).
    destruct (time_step_state_stable s t) as [Hs Hv]. rewrite Hs, Hv.
    rewrite <- app_assoc. cbn [app].
    destruct l; reflexivity.
Qed.

Lemma fourier_spectra_never_exit :
  never_exits (get_fourier_spectra_par_openmp correlation_par vq parameters
                 correlation).
Proof.
  unfold get_fourier_spectra_par_openmp.
  apply never_exits_bind; [apply never_exits_print|intros _].
  apply never_exits_bind; [|intros ?; apply never_exits_ret].
  apply never_exits_for_acc. intros i acc.
  apply never_exits_bind; [apply never_exits_get_time_step_average|intros dt].
  apply never_exits_bind; [apply never_exits_print|intros _].
  apply never_exits_ret.
Qed.

(** X18.  The Fourier entry point has no check of its own and never leaves
    through [exit()], however short the series.  With a time series
    loaded it returns one spectrum of the correlation kernel per column of
    [vq], all for the one average time step, stacked, transposed and
    scaled; it prints the progress 0 and then [(i+1)/columns] after each
    column. *)
Theorem fourier_spectra_of_every_mode (s : Dynamics) :
  fst (fst (get_fourier_spectra_par_openmp correlation_par vq parameters
              correlation s)) <> SystemExit
  /\ forall t,
       _time s = Some t ->
       get_fourier_spectra_par_openmp correlation_par vq parameters
         correlation s
       = (Returns
            (stack_and_scale
               (map (fun i => correlation_par (frequency_range parameters)
                                (column vq i) (time_step_value s t)
                                (correlation_function_step correlation)
                                (integration_method correlation))
                    (seq 0 (ncols vq)))),
          match ncols vq with O => s | _ => time_step_state s t end,
          progress_line 0 "Fourier"
          :: map (fun i => progress_line (INR (i + 1) / INR (ncols vq))
                                         "Fourier")
                 (seq 0 (ncols vq))).
Proof.
  split; [apply fourier_spectra_never_exit|].
  intros t Ht. unfold get_fourier_spectra_par_openmp.
  unfold progress_bar at 1.
  rewrite (bind_returns _ _ s tt s [progress_line 0 "Fourier"] eq_refl).
  rewrite (bind_returns _ _ _ _ _ _ (fourier_loop t _ s [] Ht)).
  cbn [app ret]. rewrite app_nil_r.
  destruct (ncols vq); reflexivity.
Qed.

End FourierMethod.

Section FftMethod.

Variable vq : ndarray2.
Variable parameters : Parameters.

(** the loop body of [get_fft_spectra] *)
Let fft_body :=
  fun (i : nat) (psd_vector : list (list R)) =>
    dt <- get_time_step_average ;;
    ps <- lift (fft_power (frequency_range parameters) (column vq i) dt
                          (zero_padding parameters)) ;;
    progress_bar (INR (i + 1) / INR (ncols vq)) "FFT" ;;
    ret (psd_vector ++ [ps]).

Lemma column_not_empty (i : nat) : rows vq <> [] -> column vq i <> [].
Proof.
  unfold column. destruct (rows vq); [congruence|discriminate].
Qed.

Lemma fft_loop (t : list R) (l : list nat) :
  rows vq <> [] ->
  (0 <= zero_padding parameters)%Z ->
  forall (s : Dynamics) (acc : list (list R)),
    _time s = Some t ->
    time_step_value s t <> 0 ->
    for_acc l acc fft_body s
    = (Returns (acc ++ map (fun i => fft_power_stages (frequency_range parameters)
                                       (column vq i) (time_step_value s t)
                                       (Z.to_nat (zero_padding parameters)))
                           l),
       match l with [] => s | _ => time_step_state s t end,
       map (fun i => progress_line (INR (i + 1) / INR (ncols vq)) "FFT") l).
Proof.
  intros Hrows Hpad.
  induction l as [|i l IH]; intros s acc Ht Hstep.
  - cbn. rewrite app_nil_r. reflexivity.
  - cbn [for_acc map].
    assert (Hb : fft_body i acc s
                 = (Returns (acc ++ [fft_power_stages (frequency_range parameters)
                                       (column vq i) (time_step_value s t)
                                       (Z.to_nat (zero_padding parameters))]),
                    time_step_state s t,
                    [progress_line (INR (i + 1) / INR (ncols vq)) "FFT"])).
    { unfold fft_body.
      rewrite (bind_quiet _ _ _ _ _ (get_time_step_average_run s t Ht)).
      rewrite (fft_power_run _ _ _ _ (column_not_empty i Hrows) Hpad Hstep).
      reflexivity. }
    rewrite (bind_returns _ _ _ _ _ _ Hb).
    destruct (time_step_state_stable s t) as [Hs Hv].
    rewrite (IH (time_step_state s t))
      by (rewrite ?time_step_state_time, ?Hv; assumption).
    rewrite Hs, Hv.
    rewrite <- app_assoc. cbn [app].
    destruct l; reflexivity.
Qed.

(** the line about the padding, printed when the pad length is not 0 *)
Let padding_line : list message :=
  if (zero_padding parameters =? 0)%Z then []
  else [Padding_with_zeros (zero_padding parameters)].

(** X19.  With a time series loaded, at least one time step in [vq] and a
    pad length that is not negative, the FFT entry point returns, for
    every column of [vq], what [fft_power] returns for that column, the
    average time step and the configured pad length, one value per grid
    point, stacked, transposed and scaled.  It prints 'Padding with k
    zeros' only for a pad length other than 0, then the progress 0 and
    [(i+1)/columns] after each column. *)
Theorem fft_spectra_of_every_mode (s : Dynamics) (t : list R) :
  _time s = Some t ->
  rows vq <> [] ->
  (0 <= zero_padding parameters)%Z ->
  time_step_value s t <> 0 ->
  exists spectra,
    Forall2 (fun i ps =>
               fft_power (frequency_range parameters) (column vq i)
                         (time_step_value s t) (zero_padding parameters)
               = Returns ps
               /\ length ps = length (frequency_range parameters))
            (seq 0 (ncols vq)) spectra
    /\ get_fft_spectra vq parameters s
       = (Returns (stack_and_scale spectra),
          match ncols vq with O => s | _ => time_step_state s t end,
          padding_line
          ++ progress_line 0 "FFT"
             :: map (fun i => progress_line (INR (i + 1) / INR (ncols vq)) "FFT")
                    (seq 0 (ncols vq))).
Proof.
  intros Ht Hrows Hpad Hstep.
  exists (map (fun i => fft_power_stages (frequency_range parameters)
                          (column vq i) (time_step_value s t)
                          (Z.to_nat (zero_padding parameters)))
              (seq 0 (ncols vq))).
  split.
  - generalize (seq 0 (ncols vq)). intros l.
    induction l as [|i l IH]; cbn [map]; constructor; [|exact IH].
    split; [apply fft_power_run;
            [apply column_not_empty; exact Hrows|exact Hpad|exact Hstep]|].
    unfold fft_power_stages, interpolated_onto. apply length_map.
  - unfold get_fft_spectra, padding_line.
    assert (Hfirst :
              (if (zero_padding parameters =? 0)%Z then ret tt
               else print (Padding_with_zeros (zero_padding parameters))) s
              = (Returns tt, s,
                 if (zero_padding parameters =? 0)%Z then []
                 else [Padding_with_zeros (zero_padding parameters)])).
    { destruct (zero_padding parameters =? 0)%Z; reflexivity. }
    rewrite (bind_returns _ _ _ _ _ _ Hfirst).
    unfold progress_bar at 1.
    rewrite (bind_returns _ _ s tt s [progress_line 0 "FFT"] eq_refl).
    rewrite (bind_returns _ _ _ _ _ _ (fft_loop t _ Hrows Hpad s [] Ht Hstep)).
    cbn [app ret]. rewrite app_nil_r.
    destruct (ncols vq); reflexivity.
Qed.

End FftMethod.

(* ================================================================== *)
(** * Stacking the spectra *)
(* ================================================================== *)

Lemma nth_map_in_range {A B : Type} (g : A -> B) (l : list A) (k : nat)
    (d : A) (d' : B) :
  (k < length l)%nat -> nth k (map g l) d' = g (nth k l d).
Proof.
  intros Hk. rewrite (nth_indep _ d' (g d)) by (rewrite length_map; exact Hk).
  apply map_nth.
Qed.

(** X20.  [np.array(psd_vector).T * unit_conversion]: for spectra of one
    length [n], the result has [n] rows (one per frequency) of one entry
    per mode, and the entry of frequency [f] and mode [i] is the value of
    the spectrum of mode [i] at frequency [f] times the unit conversion
    constant. *)
Theorem stacked_spectra_are_transposed_and_scaled
    (psd_vector : list (list R)) (n f i : nat) :
  Forall (fun ps => length ps = n) psd_vector ->
  (f < n)%nat ->
  (i < length psd_vector)%nat ->
  length (stack_and_scale psd_vector) = n
  /\ length (nth f (stack_and_scale psd_vector) []) = length psd_vector
  /\ nth i (nth f (stack_and_scale psd_vector) []) 0
     = nth f (nth i psd_vector []) 0 * unit_conversion.
Proof.
  intros Hall Hf Hi.
  destruct psd_vector as [|r rest]; [cbn in Hi; lia|].
  assert (Hr : length r = n) by (inversion Hall; assumption).
  set (m := r :: rest) in *.
  unfold stack_and_scale.
  change (np_transpose m)
    with (map (fun k => map (fun row => nth k row 0) m) (seq 0 (length r))).
  rewrite Hr.
  split; [rewrite !length_map, length_seq; reflexivity|].
  rewrite (nth_map_in_range _ _ f [] [])
    by (rewrite length_map, length_seq; exact Hf).
  rewrite (nth_map_in_range _ _ f 0%nat [])
    by (rewrite length_seq; exact Hf).
  rewrite seq_nth by exact Hf. cbn [Nat.add].
  split; [rewrite !length_map; reflexivity|].
  rewrite (nth_map_in_range _ _ i 0 0) by (rewrite length_map; exact Hi).
  rewrite (nth_map_in_range _ _ i [] 0) by exact Hi.
  reflexivity.
Qed.
(* ================================================================== *)
(** * Buffers that a failed call leaves behind *)
(* ================================================================== *)

Section Buffers.

Variable relativize_trajectory : M ndarray3.
Variable uninitialized : nat -> nat -> nat -> complex.

Lemma holds_velocity_get_relative_trajectory :
  preserves holds_velocity (get_relative_trajectory relativize_trajectory).
Proof.
  intros s HP. destruct HP as [[r Hr] Hb].
  unfold get_relative_trajectory.
  rewrite (bind_quiet get_self _ s s s eq_refl). rewrite Hr.
  split; [exists r; exact Hr|exact Hb].
Qed.

Lemma holds_velocity_differentiate (i j : nat) :
  preserves holds_velocity (differentiate relativize_trajectory i j).
Proof.
  unfold differentiate.
  apply preserves_bind; [apply holds_velocity_get_relative_trajectory|intros r].
  apply preserves_bind; [unfold get_coord; preserves|intros f].
  apply preserves_bind.
  { apply preserves_get_time_step_average. intros x s H. exact H. }
  intros h.
  apply preserves_bind; [unfold np_gradient; preserves|intros g].
  apply preserves_bind; [unfold velocity_buffer; preserves|intros buf].
  apply preserves_bind; [unfold set_coord; preserves|intros buf'].
  apply preserves_modify. intros s [Hr _].
  split; [exact Hr|exists buf'; reflexivity].
Qed.

(** the part of the property [velocity] that follows the allocation of
    the buffer *)
Lemma holds_velocity_fill :
  preserves holds_velocity
    (n <- get_number_of_atoms ;;
     for_in (range n)
       (fun i =>
          st <- structure ;;
          for_in (range (get_number_of_dimensions st))
                 (differentiate relativize_trajectory i)) ;;
     velocity_buffer).
Proof.
  apply preserves_bind.
  { apply preserves_get_number_of_atoms; intros x s H; exact H. }
  intros n. apply preserves_bind.
  - apply preserves_for_in. intros i.
    apply preserves_bind; [unfold structure; preserves|intros st].
    apply preserves_for_in. intros j. apply holds_velocity_differentiate.
  - intros _. unfold velocity_buffer. preserves.
Qed.

Lemma get_relative_trajectory_returns_cached (s s0 : Dynamics) (r : ndarray3) o :
  get_relative_trajectory relativize_trajectory s = (Returns r, s0, o) ->
  _relative_trajectory s0 = Some r.
Proof.
  unfold get_relative_trajectory. intros H.
  rewrite (bind_quiet get_self _ s s s eq_refl) in H.
  destruct (_relative_trajectory s) as [r0|] eqn:Hc.
  - unfold ret in H. inversion H; subst. exact Hc.
  - apply bind_returns_inv in H.
    destruct H as (r' & s' & o1 & o2 & _ & H & _).
    unfold bind, modify, ret in H. cbn in H. inversion H; subst. reflexivity.
Qed.

(** X21.  The property [velocity] stores its buffer before it fills it.
    Once the relative trajectory was obtained, whatever happens next (a
    halt on the cell check, an [IndexError], the [ValueError] of
    [np.gradient] on fewer than two samples, ...) the attribute is set
    when the call ends, so that the next access returns the buffer as it
    was left, without a message and without computing anything. *)
Theorem derived_velocity_buffer_survives_failure
    (s s0 : Dynamics) (r : ndarray3) (o0 : list message) :
  _velocity s = None ->
  get_relative_trajectory relativize_trajectory s = (Returns r, s0, o0) ->
  let after := snd (fst (velocity relativize_trajectory s)) in
  exists b,
    _velocity after = Some b
    /\ velocity relativize_trajectory after = (Returns b, after, []).
Proof.
  intros Hv Hrel after.
  assert (Hinv : holds_velocity after).
  { unfold after, velocity.
    rewrite (bind_quiet get_self _ s s s eq_refl). rewrite Hv.
    rewrite (bind_returns _ _ s tt s [No_velocity_provided] eq_refl).
    rewrite (bind_returns _ _ _ _ _ _ Hrel).
    rewrite (bind_quiet
               (modify (with_velocity (Some (np_zeros_like r)))) _ s0 tt
               (with_velocity (Some (np_zeros_like r)) s0) eq_refl).
    pose proof (holds_velocity_fill
                  (with_velocity (Some (np_zeros_like r)) s0)) as H.
    destruct ((n <- get_number_of_atoms ;; _) _) as [[res s1] o1].
    cbn [fst snd] in *. apply H. split.
    - exists r. cbn. apply (get_relative_trajectory_returns_cached _ _ _ _ Hrel).
    - eexists. reflexivity. }
  destruct Hinv as [_ [b Hb]]. exists b. split; [exact Hb|].
  apply velocity_present. exact Hb.
Qed.

Lemma holds_buffer_velocity :
  preserves holds_mass_weighted_buffer (velocity relativize_trajectory).
Proof.
  intros s HP. destruct HP as [[v Hv] Hb].
  rewrite (velocity_present relativize_trajectory s v Hv).
  split; [exists v; exact Hv|exact Hb].
Qed.

Lemma holds_buffer_weigh_atom (sc : ivec3) (i : nat) :
  preserves holds_mass_weighted_buffer (weigh_atom relativize_trajectory sc i).
Proof.
  unfold weigh_atom.
  apply preserves_bind; [apply holds_buffer_velocity|intros v].
  apply preserves_bind; [unfold get_atom; preserves|intros rws].
  apply preserves_bind; [unfold structure; preserves|intros st].
  apply preserves_bind; [apply preserves_getitem|intros mass].
  apply preserves_bind; [unfold velocity_mass_average_buffer; preserves|intros buf].
  apply preserves_bind; [unfold set_atom; preserves|intros buf'].
  apply preserves_modify. intros s [Hv _].
  split; [exact Hv|exists buf'; reflexivity].
Qed.

Lemma holds_buffer_fill :
  preserves holds_mass_weighted_buffer
    (super_cell <- get_super_cell_matrix default_tolerance ;;
     n <- get_number_of_atoms ;;
     for_in (range n) (weigh_atom relativize_trajectory super_cell)).
Proof.
  apply preserves_bind.
  { apply preserves_get_super_cell_matrix. intros x s H. exact H. }
  intros sc. apply preserves_bind.
  { apply preserves_get_number_of_atoms; intros x s H; exact H. }
  intros n. apply preserves_for_in. intros i. apply holds_buffer_weigh_atom.
Qed.

Lemma get_velocity_mass_average_cached (s : Dynamics) (buf : ndarray3) :
  _velocity_mass_average s = Some buf ->
  get_velocity_mass_average relativize_trajectory uninitialized s
  = (Returns buf, s, []).
Proof.
  intros Hc. unfold get_velocity_mass_average.
  rewrite (bind_quiet get_self _ s s s eq_refl). rewrite Hc.
  rewrite (bind_quiet (ret tt) _ s tt s eq_refl).
  unfold velocity_mass_average_buffer.
  rewrite (bind_quiet get_self _ s s s eq_refl). rewrite Hc. reflexivity.
Qed.

(** X22.  [get_velocity_mass_average] stores a fresh, uninitialised
    buffer before it fills it atom by atom.  Once the velocity was
    obtained, whatever happens next (a halt on the cell check, an
    [IndexError] on an atom or a mass that is not there, ...) the buffer is
    cached when the call ends: the next call returns it as it was left,
    unfilled entries included, without an error and without a message. *)
Theorem mass_weighted_buffer_survives_failure
    (s s0 : Dynamics) (v : ndarray3) (o0 : list message) :
  _velocity_mass_average s = None ->
  velocity relativize_trajectory s = (Returns v, s0, o0) ->
  let after :=
    snd (fst (get_velocity_mass_average relativize_trajectory uninitialized s)) in
  exists buf,
    _velocity_mass_average after = Some buf
    /\ get_velocity_mass_average relativize_trajectory uninitialized after
       = (Returns buf, after, []).
Proof.
  intros Hc Hvel after.
  assert (Hinv : holds_mass_weighted_buffer after).
  { unfold after, get_velocity_mass_average.
    rewrite (bind_quiet get_self _ s s s eq_refl). rewrite Hc.
    set (s0' := with_velocity_mass_average
                  (Some (np_empty_like uninitialized v)) s0).
    assert (Hs0 : holds_mass_weighted_buffer s0').
    { split.
      - exists v. cbn. apply (velocity_returns_stored _ _ _ _ _ Hvel).
      - eexists. reflexivity. }
    pose proof (holds_buffer_fill s0' Hs0) as Hfill.
    match goal with
    | |- context [bind ?m (fun _ => velocity_mass_average_buffer)] =>
        assert (Hin : exists res s1 o1,
                   m s = (res, s1, o1) /\ holds_mass_weighted_buffer s1)
    end.
    { rewrite (bind_returns _ _ _ _ _ _ Hvel).
      rewrite (bind_quiet
                 (modify (with_velocity_mass_average
                            (Some (np_empty_like uninitialized v)))) _ s0 tt
                 s0' eq_refl).
      destruct ((super_cell <- get_super_cell_matrix default_tolerance ;; _) s0')
        as [[res s1] o1].
      exists res, s1, (o0 ++ o1). split; [reflexivity|exact Hfill]. }
    destruct Hin as (res & s1 & o1 & Hin & Hs1).
    destruct res as [u| |e].
    - rewrite (bind_returns _ _ _ _ _ _ Hin).
      unfold velocity_mass_average_buffer.
      rewrite (bind_quiet get_self _ s1 s1 s1 eq_refl).
      destruct (_velocity_mass_average s1); exact Hs1.
    - rewrite (bind_exit _ _ _ _ _ Hin). exact Hs1.
    - rewrite (bind_raises _ _ _ _ _ _ Hin). exact Hs1. }
  destruct Hinv as [_ [buf Hb]]. exists buf. split; [exact Hb|].
  apply get_velocity_mass_average_cached. exact Hb.
Qed.

End Buffers.

(* ================================================================== *)
(** * get_mean_displacement_matrix *)
(* ================================================================== *)

Lemma Re_Cmul_comm (a b : complex) : Re (Cmul a b) = Re (Cmul b a).
Proof. cbn. ring. Qed.

Lemma symmetric_dot_transposed_real (d : list (list complex)) :
  symmetric (dot_transposed_real d).
Proof.
  unfold symmetric, dot_transposed_real.
  repeat split; f_equal; apply map_ext; intros r; apply Re_Cmul_comm.
Qed.

Lemma symmetric_zero : symmetric mat3_zero.
Proof. repeat split. Qed.

Lemma symmetric_add (a b : mat3) :
  symmetric a -> symmetric b -> symmetric (mat3_add a b).
Proof.
  destruct a as [[[[a0 a1] a2] [[a3 a4] a5]] [[a6 a7] a8]].
  destruct b as [[[[b0 b1] b2] [[b3 b4] b5]] [[b6 b7] b8]].
  cbn. intros (-> & -> & ->) (-> & -> & ->). repeat split.
Qed.

Lemma symmetric_div (a : mat3) (x : R) : symmetric a -> symmetric (mat3_div a x).
Proof.
  destruct a as [[[[a0 a1] a2] [[a3 a4] a5]] [[a6 a7] a8]].
  cbn. intros (-> & -> & ->). repeat split.
Qed.

Lemma Forall_list_set {A : Type} (P : A -> Prop) (i : nat) (x : A) (l : list A) :
  P x -> Forall P l -> Forall P (list_set i x l).
Proof.
  intros Hx. revert i. induction l as [|y l IH]; intros i Hl;
    [destruct i; constructor|].
  inversion Hl; subst. destruct i as [|i]; cbn [list_set].
  - constructor; assumption.
  - constructor; [assumption|apply IH; assumption].
Qed.

Lemma getitem_returns_inv {A : Type} (l : list A) (i : nat) (x : A) s s' o :
  getitem l i s = (Returns x, s', o) -> nth_error l i = Some x /\ s' = s.
Proof.
  unfold getitem. destruct (nth_error l i) as [y|]; [|discriminate].
  unfold ret. intros H. inversion H; subst. split; reflexivity.
Qed.

(** what a returning loop has made of an invariant of its accumulator *)
Lemma for_acc_returns_invariant {A B : Type} (Q : B -> Prop)
    (body : A -> B -> M B) (l : list A) :
  (forall x acc s acc' s' o,
      body x acc s = (Returns acc', s', o) -> Q acc -> Q acc') ->
  forall acc s acc' s' o,
    for_acc l acc body s = (Returns acc', s', o) -> Q acc -> Q acc'.
Proof.
  intros Hb. induction l as [|x l IH]; intros acc s acc' s' o H HQ;
    cbn [for_acc] in H.
  - unfold ret in H. inversion H; subst. exact HQ.
  - apply bind_returns_inv in H.
    destruct H as (acc1 & s1 & o1 & o2 & H1 & H2 & _).
    apply (IH acc1 s1 acc' s' o2 H2). apply (Hb x acc s acc1 s1 o1 H1 HQ).
Qed.

Section MeanDisplacement.

Variable relativize_trajectory : M ndarray3.

Lemma add_displacement_keeps_symmetry
    (ape ati : list nat) (displacements : ndarray3) (k : nat)
    (i : nat) (acc : list mat3) s acc' s' o :
  add_displacement ape ati displacements i acc s = (Returns acc', s', o) ->
  length acc = k /\ Forall symmetric acc ->
  length acc' = k /\ Forall symmetric acc'.
Proof.
  unfold add_displacement. intros H [Hlen Hsym].
  apply bind_returns_inv in H. destruct H as (ty & ? & ? & ? & _ & H & _).
  apply bind_returns_inv in H. destruct H as (pn & ? & ? & ? & _ & H & _).
  apply bind_returns_inv in H. destruct H as (d & ? & ? & ? & _ & H & _).
  apply bind_returns_inv in H. destruct H as (old & ? & ? & ? & Hold & H & _).
  apply bind_returns_inv in H. destruct H as (? & ? & ? & ? & _ & H & _).
  unfold ret in H.
  match type of H with
  | (Returns ?a, _, _) = _ => assert (E : acc' = a) by congruence
  end.
  rewrite E. clear E H.
  apply getitem_returns_inv in Hold. destruct Hold as [Hold _].
  apply nth_error_In in Hold.
  split; [rewrite length_list_set; exact Hlen|].
  apply Forall_list_set; [|exact Hsym].
  apply symmetric_add.
  - rewrite Forall_forall in Hsym. apply Hsym. exact Hold.
  - apply symmetric_div. apply symmetric_dot_transposed_real.
Qed.

(** X23.  A first call of [get_mean_displacement_matrix] that returns
    gives one 3 x 3 matrix per atom type of the structure, each of them
    symmetric, and has cached exactly what it returns. *)
Theorem mean_displacement_matrices_are_symmetric
    (s s1 : Dynamics) (ms : list mat3) (o : list message) :
  _mean_displacement_matrix s = None ->
  get_mean_displacement_matrix relativize_trajectory s = (Returns ms, s1, o) ->
  length ms = get_number_of_atom_types (_structure s)
  /\ Forall symmetric ms
  /\ _mean_displacement_matrix s1 = Some ms.
Proof.
  intros Hc H. unfold get_mean_displacement_matrix in H.
  rewrite (bind_quiet _ _ s _ s (structure_run s)) in H.
  rewrite (bind_quiet get_self _ s s s eq_refl) in H. rewrite Hc in H.
  apply bind_returns_inv in H. destruct H as (sc & sa & ? & ? & Hsc & H & _).
  assert (Hst : _structure sa = _structure s).
  { pose proof (preserves_get_super_cell_matrix
                  (fun st => _structure st = _structure s) default_tolerance
                  (fun x st E => E) s eq_refl) as Hp.
    rewrite Hsc in Hp. exact Hp. }
  rewrite (bind_quiet _ _ sa _ sa (structure_run sa)) in H.
  apply bind_returns_inv in H. destruct H as (disp & sb & ? & ? & _ & H & _).
  apply bind_returns_inv in H. destruct H as (acc & sc' & ? & ? & Hloop & H & _).
  rewrite (bind_quiet (modify _) _ sc' tt _ eq_refl) in H.
  unfold ret in H.
  match type of H with
  | (Returns ?a, ?st, _) = _ =>
      assert (E : ms = a /\ s1 = st) by (split; congruence)
  end.
  destruct E as [E Es]. rewrite E, Es. clear E Es H.
  assert (Hacc : length acc = get_number_of_atom_types (_structure sa)
                 /\ Forall symmetric acc).
  { apply (for_acc_returns_invariant
             (fun a => length a = get_number_of_atom_types (_structure sa)
                       /\ Forall symmetric a)
             _ _
             (fun x a st a' st' o' =>
                add_displacement_keeps_symmetry _ _ _ _ x a st a' st' o')
             _ _ _ _ _ Hloop).
    split; [apply repeat_length|].
    apply Forall_forall. intros m Hm. apply repeat_spec in Hm. subst m.
    apply symmetric_zero. }
  destruct Hacc as [Hlen Hsym].
  split; [rewrite length_map, Hlen, Hst; reflexivity|]. split; [|reflexivity].
  apply Forall_forall. intros m Hm. apply in_map_iff in Hm.
  destruct Hm as (m0 & <- & Hm0). apply symmetric_div.
  rewrite Forall_forall in Hsym. apply Hsym. exact Hm0.
Qed.

End MeanDisplacement.

(* ================================================================== *)
(** * The two index layouts *)
(* ================================================================== *)

Local Open Scope Z_scope.

Lemma mod_of_multiple (a b c : Z) :
  0 < b -> 0 < c -> (a mod (b * c)) mod b = a mod b.
Proof.
  intros Hb Hc. apply Z.mod_mod_divide. exists c. ring.
Qed.

Lemma np_mod_positive (a b : Z) : 0 < b -> np_mod a b = a mod b.
Proof.
  intros Hb. unfold np_mod.
  destruct (b =? 0) eqn:E; [apply Z.eqb_eq in E; lia|reflexivity].
Qed.

Lemma np_int_divide_positive (a b : Z) : 0 < b -> np_int_divide a b = a / b.
Proof.
  intros Hb. unfold np_int_divide.
  destruct (b =? 0) eqn:E; [apply Z.eqb_eq in E; lia|reflexivity].
Qed.

Lemma py_int_divide_positive (a b : Z) :
  0 < b -> py_int_divide a b = Returns (a / b).
Proof.
  intros Hb. unfold py_int_divide.
  destruct (b =? 0) eqn:E; [apply Z.eqb_eq in E; lia|reflexivity].
Qed.

(** the digit of weight [b] in a number below [b * c] *)
Lemma digit_bounds (a b c : Z) :
  0 < b -> 0 < c -> 0 <= (a mod (b * c)) / b < c.
Proof.
  intros Hb Hc.
  pose proof (Z.mod_pos_bound a (b * c) ltac:(nia)) as H.
  split; [apply Z.div_pos; lia|].
  apply Z.div_lt_upper_bound; lia.
Qed.

Lemma digit_split (a b c : Z) :
  0 < b -> 0 < c -> a mod (b * c) = a mod b + b * ((a mod (b * c)) / b).
Proof.
  intros Hb Hc.
  pose proof (Z.div_mod (a mod (b * c)) b ltac:(lia)) as H.
  rewrite (mod_of_multiple a b c Hb Hc) in H. lia.
Qed.

(** X24.  [type_2] reads an atom index as a number in mixed radix, the
    atom of the cell as the fastest digit, then the cell along the first
    and along the second axis, and all that remains along the third: for
    positive sizes the four values it returns are in range and give the
    index back, so that different indices never get the same four values.
    (The third entry of [size] is not used.) *)
Theorem type_2_decodes_the_index (i size0 size1 size2 natom : Z) :
  0 <= i -> 0 < size0 -> 0 < size1 -> 0 < natom ->
  exists x y z k,
    type_2 i (size0, size1, size2) natom = Returns (x, y, z, k)
    /\ 0 <= k < natom /\ 0 <= x < size0 /\ 0 <= y < size1 /\ 0 <= z
    /\ i = k + natom * (x + size0 * (y + size1 * z)).
Proof.
  intros Hi H0 H1 Hn. unfold type_2.
  rewrite py_int_divide_positive by nia.
  rewrite !np_mod_positive, !np_int_divide_positive by nia.
  do 4 eexists. split; [reflexivity|].
  replace (size0 * natom) with (natom * size0) by ring.
  replace (size1 * size0 * natom) with (natom * size0 * size1) by ring.
  pose proof (Z.mod_pos_bound i natom Hn) as Hk.
  pose proof (digit_bounds i natom size0 Hn H0) as Hx.
  pose proof (digit_bounds i (natom * size0) size1 ltac:(nia) H1) as Hy.
  pose proof (digit_split i natom size0 Hn H0) as Ex.
  pose proof (digit_split i (natom * size0) size1 ltac:(nia) H1) as Ey.
  pose proof (Z.div_mod i (natom * size0 * size1) ltac:(nia)) as Ez.
  assert (Hz : 0 <= i / (natom * size0 * size1)) by (apply Z.div_pos; nia).
  set (x := (i mod (natom * size0)) / natom) in *.
  set (y := (i mod (natom * size0 * size1)) / (natom * size0)) in *.
  set (z := i / (natom * size0 * size1)) in *.
  split; [exact Hk|]. split; [exact Hx|]. split; [exact Hy|].
  split; [exact Hz|].
  rewrite Ez at 1. rewrite Ey, Ex. ring.
Qed.

(** X25.  [type_1] takes the cell along the first axis as the fastest
    digit and the atom of the cell as the slowest.  Its second value
    divides by the size along the second axis, where the first digit
    ranges over the size along the first: for a supercell of equal
    positive sizes along these two axes the four values are in range and
    give the index back.  (The number of atoms of the cell is not used.) *)
Theorem type_1_decodes_the_index (i size0 size1 size2 natom : Z) :
  0 <= i -> 0 < size0 -> size1 = size0 -> 0 < size2 ->
  exists x y z k,
    type_1 i (size0, size1, size2) natom = Returns (x, y, z, k)
    /\ 0 <= x < size0 /\ 0 <= y < size1 /\ 0 <= z < size2 /\ 0 <= k
    /\ i = x + size0 * (y + size1 * (z + size2 * k)).
Proof.
  intros Hi H0 -> H2. unfold type_1.
  rewrite py_int_divide_positive by nia.
  rewrite !np_mod_positive, !np_int_divide_positive by nia.
  do 4 eexists. split; [reflexivity|].
  pose proof (Z.mod_pos_bound i size0 H0) as Hx.
  pose proof (digit_bounds i size0 size0 H0 H0) as Hy.
  pose proof (digit_bounds i (size0 * size0) size2 ltac:(nia) H2) as Hz.
  pose proof (digit_split i size0 size0 H0 H0) as Ey.
  pose proof (digit_split i (size0 * size0) size2 ltac:(nia) H2) as Ez.
  pose proof (Z.div_mod i (size0 * size0 * size2) ltac:(nia)) as Ek.
  assert (Hk : 0 <= i / (size0 * size0 * size2)) by (apply Z.div_pos; nia).
  set (y := (i mod (size0 * size0)) / size0) in *.
  set (z := (i mod (size0 * size0 * size2)) / (size0 * size0)) in *.
  set (k := i / (size0 * size0 * size2)) in *.
  split; [exact Hx|]. split; [exact Hy|]. split; [exact Hz|].
  split; [exact Hk|].
  rewrite Ek at 1. rewrite Ez, Ey. ring.
Qed.

Local Close Scope Z_scope.

(* ================================================================== *)
(** * The progress indicator over the columns *)
(* ================================================================== *)

Lemma progress_fraction_bounds (n i : nat) :
  (i < n)%nat -> 0 < INR (i + 1) / INR n <= 1.
Proof.
  intros Hi.
  assert (Hn : 0 < INR n) by (apply lt_0_INR; lia).
  assert (Hi1 : 0 < INR (i + 1)) by (apply lt_0_INR; lia).
  assert (Hle : INR (i + 1) <= INR n) by (apply le_INR; lia).
  split.
  - apply Rmult_lt_0_compat; [exact Hi1|apply Rinv_0_lt_compat; exact Hn].
  - apply (Rmult_le_reg_r (INR n)); [exact Hn|].
    unfold Rdiv. rewrite Rmult_assoc, Rinv_l by lra. lra.
Qed.

(** X26.  Over a loop of [n] columns the progress indicator is first
    called with 0 and after column [i] with [(i+1)/n]: the fraction it
    reports starts at 0, grows strictly, stays below 1 with an empty
    status up to the last column, and is 1 with the status 'Done...'
    exactly after the last one. *)
Theorem progress_reaches_done_at_the_last_column
    (n i : nat) (label : string) :
  (i < n)%nat ->
  progress_line 0 label = Progress label 0 ""
  /\ INR i / INR n < INR (i + 1) / INR n
  /\ ((i + 1 < n)%nat ->
      INR (i + 1) / INR n < 1
      /\ progress_line (INR (i + 1) / INR n) label
         = Progress label (INR (i + 1) / INR n) "")
  /\ ((i + 1 = n)%nat ->
      progress_line (INR (i + 1) / INR n) label = Progress label 1 "Done...").
Proof.
  intros Hi.
  assert (Hn : 0 < INR n) by (apply lt_0_INR; lia).
  destruct (progress_fraction_bounds n i Hi) as [Hpos Hle].
  split; [|split; [|split]].
  - unfold progress_line.
    destruct (Rlt_dec 0 0) as [H|_]; [lra|]. cbn [fst snd].
    destruct (Rle_dec 1 0) as [H|_]; [lra|]. reflexivity.
  - unfold Rdiv. apply Rmult_lt_compat_r; [apply Rinv_0_lt_compat; exact Hn|].
    apply lt_INR. lia.
  - intros Hlt.
    assert (Hlt1 : INR (i + 1) / INR n < 1).
    { apply (Rmult_lt_reg_r (INR n)); [exact Hn|].
      unfold Rdiv. rewrite Rmult_assoc, Rinv_l by lra.
      rewrite Rmult_1_r, Rmult_1_l. apply lt_INR. exact Hlt. }
    split; [exact Hlt1|]. unfold progress_line.
    destruct (Rlt_dec (INR (i + 1) / INR n) 0) as [H|_]; [lra|]. cbn [fst snd].
    destruct (Rle_dec 1 (INR (i + 1) / INR n)) as [H|_]; [lra|]. reflexivity.
  - intros Heq. unfold progress_line.
    destruct (Rlt_dec (INR (i + 1) / INR n) 0) as [H|_]; [lra|]. cbn [fst snd].
    destruct (Rle_dec 1 (INR (i + 1) / INR n)) as [_|H]; [reflexivity|].
    exfalso. apply H. rewrite Heq. unfold Rdiv. rewrite Rinv_r by lra. lra.
Qed.

(* ================================================================== *)
(** * The FFTW variant *)
(* ================================================================== *)

(** two sequences that end alike, whatever they print *)
Lemma bind_same_result {A B : Type} (m1 m2 : M A) (k1 k2 : A -> M B) s :
  fst (m1 s) = fst (m2 s) ->
  (forall a s', fst (k1 a s') = fst (k2 a s')) ->
  fst (bind m1 k1 s) = fst (bind m2 k2 s).
Proof.
  intros Hm Hk. unfold bind.
  destruct (m1 s) as [[r s1] o1]. destruct (m2 s) as [[r' s1'] o1'].
  cbn [fst] in Hm. injection Hm as -> ->.
  destruct r' as [a| |e]; [|reflexivity|reflexivity].
  specialize (Hk a s1').
  destruct (k1 a s1') as [[r1 s2] o2]. destruct (k2 a s1') as [[r2 s2'] o2'].
  cbn [fst] in *. exact Hk.
Qed.

Section Fftw.

Variable pyfftw_fft : list complex -> list complex.

(** the backend computes the transform that [np.fft.fft] computes *)
Hypothesis same_transform : forall d, pyfftw_fft d = np_fft d.

Lemma fftw_power_is_fft_power
    (grid : list R) (x : list complex) (time_step : R) (pad : Z) :
  fftw_power pyfftw_fft grid x time_step pad = fft_power grid x time_step pad.
Proof.
  unfold fftw_power, fft_power.
  destruct (autocorrelation x) as [d1| |e]; cbn [and_then]; try reflexivity.
  destruct (np_pad_right d1 pad) as [d2| |e]; cbn [and_then]; try reflexivity.
  rewrite same_transform. reflexivity.
Qed.

Variable vq : ndarray2.
Variable parameters : Parameters.

Lemma fftw_loop_is_fft_loop (l : list nat) :
  forall acc s,
    fst (for_acc l acc
           (fun i psd_vector =>
              dt <- get_time_step_average ;;
              ps <- lift (fftw_power pyfftw_fft (frequency_range parameters)
                                     (column vq i) dt (zero_padding parameters)) ;;
              progress_bar (INR (i + 1) / INR (ncols vq)) "FFTW" ;;
              ret (psd_vector ++ [ps])) s)
    = fst (for_acc l acc
             (fun i psd_vector =>
                dt <- get_time_step_average ;;
                ps <- lift (fft_power (frequency_range parameters)
                                      (column vq i) dt (zero_padding parameters)) ;;
                progress_bar (INR (i + 1) / INR (ncols vq)) "FFT" ;;
                ret (psd_vector ++ [ps])) s).
Proof.
  induction l as [|i l IH]; intros acc s; [reflexivity|].
  cbn [for_acc]. apply bind_same_result; [|intros acc' s'; apply IH].
  apply bind_same_result; [reflexivity|intros dt s1].
  apply bind_same_result.
  { unfold lift. rewrite fftw_power_is_fft_power. reflexivity. }
  intros ps s2. apply bind_same_result; [reflexivity|intros _ s3]. reflexivity.
Qed.

(** X27.  The FFTW functions are the FFT functions with the transform
    taken from [pyfftw]: when that backend computes the same transform as
    [np.fft.fft], [fftw_power] returns or raises exactly what [fft_power]
    does, and [get_fft_fftw_spectra] ends like [get_fft_spectra], with the
    same spectra and the same object (only the label of the progress lines
    differs). *)
Theorem fftw_variant_agrees_with_fft (s : Dynamics) :
  (forall grid x time_step pad,
      fftw_power pyfftw_fft grid x time_step pad
      = fft_power grid x time_step pad)
  /\ fst (get_fft_fftw_spectra pyfftw_fft vq parameters s)
     = fst (get_fft_spectra vq parameters s).
Proof.
  split; [apply fftw_power_is_fft_power|].
  unfold get_fft_fftw_spectra, get_fft_spectra.
  apply bind_same_result; [reflexivity|intros _ s1].
  apply bind_same_result; [reflexivity|intros _ s2].
  apply bind_same_result; [apply fftw_loop_is_fft_loop|intros psd s3].
  reflexivity.
Qed.

End Fftw.

(* ================================================================== *)
(** * The derived velocity *)
(* ================================================================== *)

Lemma length_gradient_values (f : list complex) (h : R) :
  length (gradient_values f h) = length f.
Proof. unfold gradient_values. rewrite length_map, length_seq. reflexivity. Qed.

Lemma np_gradient_run (f : list complex) (h : R) s :
  (2 <= length f)%nat ->
  np_gradient f h s = (Returns (gradient_values f h), s, []).
Proof.
  intros Hlen. unfold np_gradient.
  destruct (length f <? 2)%nat eqn:E; [apply Nat.ltb_lt in E; lia|].
  reflexivity.
Qed.

Lemma length_coord_series (a : ndarray3) (i j : nat) :
  length (coord_series a i j) = shape0 a.
Proof. unfold coord_series. apply length_map. Qed.

Lemma frame_of_put_coord (buf : ndarray3) (i j t : nat) (vals : list complex) :
  length vals = length (frames buf) ->
  (t < length (frames buf))%nat ->
  nth t (frames (put_coord buf i j vals)) []
  = list_set i (list_set j (nth t vals C0) (nth i (nth t (frames buf) []) []))
             (nth t (frames buf) []).
Proof.
  intros Hlen Ht. unfold put_coord. cbn [frames].
  set (g := fun p : list (list complex) * complex => _).
  rewrite (nth_indep _ [] (g ([], C0)))
    by (rewrite length_map, length_combine; lia).
  rewrite (map_nth g).
  rewrite combine_nth by (symmetry; exact Hlen).
  reflexivity.
Qed.

Lemma shaped_like_frame (r buf : ndarray3) (t : nat) :
  shaped_like r buf -> (t < length (frames buf))%nat ->
  length (nth t (frames buf) []) = shape1 r
  /\ forall i, (i < shape1 r)%nat ->
               length (nth i (nth t (frames buf) []) []) = shape2 r.
Proof.
  intros (_ & _ & _ & Hall) Ht. rewrite Forall_forall in Hall.
  destruct (Hall (nth t (frames buf) []) (nth_In _ _ Ht)) as [Hfr Hat].
  split; [exact Hfr|]. intros i Hi. rewrite Forall_forall in Hat.
  apply Hat. apply nth_In. rewrite Hfr. exact Hi.
Qed.

Lemma Forall_list_set_in_range {A : Type} (P : A -> Prop) (i : nat) (x : A)
    (l : list A) :
  ((i < length l)%nat -> P x) -> Forall P l -> Forall P (list_set i x l).
Proof.
  revert i. induction l as [|y l IH]; intros i Hx Hl;
    [destruct i; constructor|].
  inversion Hl; subst. destruct i as [|i]; cbn [list_set].
  - constructor; [apply Hx; cbn; lia|assumption].
  - constructor; [assumption|]. apply IH; [|assumption].
    intros Hi. apply Hx. cbn. lia.
Qed.

Lemma put_coord_shaped_like (r buf : ndarray3) (i j : nat) (vals : list complex) :
  shaped_like r buf -> length vals = length (frames buf) ->
  shaped_like r (put_coord buf i j vals).
Proof.
  intros Hs Hlen. pose proof Hs as (H1 & H2 & H0 & Hall).
  unfold shaped_like, put_coord. cbn [frames shape1 shape2].
  split; [exact H1|]. split; [exact H2|].
  split; [rewrite length_map, length_combine; lia|].
  apply Forall_forall. intros fr Hfr. apply in_map_iff in Hfr.
  destruct Hfr as ([fr0 z] & <- & Hin). apply in_combine_l in Hin.
  rewrite Forall_forall in Hall. destruct (Hall fr0 Hin) as [Hl Hat].
  cbn [fst snd]. split; [rewrite length_list_set; exact Hl|].
  apply Forall_list_set_in_range; [|exact Hat].
  intros Hi. rewrite length_list_set.
  rewrite Forall_forall in Hat. apply Hat. apply nth_In. exact Hi.
Qed.

(** the entry that a pass has written, and the entries it has left *)
Lemma coord_put_coord (r buf : ndarray3) (i j : nat) (vals : list complex)
    (t i0 j0 : nat) :
  shaped_like r buf ->
  length vals = length (frames buf) ->
  (i < shape1 r)%nat -> (j < shape2 r)%nat ->
  (t < length (frames buf))%nat ->
  coord (put_coord buf i j vals) t i0 j0
  = if ((i0 =? i) && (j0 =? j))%nat then nth t vals C0 else coord buf t i0 j0.
Proof.
  intros Hs Hlen Hi Hj Ht. unfold coord.
  rewrite (frame_of_put_coord buf i j t vals Hlen Ht).
  destruct (shaped_like_frame r buf t Hs Ht) as [Hfr Hat].
  destruct (Nat.eqb_spec i0 i) as [->|Hne].
  - rewrite nth_list_set_same by (rewrite Hfr; exact Hi).
    destruct (Nat.eqb_spec j0 j) as [->|Hnj]; cbn [andb].
    + apply nth_list_set_same. rewrite (Hat i Hi). exact Hj.
    + apply nth_list_set_other. exact Hnj.
  - cbn [andb]. rewrite nth_list_set_other by exact Hne. reflexivity.
Qed.

Lemma zeros_like_shaped_like (r : ndarray3) :
  well_shaped r -> shaped_like r (np_zeros_like r).
Proof.
  intros Hw. unfold shaped_like, np_zeros_like. cbn [frames shape1 shape2].
  split; [reflexivity|]. split; [reflexivity|].
  split; [apply length_map|].
  apply Forall_forall. intros fr Hfr. apply in_map_iff in Hfr.
  destruct Hfr as (fr0 & <- & Hin).
  unfold well_shaped in Hw. rewrite Forall_forall in Hw.
  destruct (Hw fr0 Hin) as [Hl Hat].
  split; [rewrite length_map; exact Hl|].
  apply Forall_forall. intros a Ha. apply in_map_iff in Ha.
  destruct Ha as (a0 & <- & Hin0). rewrite length_map.
  rewrite Forall_forall in Hat. apply Hat. exact Hin0.
Qed.

Lemma nth_zeros (l : list complex) (j : nat) :
  nth j (map (fun _ => C0) l) C0 = C0.
Proof.
  revert j. induction l as [|z l IH]; intros [|j]; cbn; try reflexivity.
  apply IH.
Qed.

Lemma coord_zeros_like (r : ndarray3) (t i j : nat) :
  coord (np_zeros_like r) t i j = C0.
Proof.
  unfold coord, np_zeros_like. cbn [frames].
  destruct (Nat.lt_ge_cases t (length (frames r))) as [Ht|Ht].
  - rewrite (nth_map_in_range _ _ t [] []) by exact Ht.
    destruct (Nat.lt_ge_cases i (length (nth t (frames r) []))) as [Hi|Hi].
    + rewrite (nth_map_in_range _ _ i [] []) by exact Hi. apply nth_zeros.
    + rewrite (nth_overflow (map _ _)) by (rewrite length_map; exact Hi).
      apply nth_nil_default.
  - rewrite (nth_overflow (map _ _)) by (rewrite length_map; exact Ht).
    rewrite nth_nil_default. apply nth_nil_default.
Qed.

Lemma gradient_step_shaped_like (r : ndarray3) (dt : R) (buf : ndarray3)
    (i j : nat) :
  shaped_like r buf -> shaped_like r (gradient_step r dt buf i j).
Proof.
  intros Hs. apply put_coord_shaped_like; [exact Hs|].
  rewrite length_gradient_values, length_coord_series.
  destruct Hs as (_ & _ & H0 & _). symmetry. exact H0.
Qed.

Lemma coord_gradient_step (r : ndarray3) (dt : R) (buf : ndarray3)
    (i j t i0 j0 : nat) :
  shaped_like r buf ->
  (i < shape1 r)%nat -> (j < shape2 r)%nat -> (t < shape0 r)%nat ->
  coord (gradient_step r dt buf i j) t i0 j0
  = if ((i0 =? i) && (j0 =? j))%nat
    then nth t (gradient_values (coord_series r i j) dt) C0
    else coord buf t i0 j0.
Proof.
  intros Hs Hi Hj Ht. pose proof Hs as (_ & _ & H0 & _).
  apply (coord_put_coord r); try assumption.
  - rewrite length_gradient_values, length_coord_series. symmetry. exact H0.
  - rewrite H0. exact Ht.
Qed.

(** the buffer after the inner loop for atom [i], and after the two loops *)
Lemma fold_gradient_inner (r : ndarray3) (dt : R) (i t i0 j0 : nat)
    (js : list nat) :
  (i < shape1 r)%nat -> (t < shape0 r)%nat ->
  (forall j, In j js -> (j < shape2 r)%nat) ->
  forall buf,
    shaped_like r buf ->
    shaped_like r (fold_left (fun b j => gradient_step r dt b i j) js buf)
    /\ coord (fold_left (fun b j => gradient_step r dt b i j) js buf) t i0 j0
       = if ((i0 =? i) && existsb (Nat.eqb j0) js)%nat
         then nth t (gradient_values (coord_series r i0 j0) dt) C0
         else coord buf t i0 j0.
Proof.
  intros Hi Ht. induction js as [|j js IH]; intros Hjs buf Hs.
  - cbn [fold_left existsb]. rewrite andb_false_r. split; [exact Hs|reflexivity].
  - cbn [fold_left existsb].
    assert (Hj : (j < shape2 r)%nat) by (apply Hjs; left; reflexivity).
    destruct (IH (fun j' H => Hjs j' (or_intror H))
                 (gradient_step r dt buf i j)
                 (gradient_step_shaped_like r dt buf i j Hs)) as [Hs' Hc].
    split; [exact Hs'|]. rewrite Hc.
    rewrite (coord_gradient_step r dt buf i j t i0 j0 Hs Hi Hj Ht).
    destruct (Nat.eqb_spec i0 i) as [->|Hne]; cbn [andb]; [|reflexivity].
    destruct (existsb (Nat.eqb j0) js); [rewrite orb_true_r; reflexivity|].
    rewrite orb_false_r.
    destruct (Nat.eqb_spec j0 j) as [->|Hnj]; reflexivity.
Qed.

Lemma fold_gradient_outer (r : ndarray3) (dt : R) (t i0 j0 : nat)
    (js is_ : list nat) :
  (t < shape0 r)%nat ->
  (forall j, In j js -> (j < shape2 r)%nat) ->
  (forall i, In i is_ -> (i < shape1 r)%nat) ->
  forall buf,
    shaped_like r buf ->
    shaped_like r
      (fold_left (fun b i => fold_left (fun b' j => gradient_step r dt b' i j)
                                       js b) is_ buf)
    /\ coord (fold_left (fun b i => fold_left (fun b' j => gradient_step r dt b' i j)
                                              js b) is_ buf) t i0 j0
       = if (existsb (Nat.eqb i0) is_ && existsb (Nat.eqb j0) js)%nat
         then nth t (gradient_values (coord_series r i0 j0) dt) C0
         else coord buf t i0 j0.
Proof.
  intros Ht Hjs. induction is_ as [|i is_ IH]; intros His buf Hs.
  - cbn [fold_left existsb andb]. split; [exact Hs|reflexivity].
  - cbn [fold_left existsb].
    assert (Hi : (i < shape1 r)%nat) by (apply His; left; reflexivity).
    destruct (fold_gradient_inner r dt i t i0 j0 js Hi Ht Hjs buf Hs)
      as [Hs1 Hc1].
    destruct (IH (fun i' H => His i' (or_intror H)) _ Hs1) as [Hs' Hc].
    split; [exact Hs'|]. rewrite Hc, Hc1.
    destruct (existsb (Nat.eqb i0) is_); cbn [andb orb].
    + rewrite orb_true_r. cbn [andb].
      destruct (existsb (Nat.eqb j0) js); [reflexivity|].
      rewrite andb_false_r. reflexivity.
    + rewrite orb_false_r. reflexivity.
Qed.

Lemma existsb_seq (k n : nat) : existsb (Nat.eqb k) (seq 0 n) = (k <? n)%nat.
Proof.
  destruct (k <? n)%nat eqn:E.
  - apply Nat.ltb_lt in E. apply existsb_exists. exists k.
    split; [apply in_seq; lia|apply Nat.eqb_refl].
  - apply Nat.ltb_ge in E.
    destruct (existsb (Nat.eqb k) (seq 0 n)) eqn:Ex; [|reflexivity].
    apply existsb_exists in Ex. destruct Ex as (x & Hin & Heq).
    apply in_seq in Hin. apply Nat.eqb_eq in Heq. lia.
Qed.

Lemma time_step_state_fields s t :
  _relative_trajectory (time_step_state s t) = _relative_trajectory s
  /\ _structure (time_step_state s t) = _structure s
  /\ _velocity (time_step_state s t) = _velocity s.
Proof. unfold time_step_state. destruct (falsy _); repeat split. Qed.

Section DerivedVelocity.

Variable relativize_trajectory : M ndarray3.

Lemma differentiate_run (r : ndarray3) (t : list R) (dt : R) (st : Structure)
    (buf : ndarray3) (i j : nat) (s : Dynamics) :
  deriving r t dt st buf s ->
  shaped_like r buf ->
  (i < shape1 r)%nat -> (j < shape2 r)%nat -> (2 <= shape0 r)%nat ->
  exists s',
    differentiate relativize_trajectory i j s = (Returns tt, s', [])
    /\ deriving r t dt st (gradient_step r dt buf i j) s'.
Proof.
  intros (Hr & Ht & Hdt & Hst & Hv) Hs Hi Hj H2.
  pose proof Hs as (Hs1 & Hs2 & Hs0 & _).
  destruct (time_step_state_fields s t) as (Fr & Fs & Fv).
  destruct (time_step_state_stable s t) as [_ Hval].
  exists (with_velocity (Some (gradient_step r dt buf i j))
                        (time_step_state s t)).
  split.
  - unfold differentiate.
    assert (Hrel : get_relative_trajectory relativize_trajectory s
                   = (Returns r, s, [])).
    { unfold get_relative_trajectory.
      rewrite (bind_quiet get_self _ s s s eq_refl). rewrite Hr. reflexivity. }
    rewrite (bind_quiet _ _ _ _ _ Hrel).
    assert (Hcoord : get_coord r i j s = (Returns (coord_series r i j), s, [])).
    { unfold get_coord.
      destruct (i <? shape1 r)%nat eqn:E1; [|apply Nat.ltb_ge in E1; lia].
      destruct (j <? shape2 r)%nat eqn:E2; [|apply Nat.ltb_ge in E2; lia].
      reflexivity. }
    rewrite (bind_quiet _ _ _ _ _ Hcoord).
    rewrite (bind_quiet _ _ _ _ _ (get_time_step_average_run s t Ht)).
    rewrite Hdt.
    rewrite (bind_quiet _ _ _ _ _
               (np_gradient_run (coord_series r i j) dt (time_step_state s t)
                  ltac:(rewrite length_coord_series; exact H2))).
    assert (Hbuf : velocity_buffer (time_step_state s t)
                   = (Returns buf, time_step_state s t, [])).
    { unfold velocity_buffer.
      rewrite (bind_quiet get_self _ _ _ _ eq_refl). rewrite Fv, Hv.
      reflexivity. }
    rewrite (bind_quiet _ _ _ _ _ Hbuf).
    assert (Hset : set_coord buf i j (gradient_values (coord_series r i j) dt)
                     (time_step_state s t)
                   = (Returns (gradient_step r dt buf i j),
                      time_step_state s t, [])).
    { unfold set_coord.
      destruct (i <? shape1 buf)%nat eqn:E1; [|apply Nat.ltb_ge in E1; lia].
      destruct (j <? shape2 buf)%nat eqn:E2; [|apply Nat.ltb_ge in E2; lia].
      cbn [andb].
      destruct (length (gradient_values (coord_series r i j) dt) =? shape0 buf)%nat
        eqn:E3.
      - reflexivity.
      - apply Nat.eqb_neq in E3. exfalso. apply E3.
        rewrite length_gradient_values, length_coord_series.
        unfold shape0. symmetry. exact Hs0. }
    rewrite (bind_quiet _ _ _ _ _ Hset). reflexivity.
  - unfold deriving.
    split; [change (_relative_trajectory (time_step_state s t) = Some r);
            rewrite Fr; exact Hr|].
    split; [change (_time (time_step_state s t) = Some t);
            rewrite time_step_state_time; exact Ht|].
    split; [change (time_step_value (time_step_state s t) t = dt);
            rewrite Hval; exact Hdt|].
    split; [change (_structure (time_step_state s t) = st);
            rewrite Fs; exact Hst|].
    reflexivity.
Qed.

Lemma differentiate_inner_loop (r : ndarray3) (t : list R) (dt : R)
    (st : Structure) (i : nat) (js : list nat) :
  (i < shape1 r)%nat -> (2 <= shape0 r)%nat ->
  (forall j, In j js -> (j < shape2 r)%nat) ->
  forall buf s,
    deriving r t dt st buf s ->
    shaped_like r buf ->
    exists s',
      for_in js (differentiate relativize_trajectory i) s = (Returns tt, s', [])
      /\ deriving r t dt st
           (fold_left (fun b j => gradient_step r dt b i j) js buf) s'.
Proof.
  intros Hi H2. induction js as [|j js IH]; intros Hjs buf s Hd Hs.
  - exists s. split; [reflexivity|exact Hd].
  - cbn [for_in fold_left].
    assert (Hj : (j < shape2 r)%nat) by (apply Hjs; left; reflexivity).
    destruct (differentiate_run r t dt st buf i j s Hd Hs Hi Hj H2)
      as (s1 & Hrun & Hd1).
    destruct (IH (fun j' H => Hjs j' (or_intror H)) _ s1 Hd1
                 (gradient_step_shaped_like r dt buf i j Hs))
      as (s' & Hloop & Hd').
    exists s'. split; [|exact Hd'].
    rewrite (bind_quiet _ _ _ _ _ Hrun). exact Hloop.
Qed.

Lemma differentiate_outer_loop (r : ndarray3) (t : list R) (dt : R)
    (st : Structure) (is_ : list nat) :
  (2 <= shape0 r)%nat ->
  (Z.to_nat (get_number_of_dimensions st) <= shape2 r)%nat ->
  (forall i, In i is_ -> (i < shape1 r)%nat) ->
  forall buf s,
    deriving r t dt st buf s ->
    shaped_like r buf ->
    exists s',
      for_in is_
        (fun i =>
           st' <- structure ;;
           for_in (range (get_number_of_dimensions st'))
                  (differentiate relativize_trajectory i)) s
      = (Returns tt, s', [])
      /\ deriving r t dt st
           (fold_left
              (fun b i =>
                 fold_left (fun b' j => gradient_step r dt b' i j)
                           (range (get_number_of_dimensions st)) b)
              is_ buf) s'.
Proof.
  intros H2 Hdims. induction is_ as [|i is_ IH]; intros His buf s Hd Hs.
  - exists s. split; [reflexivity|exact Hd].
  - cbn [for_in fold_left].
    assert (Hi : (i < shape1 r)%nat) by (apply His; left; reflexivity).
    assert (Hjs : forall j, In j (range (get_number_of_dimensions st)) ->
                            (j < shape2 r)%nat).
    { intros j Hj. unfold range in Hj. apply in_seq in Hj. lia. }
    destruct (differentiate_inner_loop r t dt st i _ Hi H2 Hjs buf s Hd Hs)
      as (s1 & Hrun & Hd1).
    pose proof (fold_gradient_inner r dt i 0 0 0 _ Hi ltac:(lia) Hjs buf Hs)
      as [Hs1 _].
    destruct (IH (fun i' H => His i' (or_intror H)) _ s1 Hd1 Hs1)
      as (s' & Hloop & Hd').
    exists s'. split; [|exact Hd'].
    assert (Hbody : (st' <- structure ;;
                     for_in (range (get_number_of_dimensions st'))
                            (differentiate relativize_trajectory i)) s
                    = (Returns tt, s1, [])).
    { rewrite (bind_quiet _ _ s _ s (structure_run s)).
      destruct Hd as (_ & _ & _ & -> & _). exact Hrun. }
    rewrite (bind_quiet _ _ _ _ _ Hbody). exact Hloop.
Qed.

Lemma get_number_of_atoms_of_run (s : Dynamics) (sc : ivec3) :
  super_cell_matrix_of s = Some sc ->
  exists s' out,
    get_number_of_atoms s = (Returns (number_of_atoms_of s sc), s', out).
Proof.
  intros Hsc. unfold get_number_of_atoms, number_of_atoms_of.
  rewrite (bind_quiet get_self _ s s s eq_refl).
  destruct (_number_of_atoms s) as [n|] eqn:Hn.
  - exists s, []. reflexivity.
  - rewrite (bind_quiet _ _ s _ s (structure_run s)).
    destruct (super_cell_matrix_of_run s sc Hsc) as [out Hrun].
    rewrite (bind_returns _ _ _ _ _ _ Hrun).
    eexists. eexists. reflexivity.
Qed.

Lemma deriving_get_number_of_atoms r t dt st buf :
  preserves (deriving r t dt st buf) get_number_of_atoms.
Proof.
  apply preserves_get_number_of_atoms; intros x s H; exact H.
Qed.

(** X28.  When no velocity was supplied, the property [velocity] derives
    it from the relative trajectory: for a rectangular trajectory of at
    least two samples, a loaded time series of non-zero average step and a
    cell check that passes, the call returns an array of the shape of the
    relative trajectory whose series for atom [i] and axis [j] is
    [np.gradient] of the corresponding series of the relative trajectory
    with the average time step as spacing, for the atoms below
    [get_number_of_atoms()] and the axes below the number of dimensions,
    and stays zero for all other atoms and axes. *)
Theorem derived_velocity_is_the_gradient
    (s s0 : Dynamics) (r : ndarray3) (o0 : list message) (t : list R)
    (sc : ivec3) :
  _velocity s = None ->
  get_relative_trajectory relativize_trajectory s = (Returns r, s0, o0) ->
  well_shaped r ->
  (2 <= shape0 r)%nat ->
  _time s0 = Some t ->
  time_step_value s0 t <> 0 ->
  super_cell_matrix_of s0 = Some sc ->
  let n := Z.to_nat (number_of_atoms_of s0 sc) in
  let dims := Z.to_nat (get_number_of_dimensions (_structure s0)) in
  (n <= shape1 r)%nat ->
  (dims <= shape2 r)%nat ->
  exists v s' out,
    velocity relativize_trajectory s = (Returns v, s', out)
    /\ shape0 v = shape0 r /\ shape1 v = shape1 r /\ shape2 v = shape2 r
    /\ forall tk i j,
         (tk < shape0 r)%nat -> (i < shape1 r)%nat -> (j < shape2 r)%nat ->
         coord v tk i j
         = if ((i <? n) && (j <? dims))%nat
           then nth tk (gradient_values (coord_series r i j)
                                        (time_step_value s0 t)) C0
           else C0.
Proof.
  intros Hv Hrel Hw H2 Ht _ Hsc n dims Hn Hdims.
  set (dt := time_step_value s0 t).
  set (st := _structure s0).
  set (s1 := with_velocity (Some (np_zeros_like r)) s0).
  assert (Hd1 : deriving r t dt st (np_zeros_like r) s1).
  { unfold deriving, s1. cbn.
    rewrite (get_relative_trajectory_returns_cached _ _ _ _ _ Hrel).
    repeat split. exact Ht. }
  destruct (get_number_of_atoms_of_run s1 sc Hsc) as (s2 & out2 & Hatoms).
  change (number_of_atoms_of s1 sc) with (number_of_atoms_of s0 sc) in Hatoms.
  assert (Hd2 : deriving r t dt st (np_zeros_like r) s2).
  { pose proof (deriving_get_number_of_atoms r t dt st _ s1 Hd1) as H.
    rewrite Hatoms in H. exact H. }
  assert (His : forall i, In i (range (number_of_atoms_of s0 sc)) ->
                          (i < shape1 r)%nat).
  { intros i Hi. unfold range in Hi. apply in_seq in Hi. fold n in Hi. lia. }
  destruct (differentiate_outer_loop r t dt st _ H2 Hdims His _ s2 Hd2
              (zeros_like_shaped_like r Hw)) as (s3 & Hloop & Hd3).
  set (final := fold_left _ _ (np_zeros_like r)) in Hd3.
  exists final, s3, (No_velocity_provided :: o0 ++ out2).
  split.
  - unfold velocity.
    rewrite (bind_quiet get_self _ s s s eq_refl). rewrite Hv.
    rewrite (bind_returns _ _ s tt s [No_velocity_provided] eq_refl).
    rewrite (bind_returns _ _ _ _ _ _ Hrel).
    rewrite (bind_quiet (modify (with_velocity (Some (np_zeros_like r)))) _
               s0 tt s1 eq_refl).
    rewrite (bind_returns _ _ _ _ _ _ Hatoms).
    rewrite (bind_quiet _ _ _ _ _ Hloop).
    unfold velocity_buffer.
    rewrite (bind_quiet get_self _ s3 s3 s3 eq_refl).
    destruct Hd3 as (_ & _ & _ & _ & ->). cbn [ret].
    rewrite !app_nil_r. reflexivity.
  - assert (Hjs : forall j, In j (range (get_number_of_dimensions st)) ->
                            (j < shape2 r)%nat).
    { intros j Hj. unfold range in Hj. apply in_seq in Hj.
      unfold dims in Hdims. fold st in Hdims. lia. }
    pose proof (fold_gradient_outer r dt 0 0 0 _ _ ltac:(lia) Hjs His
                  (np_zeros_like r) (zeros_like_shaped_like r Hw))
      as [(Hf1 & Hf2 & Hf0 & _) _].
    fold final in Hf1, Hf2, Hf0.
    split; [exact Hf0|]. split; [exact Hf1|]. split; [exact Hf2|].
    intros tk i j Htk Hi Hj.
    pose proof (fold_gradient_outer r dt tk i j _ _ Htk Hjs His
                  (np_zeros_like r) (zeros_like_shaped_like r Hw))
      as [_ Hc].
    fold final in Hc. rewrite Hc. unfold range. rewrite !existsb_seq.
    rewrite coord_zeros_like. reflexivity.
Qed.

End DerivedVelocity.

(* ================================================================== *)
(** * check_trajectory_structure: the reordering *)
(* ================================================================== *)

Lemma put_atom_layout (original buf : ndarray3) (i : nat)
    (rws : list (list complex)) :
  same_layout original buf -> length rws = length (frames original) ->
  same_layout original (put_atom buf i rws).
Proof.
  intros (Hlen & Hfr & Hs1) Hr. unfold same_layout, put_atom.
  cbn [frames shape1]. split; [|split].
  - rewrite length_map, length_combine. lia.
  - apply Forall_forall. intros fr Hin. apply in_map_iff in Hin.
    destruct Hin as ([f r] & <- & Hin). cbn [fst snd].
    rewrite length_list_set. apply in_combine_l in Hin.
    rewrite Forall_forall in Hfr. apply Hfr. exact Hin.
  - exact Hs1.
Qed.

Lemma entry_put_atom (original buf : ndarray3) (i t i0 : nat)
    (rws : list (list complex)) :
  same_layout original buf -> length rws = length (frames original) ->
  (t < shape0 original)%nat -> (i < shape1 original)%nat ->
  entry (put_atom buf i rws) t i0
  = if (i0 =? i)%nat then nth t rws [] else entry buf t i0.
Proof.
  intros (Hlen & Hfr & Hs1) Hr Ht Hi. unfold entry, shape0 in *.
  rewrite frame_of_put_atom by lia.
  destruct (Nat.eqb_spec i0 i) as [->|Hne].
  - apply nth_list_set_same.
    rewrite Forall_forall in Hfr. rewrite (Hfr (nth t (frames buf) [])).
    + exact Hi.
    + apply nth_In. lia.
  - apply nth_list_set_other. exact Hne.
Qed.

Lemma move_atom_run (original buf : ndarray3) (i p : nat) (s : Dynamics) :
  same_layout original buf ->
  (i < shape1 original)%nat -> (p < shape1 original)%nat ->
  move_atom original (i, p) buf s
  = (Returns (put_atom buf i (atom_rows original p)), s, []).
Proof.
  intros (Hlen & Hfr & Hs1) Hi Hp. unfold move_atom.
  assert (Hget : get_atom original p s = (Returns (atom_rows original p), s, [])).
  { unfold get_atom. destruct (Nat.ltb_spec p (shape1 original)); [reflexivity|lia]. }
  rewrite (bind_quiet _ _ _ _ _ Hget).
  unfold set_atom.
  destruct (Nat.ltb_spec i (shape1 buf)); [|lia].
  rewrite length_atom_rows. unfold shape0. rewrite Hlen, Nat.eqb_refl.
  reflexivity.
Qed.

(** the loop over [enumerate(arangement)], started at any index *)
Lemma move_loop (original : ndarray3) (s : Dynamics) (arr : list nat) :
  forall (a : nat) (buf : ndarray3),
    same_layout original buf ->
    (a + length arr <= shape1 original)%nat ->
    Forall (fun p => (p < shape1 original)%nat) arr ->
    exists result,
      for_acc (combine (seq a (length arr)) arr) buf (move_atom original) s
      = (Returns result, s, [])
      /\ same_layout original result
      /\ shape2 result = shape2 buf
      /\ forall t i0, (t < shape0 original)%nat ->
           entry result t i0
           = if ((a <=? i0) && (i0 <? a + length arr))%nat
             then entry original t (nth (i0 - a) arr 0%nat)
             else entry buf t i0.
Proof.
  induction arr as [|p rest IH]; intros a buf Hlay Hbound Hpos.
  - exists buf. cbn [length seq combine for_acc].
    split; [reflexivity|]. split; [exact Hlay|]. split; [reflexivity|].
    intros t i0 _.
    destruct (Nat.leb_spec a i0); destruct (Nat.ltb_spec i0 (a + 0));
      cbn [andb]; try reflexivity; lia.
  - cbn [length] in Hbound. inversion Hpos as [|? ? Hp Hrest]; subst.
    cbn [length seq combine for_acc].
    rewrite (bind_quiet _ _ _ _ _
               (move_atom_run original buf a p s Hlay ltac:(lia) Hp)).
    destruct (IH (S a) (put_atom buf a (atom_rows original p))
                (put_atom_layout original buf a _ Hlay (length_atom_rows original p))
                ltac:(lia) Hrest)
      as (result & Hrun & Hlay' & Hs2 & Hentry).
    exists result. split; [exact Hrun|]. split; [exact Hlay'|].
    split; [exact Hs2|].
    intros t i0 Ht. rewrite (Hentry t i0 Ht).
    rewrite (entry_put_atom original buf a t i0 _ Hlay
               (length_atom_rows original p) Ht ltac:(lia)).
    rewrite nth_atom_rows.
    destruct (Nat.leb_spec (S a) i0); destruct (Nat.ltb_spec i0 (S a + length rest));
      destruct (Nat.leb_spec a i0); destruct (Nat.ltb_spec i0 (a + S (length rest)));
      destruct (Nat.eqb_spec i0 a); cbn [andb]; try lia; try reflexivity.
    + replace (i0 - a)%nat with (S (i0 - S a)) by lia. reflexivity.
    + subst i0. rewrite Nat.sub_diag. reflexivity.
Qed.

Section Reordering.

Variable averaged_positions : ndarray3 -> outcome (list (list complex)).
Variable get_correct_arangement :
  list (list complex) -> Structure -> outcome (option (list nat)).

(** X29. [check_trajectory_structure] applies the arrangement it is given
    as a gather from a copy of the trajectory.  Let the averaged positions
    and the arrangement be returned, the arrangement be a list no longer
    than the number of atoms, with every position below that number, and
    every frame of the trajectory hold [shape[1]] atoms.  Then the call
    returns, prints nothing, leaves the object alone and keeps the shape;
    atom [i] of every frame of the result is atom [arangement[i]] of the
    same frame of the trajectory as it was passed in, for every [i] below
    the length of the arrangement, and atom [i] itself beyond it.  An
    earlier pass of the loop never feeds a later one. *)
Theorem reordering_gathers_atoms_from_a_copy
    (trajectory : ndarray3) (structure : Structure)
    (reference : list (list complex)) (arangement : list nat) (s : Dynamics) :
  averaged_positions trajectory = Returns reference ->
  get_correct_arangement reference structure = Returns (Some arangement) ->
  Forall (fun fr => length fr = shape1 trajectory) (frames trajectory) ->
  (length arangement <= shape1 trajectory)%nat ->
  Forall (fun p => (p < shape1 trajectory)%nat) arangement ->
  exists result,
    check_trajectory_structure averaged_positions get_correct_arangement
      trajectory structure s = (Returns result, s, [])
    /\ shape0 result = shape0 trajectory
    /\ shape1 result = shape1 trajectory
    /\ shape2 result = shape2 trajectory
    /\ forall t i, (t < shape0 trajectory)%nat ->
         entry result t i
         = entry trajectory t
             (if (i <? length arangement)%nat then nth i arangement 0%nat else i).
Proof.
  intros Hav Harr Hfr Hlen Hpos. unfold check_trajectory_structure.
  rewrite (bind_quiet (lift (averaged_positions trajectory)) _ s reference s)
    by (unfold lift; rewrite Hav; reflexivity).
  rewrite (bind_quiet (lift (get_correct_arangement reference structure)) _ s
             (Some arangement) s)
    by (unfold lift; rewrite Harr; reflexivity).
  assert (Hlay : same_layout trajectory trajectory).
  { split; [reflexivity|]. split; [exact Hfr|reflexivity]. }
  destruct (move_loop trajectory s arangement 0 trajectory Hlay
              ltac:(lia) Hpos)
    as (result & Hrun & (Hl & _ & Hs1) & Hs2 & Hentry).
  assert (Hgoal : forall t i, (t < shape0 trajectory)%nat ->
            entry result t i
            = entry trajectory t
                (if (i <? length arangement)%nat
                 then nth i arangement 0%nat else i)).
  { intros t i Ht. rewrite (Hentry t i Ht).
    cbn [Nat.leb andb Nat.add]. rewrite Nat.sub_0_r.
    destruct (i <? length arangement)%nat; reflexivity. }
  destruct arangement as [|p rest].
  - exists trajectory. split; [reflexivity|].
    split; [reflexivity|]. split; [reflexivity|]. split; [reflexivity|].
    intros t i Ht. reflexivity.
  - exists result. split; [exact Hrun|].
    split; [exact Hl|]. split; [exact Hs1|]. split; [exact Hs2|exact Hgoal].
Qed.

End Reordering.

(* ================================================================== *)
(** * mem_coefficient_scan_analysis, over all modes *)
(* ================================================================== *)

(** a loop over two lists, one after the other *)
Lemma for_acc_app {A B : Type} (body : A -> B -> M B) (l1 l2 : list A) :
  forall (d : B) (s : Dynamics),
    for_acc (l1 ++ l2) d body s
    = (d' <- for_acc l1 d body ;; for_acc l2 d' body) s.
Proof.
  induction l1 as [|a l1 IH]; intros d s; cbn [app for_acc].
  - unfold bind, ret. destruct (for_acc l2 d body s) as [[r s'] o].
    reflexivity.
  - unfold bind at 1 2 3.
    destruct (body a d s) as [[[d1| |e] s1] o1]; try reflexivity.
    rewrite IH. unfold bind.
    destruct (for_acc l1 d1 body s1) as [[[d2| |e2] s2] o2]; try reflexivity.
    destruct (for_acc l2 d2 body s2) as [[r3 s3] o3].
    rewrite app_assoc. reflexivity.
Qed.

Section ScanOfEveryMode.

Variable mem : list R -> list complex -> R -> Z -> list R.
Variable covariance : Type.
Variable curve_fit :
  list R -> list R -> fit_parameters -> option (fit_parameters * covariance).
Variable get_error_from_covariance : covariance -> R.

Variable vq : ndarray2.
Variable parameters : Parameters.

Local Abbreviation fits i dt :=
  (successful_fits mem covariance curve_fit vq parameters i dt).
Local Abbreviation nerror :=
  (normalized_error covariance get_error_from_covariance).
Local Abbreviation width := (full_width covariance).
Local Abbreviation fitted dt :=
  (mode_fitted mem covariance curve_fit get_error_from_covariance vq
               parameters dt).
Local Abbreviation summary dt :=
  (mode_summary mem covariance curve_fit get_error_from_covariance vq
                parameters dt).
Local Abbreviation scan_of dt :=
  (mode_scan_lines mem covariance curve_fit vq parameters dt).
Local Abbreviation report_of dt :=
  (mode_report mem covariance curve_fit get_error_from_covariance vq
               parameters dt).
Local Abbreviation best_of dt :=
  (best_index_of mem covariance curve_fit get_error_from_covariance vq
                 parameters dt).
Local Abbreviation after_scan := (state_after_scan parameters).
Local Abbreviation scan i :=
  (scan_mode mem covariance curve_fit get_error_from_covariance vq
             parameters i).
Local Abbreviation routine :=
  (mem_coefficient_scan_analysis mem covariance curve_fit
     get_error_from_covariance vq parameters).

Lemma state_after_scan_stable (s : Dynamics) (t : list R) :
  after_scan (after_scan s t) t = after_scan s t
  /\ time_step_value (after_scan s t) t = time_step_value s t.
Proof.
  unfold state_after_scan. destruct (mem_scan_range parameters).
  - split; reflexivity.
  - apply time_step_state_stable.
Qed.

Lemma state_after_scan_time (s : Dynamics) (t : list R) :
  _time s = Some t -> _time (after_scan s t) = Some t.
Proof.
  intros Ht. unfold state_after_scan.
  destruct (mem_scan_range parameters); [exact Ht|].
  rewrite time_step_state_time. exact Ht.
Qed.

(** the scan of a mode that can be summarised *)
Lemma scan_mode_summary (s : Dynamics) (t : list R) (i : nat) :
  _time s = Some t ->
  fitted (time_step_value s t) i ->
  scan i s
  = (Returns (summary (time_step_value s t) i), after_scan s t,
     scan_of (time_step_value s t) i).
Proof.
  intros Ht (Hal & Hrs & Hpos).
  apply (scan_mode_with_fits mem covariance curve_fit
           get_error_from_covariance vq parameters i s t Ht Hal Hrs).
  apply Rgt_not_eq.
  apply (weights_sum_positive covariance get_error_from_covariance _ Hrs Hpos).
Qed.

(** the first loop, over modes that can all be summarised *)
Lemma scan_modes_loop (t : list R) (dt : R) (l : list nat) :
  (forall i, In i l -> fitted dt i) ->
  forall (s : Dynamics) (d : list mode_entry),
    _time s = Some t ->
    time_step_value s t = dt ->
    for_acc l d (fun i d => e <- scan i ;; ret (d ++ [e])) s
    = (Returns (d ++ map (summary dt) l),
       match l with [] => s | _ => after_scan s t end,
       flat_map (scan_of dt) l).
Proof.
  induction l as [|i l IH]; intros Hall s d Ht Hdt.
  - cbn. rewrite app_nil_r. reflexivity.
  - cbn [for_acc map flat_map].
    assert (Hi : fitted (time_step_value s t) i)
      by (rewrite Hdt; apply Hall; left; reflexivity).
    assert (Hstep : (e <- scan i ;; ret (d ++ [e])) s
                    = (Returns (d ++ [summary dt i]), after_scan s t,
                       scan_of dt i)).
    { rewrite (bind_returns _ _ _ _ _ _ (scan_mode_summary s t i Ht Hi)).
      cbn [ret]. rewrite app_nil_r, Hdt. reflexivity. }
    rewrite (bind_returns _ _ _ _ _ _ Hstep).
    destruct (state_after_scan_stable s t) as [Hs Hv].
    rewrite (IH (fun j Hj => Hall j (or_intror Hj)) (after_scan s t))
      by (rewrite ?Hv; auto using state_after_scan_time).
    rewrite Hs, <- app_assoc. cbn [app].
    destruct l; reflexivity.
Qed.

(** the recorded candidate that [np.argmin] picks for a fitted mode *)
Lemma best_fit_of_mode (dt : R) (i : nat) :
  fits i dt <> [] ->
  exists best,
    nth_error (fits i dt) (best_of dt i) = Some best
    /\ forall r, In r (fits i dt) -> nerror best <= nerror r.
Proof.
  intros Hrs. unfold best_index_of.
  set (rs := fits i dt) in *.
  assert (Hne : map nerror rs <> []) by (destruct rs; [congruence|discriminate]).
  destruct (argmin_index_spec _ Hne) as (Hb & Hmin & _).
  rewrite length_map in Hb.
  destruct (nth_error rs (argmin_index (map nerror rs))) as [best|] eqn:Hbest;
    [|apply nth_error_None in Hbest; lia].
  exists best. split; [reflexivity|].
  assert (Hnth : nth (argmin_index (map nerror rs)) (map nerror rs) 0
                 = nerror best).
  { rewrite (nth_indep _ 0 (nerror best)) by (rewrite length_map; exact Hb).
    rewrite map_nth. f_equal. apply nth_error_nth. exact Hbest. }
  intros r Hr. apply (In_nth _ _ best) in Hr. destruct Hr as (j & Hj & <-).
  specialize (Hmin j ltac:(rewrite length_map; exact Hj)).
  rewrite Hnth in Hmin.
  rewrite (nth_indep _ 0 (nerror best)) in Hmin by (rewrite length_map; exact Hj).
  rewrite map_nth in Hmin. exact Hmin.
Qed.

(** the summary of a stored mode is printed without an error *)
Lemma report_of_summary (dt : R) (i : nat) (s : Dynamics) :
  fits i dt <> [] ->
  report_mode i (summary dt i) s = (Returns tt, s, report_of dt i).
Proof.
  intros Hrs. destruct (best_fit_of_mode dt i Hrs) as (best & Hbest & _).
  unfold mode_report. rewrite Hbest.
  apply (report_mode_run covariance get_error_from_covariance i s
           (fits i dt) _ _ best).
  exact Hbest.
Qed.

(** the second loop, over the entries that the first loop has stored *)
Lemma report_loop (dt : R) (n : nat) (l : list nat) (s : Dynamics) :
  (forall i, In i l -> (i < n)%nat /\ fits i dt <> []) ->
  for_in l
    (fun i =>
       e <- getitem (map (summary dt) (seq 0 n)) i ;; report_mode i e) s
  = (Returns tt, s, flat_map (report_of dt) l).
Proof.
  induction l as [|i l IH]; intros Hall; [reflexivity|].
  cbn [for_in flat_map].
  destruct (Hall i (or_introl eq_refl)) as [Hi Hrs].
  assert (Hget : getitem (map (summary dt) (seq 0 n)) i s
                 = (Returns (summary dt i), s, [])).
  { rewrite (getitem_in_range _ i (summary dt 0) s)
      by (rewrite length_map, length_seq; exact Hi).
    rewrite (map_nth (summary dt)), seq_nth by exact Hi. reflexivity. }
  assert (Hstep : (e <- getitem (map (summary dt) (seq 0 n)) i ;;
                   report_mode i e) s
                  = (Returns tt, s, report_of dt i)).
  { rewrite (bind_quiet _ _ _ _ _ Hget). apply report_of_summary. exact Hrs. }
  rewrite (bind_returns _ _ _ _ _ _ Hstep).
  rewrite (IH (fun j Hj => Hall j (or_intror Hj))). reflexivity.
Qed.


(** A mode without any fitted candidate ends the routine in the
    [IndexError] of [fit_data[1]]: what the earlier modes have stored is
    never summarised, and the later modes are never scanned. *)
Lemma scan_analysis_raises_at_unfitted_mode
    (s : Dynamics) (t : list R) (j : nat) :
  _time s = Some t ->
  let dt := time_step_value s t in
  (j < ncols vq)%nat ->
  (forall i, (i < j)%nat -> fitted dt i) ->
  spectra_aligned mem vq parameters j dt ->
  fits j dt = [] ->
  routine s
  = (Raises IndexError, after_scan s t,
     flat_map (scan_of dt) (seq 0 j) ++ scan_of dt j).
Proof.
  intros Ht dt Hj Hall Hal Hnone. unfold mem_coefficient_scan_analysis.
  assert (Hsplit : seq 0 (ncols vq)
                   = seq 0 j ++ j :: seq (S j) (ncols vq - S j)).
  { replace (ncols vq) with (j + S (ncols vq - S j))%nat at 1 by lia.
    rewrite seq_app. reflexivity. }
  rewrite Hsplit.
  assert (Hin : forall i, In i (seq 0 j) -> fitted dt i)
    by (intros i Hi; apply in_seq in Hi; apply Hall; lia).
  pose proof (scan_modes_loop t dt (seq 0 j) Hin s [] Ht eq_refl) as Hfirst.
  set (s1 := match seq 0 j with [] => s | _ => after_scan s t end) in Hfirst.
  assert (Hs1 : _time s1 = Some t /\ time_step_value s1 t = dt
                /\ after_scan s1 t = after_scan s t).
  { unfold s1. destruct (seq 0 j).
    - split; [exact Ht|split; reflexivity].
    - destruct (state_after_scan_stable s t) as [Hs Hv].
      split; [apply state_after_scan_time; exact Ht|split; assumption]. }
  destruct Hs1 as (Ht1 & Hdt1 & Hafter).
  pose proof (scan_mode_without_fit mem covariance curve_fit
                get_error_from_covariance vq parameters j s1 t Ht1) as Hmode.
  rewrite Hdt1, Hafter in Hmode. specialize (Hmode Hal Hnone).
  fold (scan_of dt j) in Hmode.
  assert (Hloop :
            for_acc (seq 0 j ++ j :: seq (S j) (ncols vq - S j)) []
              (fun i d => e <- scan i ;; ret (d ++ [e])) s
            = (Raises IndexError, after_scan s t,
               flat_map (scan_of dt) (seq 0 j) ++ scan_of dt j)).
  { rewrite for_acc_app.
    rewrite (bind_returns _ _ _ _ _ _ Hfirst).
    cbn [for_acc app].
    rewrite (bind_raises _ _ _ _ _ _ (bind_raises _ _ _ _ _ _ Hmode)).
    reflexivity. }
  rewrite (bind_raises _ _ _ _ _ _ Hloop). reflexivity.
Qed.

End ScanOfEveryMode.

(* ================================================================== *)
(** * A fitted mode next to a mode that cannot be fitted *)
(* ================================================================== *)

(** the fit of a flat spectrum at the level of the first sample *)
Lemma peak_fit_of_level (vq : ndarray2) (i : nat) (dt : R) (c : Z) :
  let h := Re (hd C0 (column vq i)) * IZR c in
  candidate_fit level_mem unit peak_fit vq three_coefficients i dt c
  = if Rlt_dec 0 h then Some ((1, 1 / 10, h, 0), tt) else None.
Proof.
  intros h. unfold candidate_fit, candidate_spectrum, level_mem, initial_guess.
  cbn [frequency_range three_coefficients map]. fold h.
  assert (Hmax : argmax_index [h; h] = 0%nat).
  { unfold argmax_index. cbn [argmax_from].
    destruct (Rlt_dec h h) as [H|_]; [lra|reflexivity]. }
  rewrite Hmax. reflexivity.
Qed.

Lemma level_spectra_aligned (vq : ndarray2) (i : nat) (dt : R) :
  spectra_aligned level_mem vq three_coefficients i dt.
Proof. split; [discriminate|]. intros c. reflexivity. Qed.

(** a mode whose first sample has a positive real part: both candidates
    are fitted, the second with the smaller error *)
Lemma signal_fits (vq : ndarray2) (i : nat) (dt : R) :
  let a := Re (hd C0 (column vq i)) in
  0 < a ->
  successful_fits level_mem unit peak_fit vq three_coefficients i dt
  = [ mkFit unit 2 [a * 2; a * 2] (1, 1 / 10, a * 2, 0) tt;
      mkFit unit 3 [a * 3; a * 3] (1, 1 / 10, a * 3, 0) tt ].
Proof.
  intros a Ha. unfold successful_fits, fits_of.
  cbn [mem_scan_range three_coefficients flat_map].
  rewrite !peak_fit_of_level. cbv zeta. fold a.
  destruct (Rlt_dec 0 (a * 2)) as [_|H]; [|lra].
  destruct (Rlt_dec 0 (a * 3)) as [_|H]; [|lra].
  reflexivity.
Qed.

Lemma level_error (h : R) :
  0 < h -> 1 / (h / (1 / 10 * PI)) = PI / (10 * h).
Proof. intros Hh. pose proof PI_RGT_0. field. split; lra. Qed.

Lemma signal_fitted (vq : ndarray2) (i : nat) (dt : R) :
  0 < Re (hd C0 (column vq i)) ->
  mode_fitted level_mem unit peak_fit unit_error vq three_coefficients dt i.
Proof.
  intros Ha.
  split; [apply level_spectra_aligned|]. rewrite (signal_fits vq i dt Ha).
  split; [discriminate|].
  intros r Hr. pose proof PI_RGT_0 as Hpi.
  destruct Hr as [<-|[<-|[]]]; unfold normalized_error, unit_error;
    cbn [fit_cov fit_params par1 par2]; rewrite level_error by lra;
    apply Rdiv_lt_0_compat; lra.
Qed.

Lemma loud_mode_fitted (dt : R) :
  mode_fitted level_mem unit peak_fit unit_error silent_second_mode
              three_coefficients dt 0.
Proof. apply signal_fitted. cbn. lra. Qed.

(** its second mode: no candidate is fitted *)
Lemma silent_mode_fits (dt : R) :
  successful_fits level_mem unit peak_fit silent_second_mode
                  three_coefficients 1 dt = [].
Proof.
  unfold successful_fits, fits_of.
  cbn [mem_scan_range three_coefficients flat_map].
  rewrite !peak_fit_of_level. cbv zeta.
  change (Re (hd C0 (column silent_second_mode 1))) with 0.
  destruct (Rlt_dec 0 (0 * 2)) as [H|_]; [lra|].
  destruct (Rlt_dec 0 (0 * 3)) as [H|_]; [lra|].
  reflexivity.
Qed.


(* ================================================================== *)
(** * The further statements at concrete objects *)
(* ================================================================== *)

Lemma half_step_average_run :
  get_time_step_average half_step_dynamics
  = (Returns (1 / 2),
     with_time_step_average (Some (1 / 2)) half_step_dynamics, []).
Proof.
  rewrite (get_time_step_average_fresh half_step_dynamics
             [0; 1 / 2; 1; 3 / 2] eq_refl eq_refl).
  rewrite half_step_sum. reflexivity.
Qed.

(** X1 on four samples half a time unit apart. *)
Lemma time_step_average_is_span_over_intervals_witness :
  get_time_step_average half_step_dynamics
  = (Returns ((3 / 2 - 0) / INR 3),
     with_time_step_average (Some ((3 / 2 - 0) / INR 3)) half_step_dynamics,
     []).
Proof.
  exact (time_step_average_is_span_over_intervals half_step_dynamics
           [0; 1 / 2; 1; 3 / 2] eq_refl ltac:(cbn; lia) eq_refl).
Defined.

(** X2 on a single sample of time. *)
Lemma time_step_average_of_short_series_witness :
  get_time_step_average single_sample_dynamics
  = (Returns 0, with_time_step_average (Some 0) single_sample_dynamics, []).
Proof.
  exact (proj1 (time_step_average_of_short_series single_sample_dynamics [5]
                  eq_refl ltac:(cbn; lia) eq_refl)).
Defined.

(** X3: the average 1/2 of the four samples is still returned after the
    series was replaced by one of step 1. *)
Lemma cached_time_step_outlives_set_time_witness :
  (set_time (Some [0; 1]) ;; get_time_step_average)
    (with_time_step_average (Some (1 / 2)) half_step_dynamics)
  = (Returns (1 / 2),
     with_time (Some [0; 1])
       (with_time_step_average (Some (1 / 2)) half_step_dynamics), []).
Proof.
  exact (cached_time_step_outlives_set_time half_step_dynamics _ (1 / 2) []
           (Some [0; 1]) half_step_average_run ltac:(lra)).
Defined.

(** X4 on an object without a time series. *)
Lemma time_step_average_without_time_witness :
  get_time_step_average doubled_dynamics
  = (Raises TypeError, with_time_step_average (Some 0) doubled_dynamics, []).
Proof.
  exact (proj1 (time_step_average_without_time doubled_dynamics
                  eq_refl eq_refl)).
Defined.

Lemma doubled_cell_is_repeated :
  _super_cell doubled_dynamics
  = Some (scale_columns (2, 2, 2)%Z (get_cell (_structure doubled_dynamics))).
Proof.
  cbn. unfold diagonal_cell. repeat f_equal; lra.
Qed.

Lemma unit_cell_non_degenerate : non_degenerate (diagonal_cell 1 1 1).
Proof. unfold non_degenerate, det3, diagonal_cell. lra. Qed.

(** X5 on the 2 x 2 x 2 simulation cell. *)
Lemma super_cell_matrix_of_repeated_cell_witness :
  get_super_cell_matrix default_tolerance doubled_dynamics
  = (Returns (2, 2, 2)%Z,
     with_super_cell_matrix (Some (2, 2, 2)%Z) doubled_dynamics,
     [MD_cell_size_relation (2, 2, 2)%Z]).
Proof.
  exact (super_cell_matrix_of_repeated_cell default_tolerance doubled_dynamics
           (2, 2, 2)%Z eq_refl unit_cell_non_degenerate
           doubled_cell_is_repeated
           (conj eq_refl (conj eq_refl eq_refl))
           (conj eq_refl (conj eq_refl eq_refl))
           (Rle_refl default_tolerance)).
Defined.

Lemma stretched_cell_halts :
  exists out,
    get_super_cell_matrix default_tolerance stretched_dynamics
    = (SystemExit,
       with_super_cell_matrix (Some (1, 1, 1)%Z) stretched_dynamics, out).
Proof.
  pose proof (get_super_cell_matrix_first_call default_tolerance
                stretched_dynamics (diagonal_cell (13 / 10) 1 1)
                eq_refl eq_refl) as Hrun.
  cbv zeta in Hrun.
  assert (Hreal : np_divide3 (parameters (diagonal_cell (13 / 10) 1 1))
                    (parameters (get_cell (_structure stretched_dynamics)))
                  = (13 / 10, 1, 1)).
  { apply ratio_to_unit_cell; lra. }
  rewrite Hreal in Hrun.
  assert (Hm : np_around3 (13 / 10, 1, 1) = (1, 1, 1)%Z).
  { unfold np_around3. rewrite (np_around_integer 1).
    rewrite (np_around_near (13 / 10) 1); [reflexivity|lra]. }
  rewrite Hm in Hrun.
  destruct (Rlt_dec _ _) as [_|Hno]; [eexists; exact Hrun|].
  exfalso. apply Hno. unfold default_tolerance, cell_fit_deviation.
  cbn [sub_int_real py_sum3 norm3].
  assert (Hs1 : sqrt (13 / 10 * (13 / 10) + 1 * 1 + 1 * 1) <= 2)
    by (apply sqrt_at_most; lra).
  assert (Hs0 : 1 <= sqrt (13 / 10 * (13 / 10) + 1 * 1 + 1 * 1))
    by (apply sqrt_at_least; lra).
  set (n := sqrt _) in *.
  replace ((0 + (1 - 13 / 10) + (1 - 1) + (1 - 1)) / n)
    with (- ((3 / 10) / n)) by (field; lra).
  rewrite Rabs_Ropp, Rabs_right.
  - assert (H : / 2 <= / n) by (apply Rinv_le_contravar; lra).
    unfold Rdiv. lra.
  - apply Rle_ge. apply Rmult_le_pos; [lra|].
    left. apply Rinv_0_lt_compat. lra.
Qed.

(** X6 on a simulation cell of 1.3 x 1 x 1 reference cells: the first call
    halts, and (1, 1, 1) is what every later call returns. *)
Lemma rejected_super_cell_matrix_stays_cached_witness :
  exists m,
    _super_cell_matrix
      (with_super_cell_matrix (Some (1, 1, 1)%Z) stretched_dynamics) = Some m
    /\ get_super_cell_matrix 0
         (with_super_cell_matrix (Some (1, 1, 1)%Z) stretched_dynamics)
       = (Returns m,
          with_super_cell_matrix (Some (1, 1, 1)%Z) stretched_dynamics, []).
Proof.
  destruct stretched_cell_halts as (out & Hrun).
  destruct (rejected_super_cell_matrix_stays_cached default_tolerance
              stretched_dynamics _ out eq_refl eq_refl Hrun)
    as (m & Hm & Hcalls & _).
  exists m. split; [exact Hm|exact (Hcalls 0)].
Defined.

(** X7 on an object with a cached matrix (1, 1, 1). *)
Lemma cached_super_cell_matrix_outlives_cells_witness :
  (set_super_cell (Some (diagonal_cell 3 3 3)) ;; set_structure one_atom_cell ;;
   get_super_cell_matrix 0) four_step_cached
  = (Returns (1, 1, 1)%Z,
     with_structure one_atom_cell
       (with_super_cell (Some (diagonal_cell 3 3 3)) four_step_cached), []).
Proof.
  exact (cached_super_cell_matrix_outlives_cells default_tolerance 0
           four_step_cached four_step_cached (1, 1, 1)%Z []
           (Some (diagonal_cell 3 3 3)) one_atom_cell
           (get_super_cell_matrix_cached default_tolerance four_step_cached
              (1, 1, 1)%Z eq_refl)).
Defined.

(** X8 on an object without a simulation cell. *)
Lemma number_of_atoms_needs_super_cell_witness :
  get_number_of_atoms half_step_dynamics
  = (Raises TypeError, half_step_dynamics, []).
Proof.
  exact (proj2 (number_of_atoms_needs_super_cell half_step_dynamics
                  eq_refl eq_refl eq_refl)).
Defined.

(** X9 on four frames, the removal handing back the raw trajectory. *)
Lemma relative_trajectory_is_computed_once_witness :
  get_relative_trajectory raw_trajectory
    (with_relative_trajectory (Some four_frames) four_step_dynamics)
  = (Returns four_frames,
     with_relative_trajectory (Some four_frames) four_step_dynamics, []).
Proof.
  exact (proj1 (relative_trajectory_is_computed_once raw_trajectory
                  four_step_dynamics
                  (with_relative_trajectory (Some four_frames)
                                            four_step_dynamics)
                  four_frames [] eq_refl)).
Defined.

(** X10: four samples cropped to three and then to two. *)
Lemma cropping_twice_is_cropping_to_the_shorter_witness :
  exists s' o1 o2,
    (crop_trajectory raw_trajectory (Some 3%Z) ;;
     crop_trajectory raw_trajectory (Some 2%Z)) four_step_dynamics
    = (Returns tt, s', o1)
    /\ crop_trajectory raw_trajectory (Some (Z.min 3 2)) four_step_dynamics
       = (Returns tt, s', o2).
Proof.
  exact (cropping_twice_is_cropping_to_the_shorter raw_trajectory
           four_step_dynamics four_frames 3 2 eq_refl
           ltac:(lia) ltac:(lia)).
Defined.

(** X11: four aligned samples cropped to two. *)
Lemma crop_keeps_series_aligned_witness :
  exists s' out,
    crop_trajectory raw_trajectory (Some 2%Z) four_step_dynamics
    = (Returns tt, s', out)
    /\ (forall t', _time s' = Some t' -> length t' = 2%nat)
    /\ last out Warning_larger_than_available = Using_steps 2.
Proof.
  destruct (crop_keeps_series_aligned raw_trajectory four_step_dynamics
              four_frames 2 4 eq_refl ltac:(lia) eq_refl
              ltac:(intros t H; injection H as <-; reflexivity)
              ltac:(intros e H; injection H as <-; reflexivity)
              ltac:(intros tr H; injection H as <-; reflexivity))
    as (s' & out & Hrun & _ & Ht & _ & _ & Hlast).
  exists s', out. split; [exact Hrun|]. split; [exact Ht|exact Hlast].
Defined.

(** X21: one frame only, so that the differentiation fails; the velocity
    attribute is set nevertheless. *)
Lemma derived_velocity_buffer_survives_failure_witness :
  exists b,
    _velocity (snd (fst (velocity raw_trajectory one_frame_dynamics))) = Some b
    /\ velocity raw_trajectory
         (snd (fst (velocity raw_trajectory one_frame_dynamics)))
       = (Returns b, snd (fst (velocity raw_trajectory one_frame_dynamics)), []).
Proof.
  exact (derived_velocity_buffer_survives_failure raw_trajectory
           one_frame_dynamics
           (with_relative_trajectory (Some one_frame) one_frame_dynamics)
           one_frame [] eq_refl eq_refl).
Defined.

(** X22 on four frames of one atom. *)
Lemma mass_weighted_buffer_survives_failure_witness :
  exists buf,
    _velocity_mass_average
      (snd (fst (get_velocity_mass_average raw_trajectory zero_filled
                   four_step_dynamics))) = Some buf
    /\ get_velocity_mass_average raw_trajectory zero_filled
         (snd (fst (get_velocity_mass_average raw_trajectory zero_filled
                      four_step_dynamics)))
       = (Returns buf,
          snd (fst (get_velocity_mass_average raw_trajectory zero_filled
                      four_step_dynamics)), []).
Proof.
  exact (mass_weighted_buffer_survives_failure raw_trajectory zero_filled
           four_step_dynamics four_step_dynamics four_frames []
           eq_refl eq_refl).
Defined.

(** X23 on the two frames that a crop has left. *)
Lemma mean_displacement_matrices_are_symmetric_witness :
  exists ms s1 o,
    get_mean_displacement_matrix raw_trajectory
      (with_mean_displacement_matrix None (crop_state 2 four_step_cached))
    = (Returns ms, s1, o)
    /\ length ms = 1%nat
    /\ Forall symmetric ms.
Proof.
  destruct mean_displacement_of_cropped_samples as (m & s1 & o & Hrun & _).
  exists [m], s1, o. split; [exact Hrun|].
  destruct (mean_displacement_matrices_are_symmetric raw_trajectory
              (with_mean_displacement_matrix None
                 (crop_state 2 four_step_cached))
              s1 [m] o eq_refl Hrun) as (Hlen & Hsym & _).
  split; [exact Hlen|exact Hsym].
Defined.

(** X12 on the series (1, 2, 3). *)
Lemma autocorrelation_centre_is_mean_square_witness :
  exists c,
    autocorrelation three_real_samples = Returns c
    /\ length c = length three_real_samples
    /\ nth (length three_real_samples / 2) c C0
       = RtoC (sum_of_squared_moduli three_real_samples
               / INR (length three_real_samples))
    /\ 0 <= sum_of_squared_moduli three_real_samples
            / INR (length three_real_samples).
Proof.
  exact (autocorrelation_centre_is_mean_square three_real_samples
           ltac:(discriminate)).
Defined.

(** X13 on the series (1, 2, 3): the entries at the two ends. *)
Lemma autocorrelation_is_hermitian_witness :
  exists c,
    autocorrelation three_real_samples = Returns c
    /\ nth 2 c C0 = Cconj (nth 0 c C0).
Proof.
  eexists. split; [apply autocorrelation_run; discriminate|].
  exact (autocorrelation_is_hermitian three_real_samples _ 1
           (autocorrelation_run three_real_samples ltac:(discriminate))
           ltac:(cbn; lia) ltac:(cbn; lia)).
Defined.

(** X14 on the series (1, 2, 3). *)
Lemma autocorrelation_of_a_real_series_witness :
  exists c,
    autocorrelation three_real_samples = Returns c
    /\ Forall (fun z => Im z = 0) c
    /\ nth 2 c C0 = nth 0 c C0.
Proof.
  eexists. split; [apply autocorrelation_run; discriminate|].
  destruct (autocorrelation_of_a_real_series three_real_samples _
              ltac:(repeat constructor)
              (autocorrelation_run three_real_samples ltac:(discriminate)))
    as [Hreal Heven].
  split; [exact Hreal|].
  exact (Heven 1%nat ltac:(cbn; lia) ltac:(cbn; lia)).
Defined.

(** X16 on the series (1, 2) with time step 1 and no padding. *)
Lemma fft_power_is_not_negative_witness :
  Forall (fun p => 0 <= p)
         (fft_power_stages [0; 1 / 4] [RtoC 1; RtoC 2] 1 (Z.to_nat 0)).
Proof.
  exact (fft_power_is_not_negative [0; 1 / 4] [RtoC 1; RtoC 2] 1 0 _
           ltac:(lra)
           (fft_power_run [0; 1 / 4] [RtoC 1; RtoC 2] 1 0
              ltac:(discriminate) ltac:(lia) R1_neq_R0)).
Defined.

(** X17 on the series (1, 2) and its triple. *)
Lemma fft_power_scales_with_squared_amplitude_witness :
  fft_power [0; 1 / 4] (map (fun z => Cscale z 3) [RtoC 1; RtoC 2]) 1 0
  = Returns (map (fun p => 3 * 3 * p)
                 (fft_power_stages [0; 1 / 4] [RtoC 1; RtoC 2] 1 (Z.to_nat 0))).
Proof.
  exact (fft_power_scales_with_squared_amplitude [0; 1 / 4]
           [RtoC 1; RtoC 2] 1 0 3 _ ltac:(lra)
           (fft_power_run [0; 1 / 4] [RtoC 1; RtoC 2] 1 0
              ltac:(discriminate) ltac:(lia) R1_neq_R0)).
Defined.

Lemma half_step_value_not_zero :
  time_step_value half_step_dynamics [0; 1 / 2; 1; 3 / 2] <> 0.
Proof.
  change (step_sum [0; 1 / 2; 1; 3 / 2] <> 0). rewrite half_step_sum. lra.
Qed.

(** X19 on five samples of two modes, without padding. *)
Lemma fft_spectra_of_every_mode_witness :
  exists spectra,
    length spectra = 2%nat
    /\ fst (fst (get_fft_spectra five_samples three_coefficients
                   half_step_dynamics))
       = Returns (stack_and_scale spectra).
Proof.
  destruct (fft_spectra_of_every_mode five_samples three_coefficients
              half_step_dynamics [0; 1 / 2; 1; 3 / 2] eq_refl
              ltac:(discriminate) ltac:(cbn; lia) half_step_value_not_zero)
    as (spectra & Hall & Hrun).
  exists spectra. split.
  - apply Forall2_length in Hall. symmetry. exact Hall.
  - rewrite Hrun. reflexivity.
Defined.

(** X20 on two spectra of two values. *)
Lemma stacked_spectra_are_transposed_and_scaled_witness :
  nth 0 (nth 1 (stack_and_scale [[1; 2]; [3; 4]]) []) 0
  = nth 1 (nth 0 [[1; 2]; [3; 4]] []) 0 * unit_conversion.
Proof.
  exact (proj2 (proj2 (stacked_spectra_are_transposed_and_scaled
                         [[1; 2]; [3; 4]] 2 1 0
                         ltac:(repeat constructor) ltac:(lia)
                         ltac:(cbn; lia)))).
Defined.

(** X26 on the second of three columns. *)
Lemma progress_reaches_done_at_the_last_column_witness :
  progress_line 0 "FFT" = Progress "FFT" 0 ""
  /\ INR 1 / INR 3 < INR (1 + 1) / INR 3.
Proof.
  destruct (progress_reaches_done_at_the_last_column 3 1 "FFT" ltac:(lia))
    as (H0 & Hgrow & _).
  split; [exact H0|exact Hgrow].
Defined.

(** X24 on the index 7 in a layout of 2 x 2 cells of 2 atoms. *)
Lemma type_2_decodes_the_index_witness :
  exists x y z k,
    type_2 7 (2, 2, 2)%Z 2 = Returns (x, y, z, k)
    /\ (7 = k + 2 * (x + 2 * (y + 2 * z)))%Z.
Proof.
  destruct (type_2_decodes_the_index 7 2 2 2 2
              ltac:(lia) ltac:(lia) ltac:(lia) ltac:(lia))
    as (x & y & z & k & Hrun & _ & _ & _ & _ & Hi).
  exists x, y, z, k. split; [exact Hrun|exact Hi].
Defined.

(** X25 on the index 7 in a layout of 2 x 2 x 2 cells. *)
Lemma type_1_decodes_the_index_witness :
  exists x y z k,
    type_1 7 (2, 2, 2)%Z 1 = Returns (x, y, z, k)
    /\ (7 = x + 2 * (y + 2 * (z + 2 * k)))%Z.
Proof.
  destruct (type_1_decodes_the_index 7 2 2 2 1
              ltac:(lia) ltac:(lia) eq_refl ltac:(lia))
    as (x & y & z & k & Hrun & _ & _ & _ & _ & Hi).
  exists x, y, z, k. split; [exact Hrun|exact Hi].
Defined.

(** X27 with [np.fft.fft] itself as the backend. *)
Lemma fftw_variant_agrees_with_fft_witness :
  fst (get_fft_fftw_spectra np_fft five_samples three_coefficients
         half_step_dynamics)
  = fst (get_fft_spectra five_samples three_coefficients half_step_dynamics).
Proof.
  exact (proj2 (fftw_variant_agrees_with_fft np_fft (fun d => eq_refl)
                  five_samples three_coefficients half_step_dynamics)).
Defined.

(** X28 on four frames of one atom, half a time unit apart. *)
Lemma derived_velocity_is_the_gradient_witness :
  exists v s' out,
    velocity raw_trajectory four_step_without_velocity = (Returns v, s', out)
    /\ shape0 v = 4%nat
    /\ coord v 1 0 0
       = nth 1 (gradient_values (coord_series four_frames 0 0)
                  (time_step_value four_step_without_velocity
                                   [0; 1 / 2; 1; 3 / 2])) C0.
Proof.
  assert (Hsc : super_cell_matrix_of
                  (with_relative_trajectory (Some four_frames)
                                            four_step_without_velocity)
                = Some (1, 1, 1)%Z).
  { apply super_cell_matrix_of_whole_cells; try reflexivity; lia. }
  pose proof (derived_velocity_is_the_gradient raw_trajectory
                four_step_without_velocity
                (with_relative_trajectory (Some four_frames)
                                          four_step_without_velocity)
                four_frames [] [0; 1 / 2; 1; 3 / 2] (1, 1, 1)%Z
                eq_refl eq_refl
                ltac:(repeat constructor) ltac:(cbn; lia) eq_refl
                half_step_value_not_zero Hsc) as H.
  cbv zeta in H.
  destruct H as (v & s' & out & Hrun & H0 & _ & _ & Hall);
    [exact (le_n 1)|exact (le_n 3)|].
  exists v, s', out. split; [exact Hrun|]. split; [exact H0|].
  exact (Hall 1%nat 0%nat 0%nat ltac:(cbn; lia) (le_n 1) ltac:(cbn; lia)).
Defined.

(** X29 on one frame of two atoms that the arrangement swaps. *)
Lemma reordering_gathers_atoms_from_a_copy_witness :
  exists result,
    check_trajectory_structure
      (fun _ => Returns []) (fun _ _ => Returns (Some swapped_arangement))
      two_atom_frame one_atom_cell one_frame_dynamics
    = (Returns result, one_frame_dynamics, [])
    /\ entry result 0 0 = [RtoC 2; C0; C0]
    /\ entry result 0 1 = [RtoC 1; C0; C0].
Proof.
  destruct (reordering_gathers_atoms_from_a_copy
              (fun _ => Returns []) (fun _ _ => Returns (Some swapped_arangement))
              two_atom_frame one_atom_cell [] swapped_arangement
              one_frame_dynamics eq_refl eq_refl
              ltac:(repeat constructor) (le_n 2) ltac:(repeat constructor))
    as (result & Hrun & _ & _ & _ & Hall).
  exists result. split; [exact Hrun|]. split.
  - exact (Hall 0%nat 0%nat (le_n 1)).
  - exact (Hall 0%nat 1%nat (le_n 1)).
Defined.

